(** * Hough voting layer of PoseCNN: a shallow embedding of
      [lib/hough_voting_layer/hough_voting_op.cc]

    The development follows the source file function by function:
    [getLabels], [getMode2D], [samplePoint2D], [getWorkingQueue],
    [point2line], [countInliers2D], [filterInliers2D], [updateHyp2D],
    [estimateCenter], [optEnergy], [poseWithOpt] and
    [compute_target_weight].

    Conventions of the embedding.
    - C [int] values are [Z]; no overflow is modelled (image sizes and
      counters are far below 2^31).
    - [float] and [double] values are rationals [Q].  Arithmetic on them
      is exact, with two exceptions, where the effect of the machine
      format is not a small error but another branch or another cell:
      the index that [getMode2D] computes in [float] is rounded as
      binary32 rounds ([round_float]), and a quotient whose divisor is
      zero is no number and compares false ([point2line], [float_lt]).
      [int_of_float] is the C conversion (truncation toward zero).
    - A [size()] compared with an [int] converts the [int] to [size_t],
      taken to have 64 bits ([size_t_of_int]), where the source does so
      with an [int] that can be negative ([getLabels]).
    - [std::vector] is [list]; raw [float*] buffers are [list Q] addressed
      with [Z] offsets.  An access outside a buffer is undefined behaviour
      in C++; here a read gives 0 and a write does nothing.
    - [std::map<jp::id_t, std::vector<TransHyp>>] is a [gmap Z (list
      TransHyp)]; a [TransHyp*] into it is a pair (object id, position).
      A [std::map] is traversed by ascending key: the loops over the
      registry run over [hypMap_entries], its entries sorted by key.
    - [#pragma omp parallel for] loops are run in index order.
    - Code of the repository that [hough_voting_op.cc] only includes
      (Hypothesis.h, detection.h, util.h, types.h) and the libraries it
      calls (NLopt, OpenCV, Eigen, <random>) enter as section variables. *)

From Stdlib Require Import ZArith QArith Qabs Qminmax Qround.
From stdpp Require Import gmap list fin_maps sorting.

Local Open Scope Z_scope.

(** ** Numbers and buffers *)

(** [int(x)] for a [float] x. *)
Definition int_of_float (q : Q) : Z := Z.quot (Qnum q) (Z.pos (Qden q)).

(** An [int] used where a [float] is expected. *)
Definition float_of_int (z : Z) : Q := inject_Z z.

(** [a / b] for [b > 0], rounded to the nearest integer, a tie to the
    even one. *)
Definition round_half_even (a b : Z) : Z :=
  let f := a `div` b in
  let r := a `mod` b in
  match 2 * r ?= b with
  | Lt => f
  | Gt => f + 1
  | Eq => if Z.even f then f else f + 1
  end.

(** The binary exponent of [q], which is not zero: the [e] with
    [2^e <= |q| < 2^(e+1)]. *)
Definition binary_exponent (q : Q) : Z :=
  let n := Z.abs (Qnum q) in
  let d := Z.pos (Qden q) in
  let e := Z.log2 n - Z.log2 d in
  if decide (0 ≤ e) then (if decide (2 ^ e * d ≤ n) then e else e - 1)
  else (if decide (d ≤ 2 ^ (- e) * n) then e else e - 1).

(** The value of a [float] operation whose exact result is [q]: [q]
    rounded to IEEE binary32, that is, to 24 significant bits (a multiple
    of [2^(e - 23)] for the exponent [e] of [q], and of [2^-149] below
    the normal range), to nearest, ties to even; the result is in lowest
    terms.  Overflow to infinity, from [2^128] on, is not modelled. *)
Definition round_float (q : Q) : Q :=
  if decide (Qnum q = 0) then 0%Q
  else
    let k := Z.max (binary_exponent q) (-126) - 23 in
    if decide (0 ≤ k) then
      inject_Z (round_half_even (Qnum q) (Z.pos (Qden q) * 2 ^ k) * 2 ^ k)
    else
      Qred (Qmake (round_half_even (Qnum q * 2 ^ (- k)) (Z.pos (Qden q)))
                  (Z.to_pos (2 ^ (- k)))).

(** [a < b] for a [float] [a] that may be no number, [None], which is
    what a division by zero leaves (NaN for 0/0, infinity otherwise): a
    comparison with it is false. *)
Definition float_lt (a : option Q) (b : Q) : bool :=
  match a with
  | Some a => if Qlt_le_dec a b then true else false
  | None => false
  end.

(** An [int] converted to [size_t], as in the comparison of a [size()]
    with an [int]. *)
Definition size_t_of_int (z : Z) : Z := z `mod` 2 ^ 64.

(** [a[i]] for a vector or buffer, [None] outside of it. *)
Definition zlookup {A} (l : list A) (i : Z) : option A :=
  if decide (0 ≤ i) then l !! Z.to_nat i else None.

(** [a[i] = v]. *)
Definition zinsert {A} (i : Z) (v : A) (l : list A) : list A :=
  if decide (0 ≤ i) then <[Z.to_nat i := v]> l else l.

(** [a[i]] for a [float] buffer. *)
Definition rdf (a : list Q) (i : Z) : Q := default 0%Q (zlookup a i).

(** [a[i]] for an [int] buffer. *)
Definition rdi (a : list Z) (i : Z) : Z := default 0 (zlookup a i).

(** [v.size()]. *)
Definition zlength {A} (l : list A) : Z := Z.of_nat (length l).

(** ** Data *)

(** [cv::Point2f] and [cv::Point2d]. *)
Record Point2 := mkPoint2 { pt_x : Q; pt_y : Q }.

(** [std::pair<cv::Point2d, cv::Point2d>]: object coordinate, then pixel. *)
Definition corr : Type := Point2 * Point2.

(** [TransHyp], with the members that [hough_voting_op.cc] reads and
    writes. *)
Record TransHyp := mkTransHyp {
  objID : Z;
  center : Point2;
  inlierPts2D : list corr;
  inliers : Z;
  maxPixels : Z;
  effPixels : Z;
  refSteps : Z;
  width_ : Q;
  height_ : Q
}.

(** Modelled from the spec: the constructor [TransHyp(objID, center)] of
    Hypothesis.h, which is not part of the sources at hand.  A new
    hypothesis has no inliers, an empty pixel budget and a refinement-step
    counter of zero. *)
Definition TransHyp_new (id : Z) (c : Point2) : TransHyp :=
  mkTransHyp id c [] 0 0 0 0 0%Q 0%Q.

Definition set_center (c : Point2) (h : TransHyp) : TransHyp :=
  mkTransHyp (objID h) c (inlierPts2D h) (inliers h) (maxPixels h)
             (effPixels h) (refSteps h) (width_ h) (height_ h).

Definition set_inlierPts2D (l : list corr) (h : TransHyp) : TransHyp :=
  mkTransHyp (objID h) (center h) l (inliers h) (maxPixels h)
             (effPixels h) (refSteps h) (width_ h) (height_ h).

Definition set_inliers (n : Z) (h : TransHyp) : TransHyp :=
  mkTransHyp (objID h) (center h) (inlierPts2D h) n (maxPixels h)
             (effPixels h) (refSteps h) (width_ h) (height_ h).

Definition set_maxPixels (n : Z) (h : TransHyp) : TransHyp :=
  mkTransHyp (objID h) (center h) (inlierPts2D h) (inliers h) n
             (effPixels h) (refSteps h) (width_ h) (height_ h).

Definition set_effPixels (n : Z) (h : TransHyp) : TransHyp :=
  mkTransHyp (objID h) (center h) (inlierPts2D h) (inliers h) (maxPixels h)
             n (refSteps h) (width_ h) (height_ h).

Definition set_refSteps (n : Z) (h : TransHyp) : TransHyp :=
  mkTransHyp (objID h) (center h) (inlierPts2D h) (inliers h) (maxPixels h)
             (effPixels h) n (width_ h) (height_ h).

Definition set_width_height (w hh : Q) (h : TransHyp) : TransHyp :=
  mkTransHyp (objID h) (center h) (inlierPts2D h) (inliers h) (maxPixels h)
             (effPixels h) (refSteps h) w hh.

(** ** [getLabels] *)

(** The pixels in the order of the two nested loops: [x] outside, [y]
    inside, each giving the flat index [y * width + x]. *)
Definition pixel_scan (width height : Z) : list Z :=
  x ← seqZ 0 width; (λ y, y * width + x) <$> seqZ 0 height.

(** [labels[label].push_back(idx)].  A label outside of
    [0, num_classes) indexes outside of [labels], which is undefined
    behaviour in C++; here nothing is pushed. *)
Definition push_back_at (labels : list (list Z)) (label idx : Z) : list (list Z) :=
  if decide (0 ≤ label) then alter (λ b, b ++ [idx]) (Z.to_nat label) labels
  else labels.

Definition getLabels (label_map : list Z) (width height num_classes minArea : Z)
  : list (list Z) * list Z :=
  let labels0 := replicate (Z.to_nat num_classes) [] in
  let labels :=
    foldl (λ labels idx, push_back_at labels (rdi label_map idx) idx)
          labels0 (pixel_scan width height) in
  let object_ids :=
    filter (λ i, size_t_of_int minArea < zlength (default [] (zlookup labels i)))
           (seqZ 1 (num_classes - 1)) in
  (labels, object_ids).

(** The number of pixels of the scanned image that carry label [c]. *)
Definition pixel_count (label_map : list Z) (width height c : Z) : Z :=
  zlength (filter (λ idx, rdi label_map idx = c) (pixel_scan width height)).

(** ** [getProbs] and [getCenters] *)

(** [jp::img_stat_t] and [jp::img_center_t]: an image is the list of its
    rows; [img(y, x)] is entry [x] of row [y].  The loops assign every
    cell once, so the order in which they run does not show. *)
Definition getProbs (probability : list Q) (width height num_classes : Z)
  : list (list (list Q)) :=
  (λ i, (λ y, (λ x, let offset := i + num_classes * (y * width + x) in
                    rdf probability offset)
                <$> seqZ 0 width)
          <$> seqZ 0 height)
    <$> seqZ 1 (num_classes - 1).

Definition getCenters (vertmap : list Q) (width height num_classes : Z)
  : list (list (list Point2)) :=
  (λ i, (λ y, (λ x, let channel := 2 * i in
                    let offset := channel + 2 * num_classes * (y * width + x) in
                    mkPoint2 (rdf vertmap offset) (rdf vertmap (offset + 1)))
                <$> seqZ 0 width)
          <$> seqZ 0 height)
    <$> seqZ 1 (num_classes - 1).

(** [img(y, x)] of image [i] of such a list. *)
Definition img_at {A} (imgs : list (list (list A))) (i y x : Z) : option A :=
  zlookup imgs i ≫= (λ img, zlookup img y ≫= (λ row, zlookup row x)).

(** ** The hypothesis registry *)

Abbreviation hypMap_t := (gmap Z (list TransHyp)).

(** A [TransHyp*] into the registry: [&(hypMap[k][h])]. *)
Definition hyp_ptr : Type := Z * nat.

(** Reading through a pointer [p] into the registry. *)
Definition deref (hm : hypMap_t) (p : hyp_ptr) : option TransHyp :=
  hm !! p.1 ≫= (λ b, b !! p.2).

(** Updating in place the hypothesis that [p] points to. *)
Definition store (f : TransHyp → TransHyp) (p : hyp_ptr) (hm : hypMap_t) : hypMap_t :=
  alter (alter f p.2) p.1 hm.

(** The positions [h] of one bucket that enter the working queue. *)
Definition queue_of_bucket (maxIt : Z) (k : Z) (b : list TransHyp) : list hyp_ptr :=
  omap (λ h, x ← b !! h;
             if decide (1 < zlength b ∨ refSteps x < maxIt) then Some (k, h) else None)
       (seq 0 (length b)).

(** The order of the keys of a [std::map<jp::id_t, ...>], on its
    entries. *)
Definition key_le (a b : Z * list TransHyp) : Prop := a.1 ≤ b.1.

#[global] Instance key_le_dec : RelDecision key_le.
Proof. intros a b. unfold key_le. apply _. Defined.

(** The entries of the registry in the order in which the source
    traverses a [std::map]: by ascending key. *)
Definition hypMap_entries (hm : hypMap_t) : list (Z * list TransHyp) :=
  merge_sort key_le (map_to_list hm).

Definition getWorkingQueue (hm : hypMap_t) (maxIt : Z) : list hyp_ptr :=
  '(k, b) ← hypMap_entries hm; queue_of_bucket maxIt k b.

(** [cv::Point3f] and [cv::Vec<float, 3>]. *)
Definition Point3 : Type := Q * Q * Q.

(** [cv::Rect], a rectangle with [int] members. *)
Record Rect := mkRect { rect_x : Z; rect_y : Z; rect_width : Z; rect_height : Z }.

#[global] Instance Rect_eq_dec : EqDecision Rect.
Proof. solve_decision. Defined.

(** [jp::cv_trans_t]: a rotation vector and a translation vector. *)
Definition cv_trans_t : Type := list Q * list Q.

(** [struct DataForOpt]. *)
Record DataForOpt := mkDataForOpt {
  imageWidth : Z;
  imageHeight : Z;
  rx : Q;
  ry : Q;
  bb2D : Rect;
  bb3D : list Point3;
  camMat : list Q
}.

(** What the code sets on its [nlopt::opt] object before it calls
    [optimize]. *)
Inductive nlopt_algorithm := LN_NELDERMEAD.

Record nlopt_opt := mkNloptOpt {
  opt_algorithm : nlopt_algorithm;
  opt_dim : Z;
  opt_lower_bounds : list Q;
  opt_upper_bounds : list Q;
  opt_min_objective : list Q → Q;
  opt_maxeval : Z
}.

(** [cv::Vec<float, 13>]: batch, class, x1, y1, x2, y2, then the
    quaternion (w, x, y, z) and the translation (x, y, z). *)
Definition roi_t : Type := list Q.

(** ** Geometry *)

(** [int offset = channel + 2 * num_classes * (pt.y * width + pt.x)] of
    [getMode2D].  [pt] is a [cv::Point2f], so the right-hand side is
    evaluated in [float]: the [int] operands are converted, every
    operation rounds, and the result is truncated.  The coordinates of
    [pt] are rounded as well, which is what the conversion of a
    [cv::Point2d] or of [int] coordinates to [cv::Point2f] at the call
    does. *)
Definition getMode2D_offset (objID : Z) (pt : Point2) (width num_classes : Z) : Z :=
  let channel := 2 * objID in
  let x := round_float (pt_x pt) in
  let y := round_float (pt_y pt) in
  let row := round_float (y * round_float (float_of_int width)) in
  let pixel := round_float (row + x) in
  let skipped := round_float (round_float (float_of_int (2 * num_classes)) * pixel) in
  int_of_float (round_float (round_float (float_of_int channel) + skipped)).

Definition getMode2D (objID : Z) (pt : Point2) (vertmap : list Q) (width num_classes : Z)
  : Point2 :=
  let offset := getMode2D_offset objID pt width num_classes in
  mkPoint2 (rdf vertmap offset) (rdf vertmap (offset + 1)).

Definition samplePoint2D (objID : Z) (eyePts objPts : list Point2) (pt2D : Point2)
    (vertmap : list Q) (width num_classes : Z) : bool * list Point2 * list Point2 :=
  let obj := getMode2D objID pt2D vertmap width num_classes in
  (true, eyePts ++ [pt2D], objPts ++ [obj]).

(** ** [compute_target_weight] *)

(** The search for the ground-truth record of a detection: the first [j]
    of [js] whose record has the batch and class of the detection, [-1]
    when there is none. *)
Fixpoint find_gt (poses_gt : list Q) (batch_id class_id : Z) (js : list Z) : Z :=
  match js with
  | [] => -1
  | j :: js' =>
    let gt_batch := int_of_float (rdf poses_gt (j * 13 + 0)) in
    let gt_id := int_of_float (rdf poses_gt (j * 13 + 1)) in
    if decide (class_id = gt_id ∧ batch_id = gt_batch) then j
    else find_gt poses_gt batch_id class_id js'
  end.

(** The body of the loop over the detections, for detection [i]. *)
Definition target_weight_row (poses_gt : list Q) (num_gt num_classes : Z) (i : Z)
    (roi : roi_t) (tw : list Q * list Q) : list Q * list Q :=
  let '(target, weight) := tw in
  let batch_id := int_of_float (rdf roi 0) in
  let class_id := int_of_float (rdf roi 1) in
  let gt_ind := find_gt poses_gt batch_id class_id (seqZ 0 num_gt) in
  if decide (gt_ind = -1) then (target, weight)
  else
    let target := zinsert (i * 4 * num_classes + 4 * class_id + 0)
                          (rdf poses_gt (gt_ind * 13 + 6)) target in
    let target := zinsert (i * 4 * num_classes + 4 * class_id + 1)
                          (rdf poses_gt (gt_ind * 13 + 7)) target in
    let target := zinsert (i * 4 * num_classes + 4 * class_id + 2)
                          (rdf poses_gt (gt_ind * 13 + 8)) target in
    let target := zinsert (i * 4 * num_classes + 4 * class_id + 3)
                          (rdf poses_gt (gt_ind * 13 + 9)) target in
    let weight := zinsert (i * 4 * num_classes + 4 * class_id + 0) 1%Q weight in
    let weight := zinsert (i * 4 * num_classes + 4 * class_id + 1) 1%Q weight in
    let weight := zinsert (i * 4 * num_classes + 4 * class_id + 2) 1%Q weight in
    let weight := zinsert (i * 4 * num_classes + 4 * class_id + 3) 1%Q weight in
    (target, weight).

(** [for (int i = 0; i < num; i++)], entered at detection [i]. *)
Fixpoint compute_target_weight_from (poses_gt : list Q) (num_gt num_classes : Z)
    (i : Z) (outputs : list roi_t) (tw : list Q * list Q) : list Q * list Q :=
  match outputs with
  | [] => tw
  | roi :: outputs' =>
    compute_target_weight_from poses_gt num_gt num_classes (i + 1) outputs'
      (target_weight_row poses_gt num_gt num_classes i roi tw)
  end.

Definition compute_target_weight (target weight poses_gt : list Q)
    (num_gt num_classes : Z) (outputs : list roi_t) : list Q * list Q :=
  compute_target_weight_from poses_gt num_gt num_classes 0 outputs (target, weight).

(** The four output tensors that [HoughvotingOp::Compute] fills from the
    detections: boxes, poses, and the zero-initialised targets and weights
    after [compute_target_weight]. *)
Definition Compute_outputs (gt : list Q) (num_gt num_classes : Z) (outputs : list roi_t)
  : list Q * list Q * list Q * list Q :=
  let top_box := roi ← outputs; (λ i, rdf roi i) <$> seqZ 0 6 in
  let top_pose := roi ← outputs; (λ i, rdf roi (6 + i)) <$> seqZ 0 7 in
  let top_target := replicate (Z.to_nat (zlength outputs * 4 * num_classes)) 0%Q in
  let top_weight := replicate (Z.to_nat (zlength outputs * 4 * num_classes)) 0%Q in
  let '(top_target, top_weight) :=
    compute_target_weight top_target top_weight gt num_gt num_classes outputs in
  (top_box, top_pose, top_target, top_weight).

Section HoughVoting.

(** [sqrt] of <math.h>. *)
Variable sqrtf : Q → Q.

(** [std::mt19937] with its default-constructed state, and one draw of
    [std::negative_binomial_distribution<int>(k, p)]. *)
Context {mt19937 : Type}.
Variable mt19937_default : mt19937.
Variable negative_binomial : Z → Q → mt19937 → Z * mt19937.

(** The generator behind [irand(min, max)] of util.h, which draws an
    integer [n] with [min <= n < max]. *)
Context {rng : Type}.
Variable irand : Z → Z → rng → Z * rng.

(** [Hypothesis(center).calcCenter(pts); getCenter()] of Hypothesis.h. *)
Variable calcCenter : Point2 → list corr → Point2.

(** The quotient is no number, [None], when the divisor is zero. *)
Definition point2line (x n p : Point2) : option Q :=
  let n1 := (- pt_y n)%Q in
  let n2 := pt_x n in
  let p1 := pt_x p in
  let p2 := pt_y p in
  let x1 := pt_x x in
  let x2 := pt_y x in
  let len := sqrtf (n1 * n1 + n2 * n2)%Q in
  if Qeq_bool len 0 then None
  else Some (Qabs (n1 * (x1 - p1) + n2 * (x2 - p2)) / len)%Q.

Section CountInliers.
Variables (vertmap : list Q) (labels : list (list Z)) (inlierThreshold : Q)
          (width num_classes : Z).

(** The body of the [for] loop of [countInliers2D]; [fuel] bounds the
    number of iterations, each of which advances [ptIdx] by at least
    one. *)
Fixpoint countInliers2D_loop (fuel : nat) (pts : list Z) (maxPt : Z)
    (successRate : Q) (ptIdx : Z) (generator : mt19937) (hyp : TransHyp)
  : TransHyp :=
  match fuel with
  | O => hyp
  | S fuel' =>
    if decide (ptIdx < maxPt) then
      let index := rdi pts ptIdx in
      let pt2D := mkPoint2 (float_of_int (Z.rem index width))
                           (float_of_int (Z.quot index width)) in
      let hyp := set_effPixels (effPixels hyp + 1) hyp in
      let obj := getMode2D (objID hyp) pt2D vertmap width num_classes in
      let hyp :=
        if float_lt (point2line (center hyp) obj pt2D) inlierThreshold
        then set_inliers (inliers hyp + 1)
               (set_inlierPts2D (inlierPts2D hyp ++ [(obj, pt2D)]) hyp)
        else hyp in
      if Qlt_le_dec successRate 1 then
        let '(d, generator) := negative_binomial 1 successRate generator in
        countInliers2D_loop fuel' pts maxPt successRate
                            (ptIdx + Z.max 1 d) generator hyp
      else
        countInliers2D_loop fuel' pts maxPt successRate (ptIdx + 1) generator hyp
    else hyp
  end.

Definition countInliers2D (pixelBatch : Z) (hyp : TransHyp) : TransHyp :=
  let hyp := set_inlierPts2D [] hyp in
  let hyp := set_inliers 0 hyp in
  let hyp := set_effPixels 0 hyp in
  let hyp := set_maxPixels (maxPixels hyp + pixelBatch) hyp in
  let pts := default [] (zlookup labels (objID hyp)) in
  let maxPt := zlength pts in
  let successRate := (float_of_int (maxPixels hyp) / float_of_int maxPt)%Q in
  countInliers2D_loop (Z.to_nat maxPt) pts maxPt successRate 0 mt19937_default hyp.
End CountInliers.

(** The [for] loop of [filterInliers2D]: [n] draws with replacement. *)
Fixpoint filterInliers2D_loop (n : nat) (src inlierPts : list corr) (s : rng)
  : list corr * rng :=
  match n with
  | O => (inlierPts, s)
  | S n' =>
    let '(idx, s) := irand 0 (zlength src) s in
    let inlierPts := match zlookup src idx with
                     | Some c => inlierPts ++ [c]
                     | None => inlierPts
                     end in
    filterInliers2D_loop n' src inlierPts s
  end.

Definition filterInliers2D (maxInliers : Z) (hyp : TransHyp) (s : rng) : TransHyp * rng :=
  if decide (zlength (inlierPts2D hyp) < maxInliers) then (hyp, s)
  else
    let '(inlierPts, s) :=
      filterInliers2D_loop (Z.to_nat maxInliers) (inlierPts2D hyp) [] s in
    (set_inlierPts2D inlierPts hyp, s).

Definition updateHyp2D (maxPixels : Z) (hyp : TransHyp) (s : rng) : TransHyp * rng :=
  if decide (zlength (inlierPts2D hyp) < 4) then (hyp, s)
  else
    let '(hyp, s) := filterInliers2D maxPixels hyp s in
    (set_center (calcCenter (center hyp) (inlierPts2D hyp)) hyp, s).


(** *** The culling step *)

(** [std::sort(begin, end)] on a vector of [TransHyp], which orders by
    [TransHyp::operator<]. *)
Variable sort : list TransHyp → list TransHyp.

(** [std::sort(...); erase(begin() + size() / 2, end())], guarded by
    [size() > 1], on the bucket [hypMap[objID]]. *)
Definition cull_bucket (b : list TransHyp) : list TransHyp :=
  if decide (1 < zlength b) then
    let sorted := sort b in
    take (length sorted `div` 2)%nat sorted
  else b.

(** The loop over [objList]; its elements are the keys of the registry,
    so [hypMap[objID]] never creates an entry. *)
Definition cull_phase (objList : list Z) (hm : hypMap_t) : hypMap_t :=
  foldl (λ hm objID, alter cull_bucket objID hm) hm objList.

(** *** Loops over the working queue *)

(** One iteration of a loop over the working queue whose body updates
    the hypothesis that [workingQueue[h]] points to and may advance a
    generator state. *)
Definition with_ptr {S : Type} (f : TransHyp → S → TransHyp * S) (p : hyp_ptr)
    (st : hypMap_t * S) : hypMap_t * S :=
  match deref st.1 p with
  | Some hyp => let '(hyp', s') := f hyp st.2 in (store (λ _, hyp') p st.1, s')
  | None => st
  end.

Definition for_queue {S : Type} (f : TransHyp → S → TransHyp * S)
    (workingQueue : list hyp_ptr) (st : hypMap_t * S) : hypMap_t * S :=
  foldl (λ st p, with_ptr f p st) st workingQueue.

(** The constants of [estimateCenter]. *)
Definition maxIterations : positive := 10000000.
Definition minArea : Q := 400.
Definition inlierThreshold3D : Q := 0.5.
Definition ransacIterations : Z := 256.
Definition poseIterations : Z := 100.
Definition maxPixels_const : Z := 1000. (* [maxPixels]; the name is a member of [TransHyp] *)
Definition refIt : Z := 8.

Section Pass.
Variables (vertmap : list Q) (labels : list (list Z)) (width num_classes : Z)
          (preemptiveBatch : Z).

Definition count_phase (workingQueue : list hyp_ptr) (hm : hypMap_t) : hypMap_t :=
  (for_queue (λ hyp (_ : unit),
                (countInliers2D vertmap labels inlierThreshold3D width num_classes
                                preemptiveBatch hyp, tt))
             workingQueue (hm, tt)).1.

(** The body of the refinement loop: [updateHyp2D] on the hypothesis
    that [workingQueue[h]] points to, then [workingQueue[h]->refSteps++]. *)
Definition refine_body (hyp : TransHyp) (s : rng) : TransHyp * rng :=
  let '(hyp, s) := updateHyp2D maxPixels_const hyp s in
  (set_refSteps (refSteps hyp + 1) hyp, s).

Definition refine_phase (workingQueue : list hyp_ptr) (st : hypMap_t * rng)
  : hypMap_t * rng :=
  for_queue refine_body workingQueue st.

(** The body of the [while] loop, entered with the working queue of
    the registry. *)
Definition ransac_pass (objList : list Z) (workingQueue : list hyp_ptr)
    (st : hypMap_t * rng) : hypMap_t * rng :=
  let hm := count_phase workingQueue st.1 in
  let hm := cull_phase objList hm in
  let workingQueue := getWorkingQueue hm refIt in
  refine_phase workingQueue (hm, st.2).

(** [while(!workingQueue.empty()) { ... }]: [None] when [fuel]
    iterations did not empty the queue. *)
Fixpoint ransac_loop (fuel : nat) (objList : list Z) (st : hypMap_t * rng)
  : option (hypMap_t * rng) :=
  match getWorkingQueue st.1 refIt with
  | [] => Some st
  | workingQueue =>
    match fuel with
    | O => None
    | S fuel' => ransac_loop fuel' objList (ransac_pass objList workingQueue st)
    end
  end.
End Pass.

(** *** Sampling the initial hypotheses *)

(** The conversion of an [int] to [jp::id_t] of types.h. *)
Variable to_id_t : Z → Z.

(** [Hypothesis(pts2D).getCenter()] of Hypothesis.h. *)
Variable hyp_center : list corr → Point2.

(** [hypMap[objID].push_back(hyp)]. *)
Definition hypMap_push_back (hyp : TransHyp) (hm : hypMap_t) : hypMap_t :=
  <[objID hyp := default [] (hm !! objID hyp) ++ [hyp]]> hm.

Section Sampling.
Variables (vertmap : list Q) (labels : list (list Z)) (object_ids : list Z)
          (width num_classes : Z).

(** The class that one sampling attempt draws. *)
Definition draw_objID (s : rng) : Z * rng :=
  let '(r, s) := irand 0 (zlength object_ids) s in (to_id_t (rdi object_ids r), s).

(** One execution of the body of the inner sampling loop: [None] stands
    for [continue], [Some hyp] for reaching [break] with [hyp]. *)
Definition sample_attempt (s : rng) : option TransHyp * rng :=
  let eyePts : list Point2 := [] in
  let objPts : list Point2 := [] in
  let '(objID, s) := draw_objID s in
  if decide (objID = 0) then (None, s)
  else
    let pts := default [] (zlookup labels objID) in
    let '(pindex, s) := irand 0 (zlength pts) s in
    let index := rdi pts pindex in
    let pt1 := mkPoint2 (float_of_int (Z.rem index width))
                        (float_of_int (Z.quot index width)) in
    let '(ok, eyePts, objPts) :=
      samplePoint2D objID eyePts objPts pt1 vertmap width num_classes in
    if negb ok then (None, s)
    else
      let '(pindex, s) := irand 0 (zlength pts) s in
      let index := rdi pts pindex in
      let pt2 := mkPoint2 (float_of_int (Z.rem index width))
                          (float_of_int (Z.quot index width)) in
      let '(ok, eyePts, objPts) :=
        samplePoint2D objID eyePts objPts pt2 vertmap width num_classes in
      if negb ok then (None, s)
      else
        let pts2D := zip objPts eyePts in
        let center := hyp_center pts2D in
        (Some (TransHyp_new objID center), s).

(** [for(i = 0; i < budget; i++) { ...; break; }]: at most [budget]
    attempts, stopping at the first that reaches [break].  The
    recursion follows the binary digits of [budget]. *)
Fixpoint sample_slot (budget : positive) (s : rng) : option TransHyp * rng :=
  match budget with
  | xH => sample_attempt s
  | xO p =>
    match sample_slot p s with
    | (Some hyp, s) => (Some hyp, s)
    | (None, s) => sample_slot p s
    end
  | xI p =>
    match sample_attempt s with
    | (Some hyp, s) => (Some hyp, s)
    | (None, s) =>
      match sample_slot p s with
      | (Some hyp, s) => (Some hyp, s)
      | (None, s) => sample_slot p s
      end
    end
  end.

(** [for(h = 0; h < ransacIterations; h++)]. *)
Fixpoint sample_hyps (slots : nat) (st : hypMap_t * rng) : hypMap_t * rng :=
  match slots with
  | O => st
  | S slots' =>
    let '(r, s) := sample_slot maxIterations st.2 in
    let hm := match r with
              | Some hyp => hypMap_push_back hyp st.1
              | None => st.1
              end in
    sample_hyps slots' (hm, s)
  end.
End Sampling.

(** *** Pose optimisation *)

(** [PI] of types.h. *)
Variable PI : Q.

(** detection.h: the corners of the box of an extent, the 2D box of a
    projected 3D box, and the intersection over union of two boxes. *)
Variable getBB3D : Point3 → list Point3.
Variable getBB2D : Z → Z → list Point3 → list Q → cv_trans_t → Rect.
Variable getIoU : Rect → Rect → Q.

(** [jp::cv2our] followed by [cv::transpose] and the conversion to an
    [Eigen::Quaterniond]: the quaternion (w, x, y, z) and the translation. *)
Variable pose_quaternion : cv_trans_t → (Q * Q * Q * Q) * Point3.

(** [opt.optimize(vec, energy)] of NLopt: the new [vec] and [energy]. *)
Variable nlopt_optimize : nlopt_opt → list Q → list Q * Q.

(** [rvec] and [tvec] filled from a 6-vector. *)
Definition trans_of_vec (vec : list Q) : cv_trans_t :=
  ([rdf vec 0; rdf vec 1; rdf vec 2], [rdf vec 3; rdf vec 4; rdf vec 5]).

Definition optEnergy (pose : list Q) (data : DataForOpt) : Q :=
  let trans := trans_of_vec pose in
  let bb2D' := getBB2D (imageWidth data) (imageHeight data) (bb3D data)
                       (camMat data) trans in
  (-1 * getIoU bb2D' (bb2D data))%Q.

(** The [nlopt::opt] object as [poseWithOpt] configures it. *)
Definition poseWithOpt_opt (vec : list Q) (data : DataForOpt) (iterations : Z)
  : nlopt_opt :=
  let rotRange := 180%Q in
  let rotRange := (rotRange * (PI / 180))%Q in
  let tRangeXY := 0.1%Q in
  let tRangeZ := 0.5%Q in
  let lb := [rdf vec 0 - rotRange; rdf vec 1 - rotRange; rdf vec 2 - rotRange;
             rdf vec 3 - tRangeXY; rdf vec 4 - tRangeXY; rdf vec 5 - tRangeZ]%Q in
  let ub := [rdf vec 0 + rotRange; rdf vec 1 + rotRange; rdf vec 2 + rotRange;
             rdf vec 3 + tRangeXY; rdf vec 4 + tRangeXY; rdf vec 5 + tRangeZ]%Q in
  mkNloptOpt LN_NELDERMEAD 6 lb ub (λ pose, optEnergy pose data) iterations.

(** [poseWithOpt] returns the energy and leaves the pose in [vec]. *)
Definition poseWithOpt (vec : list Q) (data : DataForOpt) (iterations : Z)
  : list Q * Q :=
  nlopt_optimize (poseWithOpt_opt vec data iterations) vec.

(** *** Assembling the detections *)

(** [TransHyp::compute_width_height] of Hypothesis.h: the [width_] and
    [height_] it stores. *)
Variable compute_width_height : TransHyp → Q * Q.

Definition getBb3Ds (extents : list Q) (num_classes : Z) : list (list Point3) :=
  (λ i, getBB3D (rdf extents (i * 3), rdf extents (i * 3 + 1), rdf extents (i * 3 + 2)))
    <$> seqZ 1 (num_classes - 1).

(** From [outputs.push_back(roi)] of the primary detection to the push of
    the fourth jittered one. *)
Definition jitter_rois (roi : roi_t) (outputs : list roi_t) : list roi_t :=
  let outputs := outputs ++ [roi] in
  let x1 := rdf roi 2 in
  let y1 := rdf roi 3 in
  let x2 := rdf roi 4 in
  let y2 := rdf roi 5 in
  let w := (x2 - x1)%Q in
  let h := (y2 - y1)%Q in

  let roi := <[2%nat := (x1 - 0.05 * w)%Q]> roi in
  let roi := <[3%nat := (y1 - 0.05 * h)%Q]> roi in
  let roi := <[4%nat := (rdf roi 2 + w)%Q]> roi in
  let roi := <[4%nat := (rdf roi 3 + h)%Q]> roi in
  let outputs := outputs ++ [roi] in

  let roi := <[2%nat := (x1 + 0.05 * w)%Q]> roi in
  let roi := <[3%nat := (y1 - 0.05 * h)%Q]> roi in
  let roi := <[4%nat := (rdf roi 2 + w)%Q]> roi in
  let roi := <[4%nat := (rdf roi 3 + h)%Q]> roi in
  let outputs := outputs ++ [roi] in

  let roi := <[2%nat := (x1 - 0.05 * w)%Q]> roi in
  let roi := <[3%nat := (y1 + 0.05 * h)%Q]> roi in
  let roi := <[4%nat := (rdf roi 2 + w)%Q]> roi in
  let roi := <[4%nat := (rdf roi 3 + h)%Q]> roi in
  let outputs := outputs ++ [roi] in

  let roi := <[2%nat := (x1 + 0.05 * w)%Q]> roi in
  let roi := <[3%nat := (y1 + 0.05 * h)%Q]> roi in
  let roi := <[4%nat := (rdf roi 2 + w)%Q]> roi in
  let roi := <[4%nat := (rdf roi 3 + h)%Q]> roi in
  outputs ++ [roi].

Section Finalize.
Variables (batch height width : Z) (fx fy px py : Q)
          (bb3Ds : list (list Point3)) (camMat : list Q).

(** The box around the centre of the hypothesis, clipped to the image. *)
Definition center_roi (hyp : TransHyp) : roi_t :=
  let center := center hyp in
  let '(w, h) := compute_width_height hyp in
  let hyp := set_width_height w h hyp in
  let roi : roi_t := replicate 13 0%Q in
  let roi := <[0%nat := float_of_int batch]> roi in
  let roi := <[1%nat := float_of_int (objID hyp)]> roi in
  let roi := <[2%nat := Qmax (pt_x center - width_ hyp / 2) 0]> roi in
  let roi := <[3%nat := Qmax (pt_y center - height_ hyp / 2) 0]> roi in
  let roi := <[4%nat := Qmin (pt_x center + width_ hyp / 2) (float_of_int width)]> roi in
  let roi := <[5%nat := Qmin (pt_y center + height_ hyp / 2) (float_of_int height)]> roi in
  roi.

(** The initial pose [vec] and the [DataForOpt] that go to
    [poseWithOpt]. *)
Definition pose_start (roi : roi_t) : list Q * DataForOpt :=
  let bb2D := mkRect (int_of_float (rdf roi 2)) (int_of_float (rdf roi 3))
                     (int_of_float (rdf roi 4 - rdf roi 2))
                     (int_of_float (rdf roi 5 - rdf roi 3)) in
  let cx := ((rdf roi 2 + rdf roi 4) / 2)%Q in
  let cy := ((rdf roi 3 + rdf roi 5) / 2)%Q in
  let rx_ := ((cx - px) / fx)%Q in
  let ry_ := ((cy - py) / fy)%Q in
  let objID := int_of_float (rdf roi 1) in
  let bb3D := default [] (zlookup bb3Ds (objID - 1)) in
  let data := mkDataForOpt width height rx_ ry_ bb2D bb3D camMat in
  let vec := [0; 0; 0; rx data; ry data; 1]%Q in
  (vec, data).

(** The body of the last loop of [estimateCenter] for one hypothesis. *)
Definition finalize_hyp (hyp : TransHyp) (outputs : list roi_t) : list roi_t :=
  let roi := center_roi hyp in
  let '(vec, data) := pose_start roi in
  let '(vec, _) := poseWithOpt vec data poseIterations in
  let trans := trans_of_vec vec in
  let '(quaternion, t) := pose_quaternion trans in
  let bb2D_proj := getBB2D width height (bb3D data) camMat trans in
  let bx := float_of_int (rect_x bb2D_proj) in
  let by_ := float_of_int (rect_y bb2D_proj) in
  let bw := float_of_int (rect_width bb2D_proj) in
  let bh := float_of_int (rect_height bb2D_proj) in
  let roi := <[2%nat := (bx - 0.1 * bw)%Q]> roi in
  let roi := <[3%nat := (by_ - 0.1 * bh)%Q]> roi in
  let roi := <[4%nat := (bx + 1.1 * bw)%Q]> roi in
  let roi := <[5%nat := (by_ + 1.1 * bh)%Q]> roi in
  let '(qw, qx, qy, qz) := quaternion in
  let '(tx, ty, tz) := t in
  let roi := <[6%nat := qw]> roi in
  let roi := <[7%nat := qx]> roi in
  let roi := <[8%nat := qy]> roi in
  let roi := <[9%nat := qz]> roi in
  let roi := <[10%nat := tx]> roi in
  let roi := <[11%nat := ty]> roi in
  let roi := <[12%nat := tz]> roi in
  jitter_rois roi outputs.

(** The last loop of [estimateCenter], over the registry and over each
    of its buckets. *)
Definition finalize (hm : hypMap_t) (outputs : list roi_t) : list roi_t :=
  foldl (λ outputs hyp, finalize_hyp hyp outputs) outputs
        ('(_, b) ← hypMap_entries hm; b).
End Finalize.

(** *** [estimateCenter] *)

(** The result is [None] when the main loop needs more than [fuel]
    iterations; otherwise it is the extended [outputs] and the state of
    the [irand] generator. *)
Definition estimateCenter (fuel : nat) (labelmap : list Z) (vertmap extents : list Q)
    (batch height width num_classes preemptive_batch : Z) (fx fy px py : Q)
    (outputs : list roi_t) (s : rng) : option (list roi_t * rng) :=
  let preemptiveBatch := preemptive_batch in
  let '(labels, object_ids) :=
    getLabels labelmap width height num_classes (int_of_float minArea) in
  let bb3Ds := getBb3Ds extents num_classes in
  let camMat := [fx; 0; px; 0; fy; py; 0; 0; 1]%Q in
  if decide (zlength object_ids = 0) then Some (outputs, s)
  else
    let '(hypMap, s) :=
      sample_hyps vertmap labels object_ids width num_classes
                  (Z.to_nat ransacIterations) (∅, s) in
    let objList := (hypMap_entries hypMap).*1 in
    match ransac_loop vertmap labels width num_classes preemptiveBatch
                      fuel objList (hypMap, s) with
    | None => None
    | Some (hypMap, s) =>
      Some (finalize batch height width fx fy px py bb3Ds camMat hypMap outputs, s)
    end.

(** *** [HoughvotingOp::Compute] *)

(** [for (int n = 0; n < batch_size; n++)]: one call of [estimateCenter]
    per image of the batch. *)
Fixpoint Compute_images (fuel : nat) (ns : list Z) (bottom_label : list Z)
    (bottom_vertex extents meta_data : list Q)
    (height width num_classes num_meta_data preemptive_batch : Z)
    (outputs : list roi_t) (s : rng) : option (list roi_t * rng) :=
  match ns with
  | [] => Some (outputs, s)
  | n :: ns' =>
    let labelmap := drop (Z.to_nat (n * height * width)) bottom_label in
    let vertmap := drop (Z.to_nat (n * height * width * 2 * num_classes)) bottom_vertex in
    let index_meta_data := n * num_meta_data in
    let fx := rdf meta_data (index_meta_data + 0) in
    let fy := rdf meta_data (index_meta_data + 4) in
    let px := rdf meta_data (index_meta_data + 2) in
    let py := rdf meta_data (index_meta_data + 5) in
    match estimateCenter fuel labelmap vertmap extents n height width num_classes
                         preemptive_batch fx fy px py outputs s with
    | None => None
    | Some (outputs, s) =>
      Compute_images fuel ns' bottom_label bottom_vertex extents meta_data
                     height width num_classes num_meta_data preemptive_batch outputs s
    end
  end.

Definition Compute (fuel : nat) (bottom_label : list Z)
    (bottom_vertex bottom_extents meta_data gt : list Q)
    (batch_size height width num_classes num_meta_data num_gt preemptive_batch : Z)
    (s : rng) : option (list Q * list Q * list Q * list Q * rng) :=
  match Compute_images fuel (seqZ 0 batch_size) bottom_label bottom_vertex
                       bottom_extents meta_data height width num_classes
                       num_meta_data preemptive_batch [] s with
  | None => None
  | Some (outputs, s) => Some (Compute_outputs gt num_gt num_classes outputs, s)
  end.

End HoughVoting.

(** ** What is assumed of the external functions *)

(** Modelled from the spec: [irand(min, max)] of util.h, which is not part
    of the sources at hand, draws uniformly from the integers [n] with
    [min <= n < max]; only the range is used. *)
Definition irand_in_range {rng : Type} (irand : Z → Z → rng → Z * rng) : Prop :=
  ∀ lo hi s, lo < hi → lo ≤ (irand lo hi s).1 < hi.

(** Modelled from the spec: [jp::id_t] of types.h, which is not part of
    the sources at hand, is the type of the class ids; it is taken to hold
    every class id of the image, so that converting a class id below
    [num_classes] to it changes nothing. *)
Definition id_t_holds (to_id_t : Z → Z) (num_classes : Z) : Prop :=
  ∀ c, 0 ≤ c < num_classes → to_id_t c = c.

(** Modelled from the spec: [TransHyp::operator<] of Hypothesis.h, which is
    not part of the sources at hand; a hypothesis with a higher inlier
    count ranks better, that is, sorts first. *)
Definition TransHyp_lt (a b : TransHyp) : Prop := inliers b < inliers a.

(** The contract of [std::sort]: the result is a rearrangement of the
    input in which no element is less than an earlier one.  The order of
    elements that compare equal is not fixed by [std::sort]. *)
Definition std_sort_spec (sort : list TransHyp → list TransHyp) : Prop :=
  ∀ l, sort l ≡ₚ l ∧ StronglySorted (λ a b, ¬ TransHyp_lt b a) (sort l).

(** ** A concrete choice of the external functions

    Used to run the model on examples. *)
Module Sample.

(** A linear congruential generator behind [irand]. *)
Definition rng : Type := Z.

Definition irand (lo hi : Z) (s : rng) : Z * rng :=
  (lo + (s `mod` (hi - lo)), (s * 1103515245 + 12345) `mod` 2147483648).

(** [jp::id_t] as a byte. *)
Definition to_id_t (c : Z) : Z := c `mod` 256.

Definition mt19937 : Type := Z.
Definition mt19937_default : mt19937 := 5489.

Definition negative_binomial (k : Z) (p : Q) (g : mt19937) : Z * mt19937 :=
  ((g `mod` 7), (g * 69069 + 1) `mod` 4294967296).

(** The square root of a rational, rounded down to a multiple of 1/1024. *)
Definition sqrtf (q : Q) : Q :=
  (Z.sqrt (Qfloor (q * 1048576)) # 1024)%Q.

(** The mean of the pixel positions of the correspondences. *)
Definition mean_pixel (dflt : Point2) (pts : list corr) : Point2 :=
  match pts with
  | [] => dflt
  | _ =>
    let n := float_of_int (zlength pts) in
    mkPoint2 (Qred (foldr Qplus 0%Q ((λ c, pt_x c.2) <$> pts) / n))
             (Qred (foldr Qplus 0%Q ((λ c, pt_y c.2) <$> pts) / n))
  end.

Definition calcCenter : Point2 → list corr → Point2 := mean_pixel.
Definition hyp_center : list corr → Point2 := mean_pixel (mkPoint2 0 0).

(** Insertion sort by [TransHyp_lt]; it keeps the order of equal elements. *)
Fixpoint insert_hyp (x : TransHyp) (l : list TransHyp) : list TransHyp :=
  match l with
  | [] => [x]
  | y :: l' => if decide (inliers x < inliers y) then y :: insert_hyp x l'
               else x :: l
  end.

Definition sort (l : list TransHyp) : list TransHyp := foldr insert_hyp [] l.

Definition PI : Q := 3.1415926.

Definition getBB3D (e : Point3) : list Point3 :=
  let '(x, y, z) := e in
  [(x / 2, y / 2, z / 2); (- x / 2, - y / 2, - z / 2)]%Q.

Definition getBB2D (w h : Z) (bb : list Point3) (cam : list Q) (t : cv_trans_t) : Rect :=
  mkRect 100 100 100 50.

Definition getIoU (a b : Rect) : Q :=
  if decide (a = b) then 1%Q else 0%Q.

Definition pose_quaternion (t : cv_trans_t) : (Q * Q * Q * Q) * Point3 :=
  ((1, 0, 0, 0)%Q, (rdf t.2 0, rdf t.2 1, rdf t.2 2)).

Definition nlopt_optimize (o : nlopt_opt) (vec : list Q) : list Q * Q :=
  (vec, opt_min_objective o vec).

Definition compute_width_height (h : TransHyp) : Q * Q := (20, 20)%Q.

(** Two detections of image 0, of classes 1 and 2, and a ground-truth list
    with one record, for image 0 and class 2. *)
Definition detections : list roi_t :=
  [ [0; 1; 10; 10; 30; 30; 1; 0; 0; 0; 0; 0; 1];
    [0; 2; 40; 40; 60; 60; 1; 0; 0; 0; 0; 0; 1] ]%Q.

Definition poses_gt : list Q :=
  [0; 2; 0; 0; 0; 0; 0.1; 0.2; 0.3; 0.4; 0; 0; 0]%Q.

(** A primary detection of class 3 in image 0: the box that the last loop
    of [estimateCenter] derives from a projected box at (100, 100) of
    width 100 and height 50, with the identity rotation. *)
Definition primary_roi : roi_t :=
  [0; 3; 90; 95; 210; 155; 1; 0; 0; 0; 0; 0; 1]%Q.

(** A small image: 4 columns and 3 rows, the left half of class 1, with
    votes that all point along the x axis. *)
Definition labelmap_4x3 : list Z := [1; 1; 0; 0; 1; 1; 0; 0; 1; 1; 0; 0].
Definition vertmap_4x3 : list Q := replicate 12 0%Q ≫= (λ _, [0; 0; 1; 0]%Q).

(** The scenario at the minimum-area boundary: a 64 x 64 label map whose
    pixels (x, y) with 22 <= x, y < 42 carry class 1 and all others class
    0, and a vote field whose class-1 entry at each pixel of the block is
    the direction from the pixel to the centre (32, 32), without noise.
    There are two classes, so a pixel has four vote entries. *)
Definition in_block (idx : Z) : bool :=
  let x := Z.rem idx 64 in
  let y := Z.quot idx 64 in
  bool_decide (22 ≤ x < 42 ∧ 22 ≤ y < 42).

Definition labelmap_64 : list Z :=
  (λ idx, if in_block idx then 1 else 0) <$> seqZ 0 4096.

Definition vertmap_64 : list Q :=
  idx ← seqZ 0 4096;
  if in_block idx
  then [0%Q; 0%Q; float_of_int (32 - Z.rem idx 64); float_of_int (32 - Z.quot idx 64)]
  else [0; 0; 0; 0]%Q.

Definition extents_2 : list Q := [0; 0; 0; 0.1; 0.1; 0.1]%Q.

(** A registry with three hypotheses of class 1, of 5, 3 and 1 inliers. *)
Definition hyp_with_inliers (n : Z) : TransHyp :=
  set_inliers n (TransHyp_new 1 (mkPoint2 5 5)).

Definition registry_of_three : hypMap_t :=
  {[ 1 := [hyp_with_inliers 3; hyp_with_inliers 5; hyp_with_inliers 1] ]}.

(** A registry with one new hypothesis of class 1: no inlier, never
    refined. *)
Definition registry_of_one : hypMap_t :=
  {[ 1 := [TransHyp_new 1 (mkPoint2 5 5)] ]}.

(** A 30 x 30 image all of class 1 (900 pixels), with votes that point to
    the pixel (15, 15). *)
Definition labelmap_30 : list Z := replicate 900 1.

Definition vertmap_30 : list Q :=
  idx ← seqZ 0 900;
  [0%Q; 0%Q; float_of_int (15 - Z.rem idx 30); float_of_int (15 - Z.quot idx 30)].

End Sample.

(** ** Notions used in the statements *)

(** Record [j] of the ground-truth list is for batch [b] and class [c]. *)
Definition gt_match (poses_gt : list Q) (j b c : Z) : Prop :=
  int_of_float (rdf poses_gt (j * 13 + 1)) = c ∧
  int_of_float (rdf poses_gt (j * 13 + 0)) = b.

(** Batch index and class id of a detection, as [compute_target_weight]
    reads them. *)
Definition roi_batch (roi : roi_t) : Z := int_of_float (rdf roi 0).
Definition roi_class (roi : roi_t) : Z := int_of_float (rdf roi 1).

(** Width and height of the box of a detection. *)
Definition roi_width (roi : roi_t) : Q := (rdf roi 4 - rdf roi 2)%Q.
Definition roi_height (roi : roi_t) : Q := (rdf roi 5 - rdf roi 3)%Q.

(** Two hypotheses have the same state as far as inlier counting goes. *)
Definition same_count_state (h1 h2 : TransHyp) : Prop :=
  objID h1 = objID h2 ∧ center h1 = center h2 ∧ maxPixels h1 = maxPixels h2.

(** Two hypotheses carry the same result of inlier counting. *)
Definition same_count_result (h1 h2 : TransHyp) : Prop :=
  objID h1 = objID h2 ∧ center h1 = center h2 ∧
  inlierPts2D h1 = inlierPts2D h2 ∧ inliers h1 = inliers h2 ∧
  maxPixels h1 = maxPixels h2 ∧ effPixels h1 = effPixels h2.

(** The refinement steps that a hypothesis still lacks. *)
Definition steps_left (x : TransHyp) : nat := Z.to_nat (refIt - refSteps x).

(** A bound on the passes of the main loop that the bucket of one class
    still takes part in: nine for every hypothesis beyond the first, and
    the refinement steps that its hypotheses lack. *)
Definition bucket_measure (b : list TransHyp) : nat :=
  (9 * (length b - 1) + sum_list_with steps_left b)%nat.

Definition registry_bound (n : nat) (hm : hypMap_t) : Prop :=
  ∀ k b, hm !! k = Some b → (bucket_measure b ≤ n)%nat.

(** Every class that has hypotheses has exactly one, refined at least
    [refIt] times. *)
Definition registry_final (hm : hypMap_t) : Prop :=
  ∀ k b, hm !! k = Some b → b ≠ [] → ∃ x, b = [x] ∧ refIt ≤ refSteps x.

(** Every hypothesis of the registry is of a class that satisfies [P]. *)
Definition registry_classes (P : Z → Prop) (hm : hypMap_t) : Prop :=
  ∀ k b x, hm !! k = Some b → x ∈ b → P (objID x).

(** The pixel of flat index [idx], as [countInliers2D] and the sampler
    build it. *)
Definition pixel_point (width idx : Z) : Point2 :=
  mkPoint2 (float_of_int (Z.rem idx width)) (float_of_int (Z.quot idx width)).

(** The correspondence of the pixel [idx] for class [objID]: its vote and
    its position. *)
Definition pixel_corr (vertmap : list Q) (width num_classes objID idx : Z) : corr :=
  (getMode2D objID (pixel_point width idx) vertmap width num_classes,
   pixel_point width idx).

(** The inlier test of [countInliers2D] on a correspondence. *)
Definition inlier_b (sqrtf : Q → Q) (inlierThreshold : Q) (center : Point2) (c : corr)
  : bool :=
  float_lt (point2line sqrtf center c.1 c.2) inlierThreshold.

(** Every bucket of the registry is filed under the class of its
    hypotheses and is not empty. *)
Definition registry_keyed (hm : hypMap_t) : Prop :=
  ∀ k b, hm !! k = Some b → b ≠ [] ∧ ∀ x, x ∈ b → objID x = k.

(** The number of hypotheses of the registry. *)
Definition registry_size (hm : hypMap_t) : nat :=
  sum_list_with (λ kb : Z * list TransHyp, length kb.2) (map_to_list hm).

(** The five detections of one hypothesis of class [c] in image [batch]:
    a primary one and four that repeat it in every entry but the box
    entries 2, 3 and 4. *)
Definition detection_block (batch c : Z) (blk : list roi_t) : Prop :=
  ∃ r0 r1 r2 r3 r4,
    blk = [r0; r1; r2; r3; r4] ∧
    rdf r0 0 = float_of_int batch ∧
    rdf r0 1 = float_of_int c ∧
    ∀ r, r ∈ [r1; r2; r3; r4] → ∀ p, p ≠ 2 → p ≠ 3 → p ≠ 4 → rdf r p = rdf r0 p.

(** * Properties *)

(** ** Buffers *)

Lemma zlength_nonneg {A} (l : list A) : 0 ≤ zlength l.
Proof. unfold zlength. lia. Qed.

Lemma zlookup_Some {A} (l : list A) (i : Z) (x : A) :
  zlookup l i = Some x ↔ 0 ≤ i ∧ l !! Z.to_nat i = Some x.
Proof. unfold zlookup. destruct (decide (0 ≤ i)); [tauto|]. split; [done|tauto]. Qed.

Lemma zlookup_lt {A} (l : list A) (i : Z) :
  0 ≤ i < zlength l → is_Some (zlookup l i).
Proof.
  unfold zlookup, zlength. intros Hi. rewrite decide_True by lia.
  apply lookup_lt_is_Some. lia.
Qed.


Lemma zlength_zinsert {A} (i : Z) (v : A) (l : list A) :
  zlength (zinsert i v l) = zlength l.
Proof. unfold zinsert, zlength. case_decide; by rewrite ?length_insert. Qed.

Lemma rdf_zinsert (i : Z) (v : Q) (l : list Q) (p : Z) :
  rdf (zinsert i v l) p =
  if decide (p = i ∧ 0 ≤ i < zlength l) then v else rdf l p.
Proof.
  unfold rdf, zinsert, zlookup, zlength.
  destruct (decide (p = i ∧ 0 ≤ i < Z.of_nat (length l))) as [[-> Hi]|Hn].
  - rewrite !decide_True by lia.
    rewrite list_lookup_insert_eq by lia. done.
  - destruct (decide (0 ≤ i)); [|done].
    destruct (decide (0 ≤ p)); [|done].
    destruct (decide (p = i)) as [->|Hne].
    + rewrite list_insert_ge by lia. done.
    + rewrite list_lookup_insert_ne by lia. done.
Qed.

Lemma rdf_insert_ne (roi : list Q) (i : nat) (v : Q) (p : Z) :
  p ≠ Z.of_nat i → rdf (<[i := v]> roi) p = rdf roi p.
Proof.
  intros Hne. unfold rdf, zlookup. case_decide; [|done].
  rewrite list_lookup_insert_ne by lia. done.
Qed.


Lemma rdf_replicate (n : nat) (p : Z) : rdf (replicate n 0%Q) p = 0%Q.
Proof.
  unfold rdf, zlookup. case_decide; [|done].
  destruct (replicate n 0%Q !! Z.to_nat p) eqn:E; [|done].
  apply lookup_replicate in E as [-> _]. done.
Qed.

Lemma int_of_float_of_int (z : Z) : int_of_float (float_of_int z) = z.
Proof. unfold int_of_float, float_of_int. simpl. apply Z.quot_1_r. Qed.

(** ** [compute_target_weight] *)

Lemma find_gt_seqZ (gt : list Q) (b c : Z) (len : nat) : ∀ m,
  let j := find_gt gt b c (seqZ m (Z.of_nat len)) in
  (j = -1 ∧ ∀ j', m ≤ j' < m + Z.of_nat len → ¬ gt_match gt j' b c) ∨
  (m ≤ j < m + Z.of_nat len ∧ gt_match gt j b c ∧
   ∀ j', m ≤ j' < j → ¬ gt_match gt j' b c).
Proof.
  induction len as [|len IH]; intros m.
  - left. split; [done|]. intros j' Hj'. lia.
  - rewrite seqZ_cons by lia.
    replace (Z.pred (Z.of_nat (S len))) with (Z.of_nat len) by lia.
    cbn [find_gt]. fold (gt_match gt m b c).
    destruct (decide (c = int_of_float (rdf gt (m * 13 + 1)) ∧
                      b = int_of_float (rdf gt (m * 13 + 0)))) as [[Hc Hb]|Hno].
    + right. split; [lia|]. split; [by split|]. intros j' Hj'. lia.
    + assert (¬ gt_match gt m b c) as Hm by (intros [? ?]; by apply Hno).
      destruct (IH (Z.succ m)) as [[Hj Hall]|(Hj & Hmatch & Hfirst)].
      * left. split; [done|]. intros j' Hj'.
        destruct (decide (j' = m)) as [->|]; [done|]. apply Hall. lia.
      * right. split; [lia|]. split; [done|]. intros j' Hj'.
        destruct (decide (j' = m)) as [->|]; [done|]. apply Hfirst. lia.
Qed.

Lemma target_weight_row_rdf (gt : list Q) (num_gt nc i : Z) (roi : roi_t)
    (T W : list Q) (p : Z) :
  let j := find_gt gt (roi_batch roi) (roi_class roi) (seqZ 0 num_gt) in
  let base := i * 4 * nc + 4 * roi_class roi in
  let r := target_weight_row gt num_gt nc i roi (T, W) in
  zlength r.1 = zlength T ∧ zlength r.2 = zlength W ∧
  rdf r.1 p = (if decide (j ≠ -1 ∧ base ≤ p < base + 4 ∧ 0 ≤ p < zlength T)
               then rdf gt (j * 13 + 6 + (p - base)) else rdf T p) ∧
  rdf r.2 p = (if decide (j ≠ -1 ∧ base ≤ p < base + 4 ∧ 0 ≤ p < zlength W)
               then 1%Q else rdf W p).
Proof.
  intros j base r. subst r. unfold target_weight_row.
  fold (roi_batch roi) (roi_class roi). fold j. fold base.
  destruct (decide (j = -1)) as [Hj|Hj].
  { simpl. rewrite !decide_False by tauto. done. }
  cbn [fst snd]. rewrite !zlength_zinsert, !rdf_zinsert, !zlength_zinsert.
  split; [done|]. split; [done|]. split.
  - destruct (decide (j ≠ -1 ∧ base ≤ p < base + 4 ∧ 0 ≤ p < zlength T))
      as [(_ & Hp & Hlen)|Hn].
    + repeat case_decide; try lia; f_equal; lia.
    + repeat case_decide; try lia; try done; exfalso; apply Hn; lia.
  - destruct (decide (j ≠ -1 ∧ base ≤ p < base + 4 ∧ 0 ≤ p < zlength W))
      as [(_ & Hp & Hlen)|Hn].
    + repeat case_decide; try lia; done.
    + repeat case_decide; try lia; try done; exfalso; apply Hn; lia.
Qed.

Lemma compute_target_weight_from_rdf (gt : list Q) (num_gt nc : Z) (outs : list roi_t) :
  0 < nc →
  Forall (λ roi, 0 ≤ roi_class roi < nc) outs →
  ∀ i T W, 0 ≤ i →
  let r := compute_target_weight_from gt num_gt nc i outs (T, W) in
  zlength r.1 = zlength T ∧ zlength r.2 = zlength W ∧
  ∀ p,
    (p < i * 4 * nc → rdf r.1 p = rdf T p ∧ rdf r.2 p = rdf W p) ∧
    (∀ (k : nat) roi, outs !! k = Some roi →
       (i + Z.of_nat k) * 4 * nc ≤ p < (i + Z.of_nat k + 1) * 4 * nc →
       rdf r.1 p = rdf (target_weight_row gt num_gt nc (i + Z.of_nat k) roi (T, W)).1 p ∧
       rdf r.2 p = rdf (target_weight_row gt num_gt nc (i + Z.of_nat k) roi (T, W)).2 p).
Proof.
  intros Hnc Hcls. induction Hcls as [|roi outs Hroi Hcls IH]; intros i T W Hi.
  - simpl. split; [done|]. split; [done|]. intros p. split; [done|].
    intros k roi Hk. by rewrite lookup_nil in Hk.
  - cbn [compute_target_weight_from].
    destruct (target_weight_row gt num_gt nc i roi (T, W)) as [T1 W1] eqn:Hrow.
    assert (∀ p, zlength T1 = zlength T ∧ zlength W1 = zlength W ∧
        rdf T1 p = (if decide (find_gt gt (roi_batch roi) (roi_class roi) (seqZ 0 num_gt) ≠ -1 ∧
                          i * 4 * nc + 4 * roi_class roi ≤ p < i * 4 * nc + 4 * roi_class roi + 4 ∧
                          0 ≤ p < zlength T)
                    then rdf gt (find_gt gt (roi_batch roi) (roi_class roi) (seqZ 0 num_gt) * 13 + 6
                                 + (p - (i * 4 * nc + 4 * roi_class roi))) else rdf T p) ∧
        rdf W1 p = (if decide (find_gt gt (roi_batch roi) (roi_class roi) (seqZ 0 num_gt) ≠ -1 ∧
                          i * 4 * nc + 4 * roi_class roi ≤ p < i * 4 * nc + 4 * roi_class roi + 4 ∧
                          0 ≤ p < zlength W)
                    then 1%Q else rdf W p)) as Hrow1.
    { intros p. pose proof (target_weight_row_rdf gt num_gt nc i roi T W p) as H.
      rewrite Hrow in H. exact H. }
    destruct (IH (i + 1) T1 W1 ltac:(lia)) as (HlT & HlW & Hall).
    destruct (Hrow1 0) as (HT1 & HW1 & _).
    split; [congruence|]. split; [congruence|].
    assert ((i + 1) * 4 * nc = i * 4 * nc + 4 * nc) as Hnext by ring.
    intros p. destruct (Hall p) as [Hlow Hrows].
    destruct (Hrow1 p) as (_ & _ & HpT & HpW).
    split.
    + intros Hp. destruct Hlow as [-> ->]; [lia|].
      rewrite HpT, HpW. rewrite !decide_False by lia. done.
    + intros [|k] roi' Hk Hp.
      * simpl in Hk. injection Hk as <-.
        replace (i + Z.of_nat 0) with i in * by lia.
        rewrite Hrow. cbn [fst snd]. apply Hlow. lia.
      * simpl in Hk.
        replace (i + Z.of_nat (S k)) with (i + 1 + Z.of_nat k) in * by lia.
        destruct (Hrows k roi' Hk Hp) as [-> ->].
        pose proof (target_weight_row_rdf gt num_gt nc (i + 1 + Z.of_nat k) roi' T1 W1 p)
          as (_ & _ & -> & ->).
        pose proof (target_weight_row_rdf gt num_gt nc (i + 1 + Z.of_nat k) roi' T W p)
          as (_ & _ & -> & ->).
        rewrite HT1, HW1, HpT, HpW.
        assert ((i + 1 + Z.of_nat k) * 4 * nc = i * 4 * nc + 4 * nc + Z.of_nat k * (4 * nc))
          as Hk' by ring.
        assert (0 ≤ Z.of_nat k * (4 * nc)) by nia.
        rewrite (decide_False (P := _ ∧ i * 4 * nc + _ ≤ p < _ ∧ 0 ≤ p < zlength T)) by lia.
        rewrite (decide_False (P := _ ∧ i * 4 * nc + _ ≤ p < _ ∧ 0 ≤ p < zlength W)) by lia.
        done.
Qed.

(** C6.  Take the target and weight tensors that [Compute] builds for the
    detections [outputs], and the detection at row [i], with batch index
    [b] and class id [c].  If no ground-truth record is for [b] and [c],
    all [4 * num_classes] slots of row [i] are zero in both tensors.  If
    some record is, then with [j] the first such record, the four slots at
    offset [4 * c] of row [i] hold the fields 6..9 of record [j] in the
    target and 1 in the weight, and all other slots of the row are zero.
    The class ids of the detections lie in [0, num_classes), as they do
    for the detections that [estimateCenter] emits. *)
Theorem target_weight_rows (gt : list Q) (num_gt nc : Z) (outputs : list roi_t)
    (i : nat) (roi : roi_t) :
  0 < nc →
  Forall (λ r, 0 ≤ roi_class r < nc) outputs →
  outputs !! i = Some roi →
  let top_target := (Compute_outputs gt num_gt nc outputs).1.2 in
  let top_weight := (Compute_outputs gt num_gt nc outputs).2 in
  let b := roi_batch roi in
  let c := roi_class roi in
  let slot k := Z.of_nat i * 4 * nc + k in
  ((∀ j, 0 ≤ j < num_gt → ¬ gt_match gt j b c) →
   ∀ k, 0 ≤ k < 4 * nc →
     rdf top_target (slot k) = 0%Q ∧ rdf top_weight (slot k) = 0%Q) ∧
  (∀ j, 0 ≤ j < num_gt → gt_match gt j b c →
   (∀ j', 0 ≤ j' < j → ¬ gt_match gt j' b c) →
   ∀ k, 0 ≤ k < 4 * nc →
     if decide (4 * c ≤ k < 4 * c + 4)
     then rdf top_target (slot k) = rdf gt (j * 13 + 6 + (k - 4 * c)) ∧
          rdf top_weight (slot k) = 1%Q
     else rdf top_target (slot k) = 0%Q ∧ rdf top_weight (slot k) = 0%Q).
Proof.
  intros Hnc Hcls Hi top_target top_weight b c slot.
  subst top_target top_weight. unfold Compute_outputs, compute_target_weight.
  set (n := Z.to_nat (zlength outputs * 4 * nc)).
  destruct (compute_target_weight_from gt num_gt nc 0 outputs
              (replicate n 0%Q, replicate n 0%Q)) as [T W] eqn:HTW.
  cbn [fst snd].
  pose proof (compute_target_weight_from_rdf gt num_gt nc outputs Hnc Hcls 0
                (replicate n 0%Q) (replicate n 0%Q) ltac:(lia)) as Hspec.
  rewrite HTW in Hspec. cbn [fst snd] in Hspec. destruct Hspec as (_ & _ & Hspec).
  assert (0 ≤ c < nc) as Hc.
  { rewrite Forall_lookup in Hcls. apply (Hcls i roi Hi). }
  assert (Z.of_nat i < zlength outputs) as Hlt.
  { apply lookup_lt_Some in Hi. unfold zlength. lia. }
  assert (zlength (replicate n 0%Q) = zlength outputs * 4 * nc) as Hlen.
  { unfold zlength at 1. rewrite length_replicate. subst n.
    pose proof (zlength_nonneg outputs). nia. }
  assert (∀ k, 0 ≤ k < 4 * nc →
    rdf T (slot k) =
      (if decide (find_gt gt b c (seqZ 0 num_gt) ≠ -1 ∧ 4 * c ≤ k < 4 * c + 4)
       then rdf gt (find_gt gt b c (seqZ 0 num_gt) * 13 + 6 + (k - 4 * c)) else 0%Q) ∧
    rdf W (slot k) =
      (if decide (find_gt gt b c (seqZ 0 num_gt) ≠ -1 ∧ 4 * c ≤ k < 4 * c + 4)
       then 1%Q else 0%Q)) as Hrow.
  { intros k Hk. destruct (Hspec (slot k)) as [_ Hrows].
    destruct (Hrows i roi Hi) as [-> ->].
    { subst slot. cbn beta. nia. }
    pose proof (target_weight_row_rdf gt num_gt nc (0 + Z.of_nat i) roi
                  (replicate n 0%Q) (replicate n 0%Q) (slot k)) as (_ & _ & -> & ->).
    fold b c. rewrite !rdf_replicate, Hlen. subst slot. cbn beta.
    destruct (decide (find_gt gt b c (seqZ 0 num_gt) ≠ -1 ∧ 4 * c ≤ k < 4 * c + 4))
      as [[Hj Hk4]|Hn].
    - rewrite !decide_True by (split; [done|nia]). split; [f_equal; lia|done].
    - rewrite !decide_False by (intros (? & ? & ?); apply Hn; split; [done|lia]). done. }
  pose proof (find_gt_seqZ gt b c (Z.to_nat num_gt) 0) as Hfind. cbn zeta in Hfind.
  split.
  - intros Hnone k Hk. destruct (Hrow k Hk) as [-> ->].
    destruct (decide (0 ≤ num_gt)) as [Hn|Hn].
    + rewrite Z2Nat.id in Hfind by done.
      destruct Hfind as [[Hj _]|(Hj & Hm & _)].
      * rewrite !decide_False by (intros [? _]; done). done.
      * exfalso. apply (Hnone (find_gt gt b c (seqZ 0 num_gt))); [lia|done].
    + rewrite seqZ_nil by lia. cbn [find_gt].
      rewrite !decide_False by (intros [? _]; done). done.
  - intros j Hj Hm Hfirst k Hk. destruct (Hrow k Hk) as [-> ->].
    rewrite Z2Nat.id in Hfind by lia.
    assert (find_gt gt b c (seqZ 0 num_gt) = j) as ->.
    { destruct Hfind as [[_ Hall]|(Hj0 & Hm0 & Hfirst0)].
      - exfalso. apply (Hall j); [lia|done].
      - destruct (Z.lt_trichotomy (find_gt gt b c (seqZ 0 num_gt)) j) as [Hlt'|[Heq|Hgt]].
        + exfalso. apply (Hfirst (find_gt gt b c (seqZ 0 num_gt))); [lia|done].
        + done.
        + exfalso. apply (Hfirst0 j); [lia|done]. }
    destruct (decide (4 * c ≤ k < 4 * c + 4)) as [Hk4|Hk4].
    + rewrite !decide_True by (split; [lia|done]). done.
    + rewrite !decide_False by (intros [_ ?]; done). done.
Qed.

Lemma target_weight_rows_witness :
  0 < 3 ∧
  Forall (λ r, 0 ≤ roi_class r < 3) Sample.detections ∧
  Sample.detections !! 1%nat = Some [0; 2; 40; 40; 60; 60; 1; 0; 0; 0; 0; 0; 1]%Q ∧
  (rdf (Compute_outputs Sample.poses_gt 1 3 Sample.detections).1.2 (1 * 4 * 3 + 9) = 0.2%Q ∧
   rdf (Compute_outputs Sample.poses_gt 1 3 Sample.detections).2 (1 * 4 * 3 + 9) = 1%Q).
Proof.
  assert (0 < 3) as H3 by lia.
  assert (Forall (λ r, 0 ≤ roi_class r < 3) Sample.detections) as Hcls.
  { repeat constructor; vm_compute; congruence. }
  split; [exact H3|]. split; [exact Hcls|]. split; [reflexivity|].
  destruct (target_weight_rows Sample.poses_gt 1 3 Sample.detections 1
              [0; 2; 40; 40; 60; 60; 1; 0; 0; 0; 0; 0; 1]%Q H3 Hcls eq_refl)
    as [_ Hmatch].
  assert (gt_match Sample.poses_gt 0 0 2) as Hm by (split; reflexivity).
  specialize (Hmatch 0 ltac:(lia) Hm ltac:(intros; lia) 9 ltac:(lia)).
  exact Hmatch.
Defined.

(** ** The jittered detections *)

(** The five detections of one hypothesis: the primary one and four that
    differ from it in the entries 2, 3 and 4 only.  Batch index, class id,
    quaternion and translation are shared. *)
Lemma jitter_rois_shape (roi : roi_t) (outputs : list roi_t) :
  ∃ r1 r2 r3 r4,
    jitter_rois roi outputs = outputs ++ [roi; r1; r2; r3; r4] ∧
    ∀ r, r ∈ [r1; r2; r3; r4] →
         ∀ p, p ≠ 2 → p ≠ 3 → p ≠ 4 → rdf r p = rdf roi p.
Proof.
  unfold jitter_rois. do 4 eexists. split.
  { rewrite <- !(assoc_L (++)). simpl. reflexivity. }
  intros r Hr p H2 H3 H4.
  repeat (apply elem_of_cons in Hr as [->|Hr];
          [by rewrite !rdf_insert_ne by lia|]).
  by apply elem_of_nil in Hr.
Qed.

(** C1.  At the primary detection with box (90, 95)-(210, 155), of width
    120 and height 60, the four jittered detections keep the y2 of the
    primary box and get the jittered y1 plus the height as their x2: their
    boxes are 68 x 63, 56 x 63, 74 x 57 and 62 x 57, not 120 x 60. *)
Theorem jitter_rois_box_size_lost :
  ∃ r1 r2 r3 r4,
    jitter_rois Sample.primary_roi [] = [Sample.primary_roi; r1; r2; r3; r4] ∧
    (roi_width Sample.primary_roi == 120 ∧ roi_height Sample.primary_roi == 60)%Q ∧
    (roi_width r1 == 68 ∧ roi_height r1 == 63)%Q ∧
    (roi_width r2 == 56 ∧ roi_height r2 == 63)%Q ∧
    (roi_width r3 == 74 ∧ roi_height r3 == 57)%Q ∧
    (roi_width r4 == 62 ∧ roi_height r4 == 57)%Q ∧
    Forall (λ r, rdf r 5 = rdf Sample.primary_roi 5 ∧
                 (rdf r 4 == rdf r 3 + roi_height Sample.primary_roi)%Q)
           [r1; r2; r3; r4].
Proof.
  do 4 eexists. split; [vm_compute; reflexivity|].
  repeat split; try reflexivity.
  repeat constructor; reflexivity.
Qed.

(** ** The pose optimiser *)

Lemma center_roi_batch_class (compute_width_height : TransHyp → Q * Q)
    (batch height width : Z) (hyp : TransHyp) :
  rdf (center_roi compute_width_height batch height width hyp) 0 = float_of_int batch ∧
  rdf (center_roi compute_width_height batch height width hyp) 1 = float_of_int (objID hyp).
Proof.
  unfold center_roi. destruct (compute_width_height hyp) as [w h]. split; reflexivity.
Qed.

(** ** Inlier counting *)

Section CountInliersFacts.
Context {mt19937 : Type}.
Variables (sqrtf : Q → Q) (mt19937_default : mt19937)
          (negative_binomial : Z → Q → mt19937 → Z * mt19937)
          (vertmap : list Q) (labels : list (list Z)) (inlierThreshold : Q)
          (width num_classes : Z).

Lemma countInliers2D_loop_same (fuel : nat) : ∀ pts maxPt successRate ptIdx g h1 h2,
  same_count_result h1 h2 →
  same_count_result
    (countInliers2D_loop sqrtf negative_binomial vertmap inlierThreshold width
                         num_classes fuel pts maxPt successRate ptIdx g h1)
    (countInliers2D_loop sqrtf negative_binomial vertmap inlierThreshold width
                         num_classes fuel pts maxPt successRate ptIdx g h2).
Proof.
  induction fuel as [|fuel IH]; intros pts maxPt successRate ptIdx g h1 h2 Hsame.
  - exact Hsame.
  - cbn [countInliers2D_loop]. destruct (decide (ptIdx < maxPt)); [|exact Hsame].
    destruct Hsame as (Hid & Hc & Hpts & Hin & Hmax & Heff).
    cbn [objID center set_effPixels]. rewrite Hid, Hc.
    destruct (float_lt _ inlierThreshold);
      destruct (Qlt_le_dec successRate 1);
      try destruct (negative_binomial 1 successRate g) as [d g'];
      apply IH; unfold same_count_result; cbn; rewrite ?Hpts, ?Hin, ?Heff;
      repeat split; congruence.
Qed.

(** The loop touches neither the class, nor the centre, nor the counter
    of refinement steps. *)
Lemma countInliers2D_loop_keeps (fuel : nat) : ∀ pts maxPt successRate ptIdx g h,
  let h' := countInliers2D_loop sqrtf negative_binomial vertmap inlierThreshold width
                                num_classes fuel pts maxPt successRate ptIdx g h in
  objID h' = objID h ∧ center h' = center h ∧ refSteps h' = refSteps h.
Proof.
  induction fuel as [|fuel IH]; intros pts maxPt successRate ptIdx g h; [done|].
  cbn [countInliers2D_loop]. destruct (decide (ptIdx < maxPt)); [|done].
  destruct (float_lt _ inlierThreshold);
    destruct (Qlt_le_dec successRate 1);
    try destruct (negative_binomial 1 successRate g) as [d g'].
  all: match goal with
       | |- context [countInliers2D_loop _ _ _ _ _ _ _ ?p ?m ?r ?i ?g0 ?h0] =>
         destruct (IH p m r i g0 h0) as (-> & -> & ->)
       end; done.
Qed.

Lemma countInliers2D_keeps (pixelBatch : Z) (h : TransHyp) :
  let h' := countInliers2D sqrtf mt19937_default negative_binomial vertmap labels
                           inlierThreshold width num_classes pixelBatch h in
  objID h' = objID h ∧ center h' = center h ∧ refSteps h' = refSteps h.
Proof.
  unfold countInliers2D.
  match goal with
  | |- context [countInliers2D_loop _ _ _ _ _ _ ?f ?p ?m ?r ?i ?g0 ?h0] =>
    destruct (countInliers2D_loop_keeps f p m r i g0 h0) as (-> & -> & ->)
  end.
  done.
Qed.

(** The fuel that [countInliers2D] gives to its loop, the number of
    pixels of the class, is never used up: any fuel that covers the
    pixels from [ptIdx] on gives the same result. *)
Lemma countInliers2D_loop_fuel (fuel : nat) :
  ∀ fuel' pts maxPt successRate ptIdx g h,
  maxPt - ptIdx ≤ Z.of_nat fuel → maxPt - ptIdx ≤ Z.of_nat fuel' →
  countInliers2D_loop sqrtf negative_binomial vertmap inlierThreshold width
                      num_classes fuel pts maxPt successRate ptIdx g h =
  countInliers2D_loop sqrtf negative_binomial vertmap inlierThreshold width
                      num_classes fuel' pts maxPt successRate ptIdx g h.
Proof.
  induction fuel as [|fuel IH]; intros fuel' pts maxPt successRate ptIdx g h Hf Hf'.
  - destruct fuel' as [|fuel']; [done|]. cbn [countInliers2D_loop].
    by rewrite decide_False by lia.
  - destruct fuel' as [|fuel'].
    + cbn [countInliers2D_loop]. by rewrite decide_False by lia.
    + cbn [countInliers2D_loop]. destruct (decide (ptIdx < maxPt)); [|done].
      destruct (Qlt_le_dec successRate 1).
      * destruct (negative_binomial 1 successRate g) as [d g']. apply IH; lia.
      * apply IH; lia.
Qed.

End CountInliersFacts.

(** C10.  [countInliers2D] takes no generator state and returns none: it
    starts from the default-constructed [std::mt19937] on every call.  Its
    result is a function of the class id, the centre and the accumulated
    pixel budget of the hypothesis, of the vote field and of the pixel
    lists: two hypotheses that agree on these three members, whatever
    their stale inlier data and counters are, come out with the same inlier
    list, the same inlier count, the same number of visited pixels and the
    same pixel budget. *)
Theorem countInliers2D_deterministic {mt19937 : Type}
    (sqrtf : Q → Q) (mt19937_default : mt19937)
    (negative_binomial : Z → Q → mt19937 → Z * mt19937)
    (vertmap : list Q) (labels : list (list Z)) (inlierThreshold : Q)
    (width num_classes pixelBatch : Z) (h1 h2 : TransHyp) :
  same_count_state h1 h2 →
  same_count_result
    (countInliers2D sqrtf mt19937_default negative_binomial vertmap labels
                    inlierThreshold width num_classes pixelBatch h1)
    (countInliers2D sqrtf mt19937_default negative_binomial vertmap labels
                    inlierThreshold width num_classes pixelBatch h2).
Proof.
  intros (Hid & Hc & Hmax). unfold countInliers2D.
  cbn [objID maxPixels set_inlierPts2D set_inliers set_effPixels set_maxPixels].
  rewrite Hid, Hmax. apply countInliers2D_loop_same.
  unfold same_count_result. cbn. repeat split; congruence.
Qed.

Lemma countInliers2D_deterministic_witness :
  let labels := (getLabels Sample.labelmap_4x3 4 3 2 0).1 in
  let h1 := TransHyp_new 1 (mkPoint2 1 1) in
  let h2 := mkTransHyp 1 (mkPoint2 1 1) [(mkPoint2 0 1, mkPoint2 3 2)] 7 0 9 5 0%Q 0%Q in
  same_count_state h1 h2 ∧
  same_count_result
    (countInliers2D Sample.sqrtf Sample.mt19937_default Sample.negative_binomial
                    Sample.vertmap_4x3 labels inlierThreshold3D 4 2 3 h1)
    (countInliers2D Sample.sqrtf Sample.mt19937_default Sample.negative_binomial
                    Sample.vertmap_4x3 labels inlierThreshold3D 4 2 3 h2).
Proof.
  assert (same_count_state (TransHyp_new 1 (mkPoint2 1 1))
            (mkTransHyp 1 (mkPoint2 1 1) [(mkPoint2 0 1, mkPoint2 3 2)] 7 0 9 5 0%Q 0%Q))
    as Hsame by (repeat split; reflexivity).
  split; [exact Hsame|].
  apply (countInliers2D_deterministic Sample.sqrtf Sample.mt19937_default
           Sample.negative_binomial Sample.vertmap_4x3 _ inlierThreshold3D 4 2 3 _ _ Hsame).
Defined.

(** ** [getLabels] *)

Lemma zlookup_push_back_at (labels : list (list Z)) (label idx c : Z) :
  zlookup (push_back_at labels label idx) c =
  if decide (label = c) then (λ b, b ++ [idx]) <$> zlookup labels c
  else zlookup labels c.
Proof.
  unfold push_back_at, zlookup.
  destruct (decide (label = c)) as [->|Hne]; destruct (decide (0 ≤ c)) as [Hc|Hc].
  - by rewrite list_lookup_alter_eq.
  - done.
  - destruct (decide (0 ≤ label)); [|done].
    rewrite list_lookup_alter_ne by lia. done.
  - by destruct (decide (0 ≤ label)).
Qed.

Lemma zlength_push_back_at (labels : list (list Z)) (label idx : Z) :
  zlength (push_back_at labels label idx) = zlength labels.
Proof.
  unfold push_back_at, zlength. case_decide; [|done]. by rewrite length_alter.
Qed.

Lemma foldl_push_back_bucket (lm : list Z) (pts : list Z) : ∀ labels c,
  0 ≤ c < zlength labels →
  zlength (default [] (zlookup
     (foldl (λ labels idx, push_back_at labels (rdi lm idx) idx) labels pts) c)) =
  zlength (default [] (zlookup labels c)) +
  zlength (filter (λ idx, rdi lm idx = c) pts).
Proof.
  induction pts as [|idx pts IH]; intros labels c Hc.
  - simpl. unfold zlength at 3. simpl. lia.
  - cbn [foldl]. rewrite IH by (by rewrite zlength_push_back_at).
    rewrite zlookup_push_back_at, filter_cons.
    destruct (zlookup_lt labels c Hc) as [b Hb]. rewrite Hb.
    destruct (decide (rdi lm idx = c)) as [Heq|Hne].
    + simpl. unfold zlength. rewrite length_app. simpl. lia.
    + simpl. lia.
Qed.

Lemma getLabels_bucket (lm : list Z) (width height nc minA c : Z) :
  0 ≤ c < nc →
  zlength (default [] (zlookup (getLabels lm width height nc minA).1 c)) =
  pixel_count lm width height c.
Proof.
  intros Hc. unfold getLabels, pixel_count. cbn [fst].
  rewrite foldl_push_back_bucket.
  - unfold zlookup. rewrite decide_True by lia.
    rewrite lookup_replicate_2 by lia. simpl. unfold zlength at 1. simpl. lia.
  - unfold zlength. rewrite length_replicate. lia.
Qed.

(** The active classes are the class ids from 1 to [num_classes - 1] with
    more than [minArea] pixels. *)
Lemma getLabels_object_ids (lm : list Z) (width height nc minA c : Z) :
  c ∈ (getLabels lm width height nc minA).2 ↔
  1 ≤ c < nc ∧ size_t_of_int minA < pixel_count lm width height c.
Proof.
  pose proof (getLabels_bucket lm width height nc minA c) as Hb.
  unfold getLabels in *. cbn [fst snd] in *.
  rewrite list_elem_of_filter, elem_of_seqZ. split.
  - intros [Hlt Hc]. rewrite Hb in Hlt by lia. lia.
  - intros [Hc Hlt]. rewrite Hb by lia. lia.
Qed.

Lemma minArea_int : int_of_float minArea = 400.
Proof. reflexivity. Qed.

Lemma size_t_of_int_small (z : Z) : 0 ≤ z < 2 ^ 64 → size_t_of_int z = z.
Proof. intros Hz. unfold size_t_of_int. by apply Z.mod_small. Qed.

Lemma minArea_size_t : size_t_of_int (int_of_float minArea) = 400.
Proof. reflexivity. Qed.

(** ** The sampler *)

Lemma rdi_elem_of (l : list Z) (i : Z) : 0 ≤ i < zlength l → rdi l i ∈ l.
Proof.
  intros Hi. unfold rdi. destruct (zlookup_lt l i Hi) as [x Hx]. rewrite Hx. simpl.
  apply zlookup_Some in Hx as [_ Hx]. by eapply list_elem_of_lookup_2.
Qed.

Lemma draw_objID_elem_of {rng : Type} (irand : Z → Z → rng → Z * rng)
    (to_id_t : Z → Z) (object_ids : list Z) (s : rng) :
  irand_in_range irand → (∀ c, c ∈ object_ids → to_id_t c = c) →
  zlength object_ids ≠ 0 →
  (draw_objID irand to_id_t object_ids s).1 ∈ object_ids.
Proof.
  intros Hirand Hid Hne. unfold draw_objID.
  pose proof (Hirand 0 (zlength object_ids) s) as Hr.
  destruct (irand 0 (zlength object_ids) s) as [r s']. cbn [fst] in *.
  assert (rdi object_ids r ∈ object_ids) as Hin.
  { apply rdi_elem_of. pose proof (zlength_nonneg object_ids). lia. }
  by rewrite Hid.
Qed.

Lemma getLabels_ids_fit (to_id_t : Z → Z) (lm : list Z) (width height nc minA : Z) :
  id_t_holds to_id_t nc →
  ∀ c, c ∈ (getLabels lm width height nc minA).2 → to_id_t c = c.
Proof.
  intros Hid c Hc. apply getLabels_object_ids in Hc. apply Hid. lia.
Qed.

(** C9.  When the sampler runs, that is, when the list of active classes
    that [getLabels] built is not empty, the class id that an attempt
    draws from it lies between 1 and [num_classes - 1], whatever the state
    of the generator: it is never 0, so the test [objID == 0] never
    succeeds. *)
Theorem background_check_never_fires {rng : Type} (irand : Z → Z → rng → Z * rng)
    (to_id_t : Z → Z) (labelmap : list Z) (width height num_classes : Z) (s : rng) :
  irand_in_range irand →
  id_t_holds to_id_t num_classes →
  let object_ids := (getLabels labelmap width height num_classes (int_of_float minArea)).2 in
  zlength object_ids ≠ 0 →
  let objID := (draw_objID irand to_id_t object_ids s).1 in
  1 ≤ objID ≤ num_classes - 1 ∧ objID ≠ 0.
Proof.
  intros Hirand Hid object_ids Hne objID.
  pose proof (draw_objID_elem_of irand to_id_t object_ids s Hirand
                (getLabels_ids_fit to_id_t _ _ _ _ _ Hid) Hne) as Hin.
  apply getLabels_object_ids in Hin. fold objID in Hin. lia.
Qed.

Lemma Sample_irand_in_range : irand_in_range Sample.irand.
Proof.
  intros lo hi s Hlt. unfold Sample.irand. cbn [fst].
  pose proof (Z.mod_pos_bound s (hi - lo)). lia.
Qed.

Lemma Sample_id_t_holds (nc : Z) : nc ≤ 256 → id_t_holds Sample.to_id_t nc.
Proof.
  intros Hnc c Hc. unfold Sample.to_id_t. apply Z.mod_small. lia.
Qed.

Lemma background_check_never_fires_witness :
  let labelmap := replicate 900 1 in
  let object_ids := (getLabels labelmap 30 30 3 (int_of_float minArea)).2 in
  irand_in_range Sample.irand ∧
  id_t_holds Sample.to_id_t 3 ∧
  zlength object_ids ≠ 0 ∧
  1 ≤ (draw_objID Sample.irand Sample.to_id_t object_ids 2024).1 ≤ 3 - 1 ∧
  (draw_objID Sample.irand Sample.to_id_t object_ids 2024).1 ≠ 0.
Proof.
  assert (zlength (getLabels (replicate 900 1) 30 30 3 (int_of_float minArea)).2 ≠ 0)
    as Hne by (vm_compute; congruence).
  assert (id_t_holds Sample.to_id_t 3) as Hid by (apply Sample_id_t_holds; lia).
  split; [exact Sample_irand_in_range|]. split; [exact Hid|]. split; [exact Hne|].
  exact (background_check_never_fires Sample.irand Sample.to_id_t (replicate 900 1)
           30 30 3 2024 Sample_irand_in_range Hid Hne).
Defined.

(** ** The minimum-area threshold *)

(** The counterexample to C4: in the scenario of the 20 x 20 block, class
    1 has exactly 400 pixels, and the pass ends without any hypothesis
    and without any detection. *)
Lemma boundary_block_no_detection :
  pixel_count Sample.labelmap_64 64 64 1 = 400 ∧
  (getLabels Sample.labelmap_64 64 64 2 (int_of_float minArea)).2 = [] ∧
  estimateCenter Sample.sqrtf Sample.mt19937_default Sample.negative_binomial
                 Sample.irand Sample.calcCenter Sample.sort Sample.to_id_t
                 Sample.hyp_center
                 Sample.PI Sample.getBB3D Sample.getBB2D Sample.getIoU
                 Sample.pose_quaternion Sample.nlopt_optimize
                 Sample.compute_width_height
                 0 Sample.labelmap_64 Sample.vertmap_64 Sample.extents_2
                 0 64 64 2 1000 100 100 32 32 [] 1
  = Some ([], 1).
Proof. vm_compute. repeat split; reflexivity. Qed.

(** C4, as amended.  A pass over a label map in which no class from 1 to
    [num_classes - 1] has more than 400 pixels, such as the map with one
    20 x 20 block, leaves [outputs] as it found it and draws no random
    number: no hypothesis is sampled and no detection is emitted. *)
Theorem below_min_area_no_detection {mt19937 rng : Type}
    (sqrtf : Q → Q) (mt19937_default : mt19937)
    (negative_binomial : Z → Q → mt19937 → Z * mt19937)
    (irand : Z → Z → rng → Z * rng)
    (calcCenter : Point2 → list corr → Point2)
    (sort : list TransHyp → list TransHyp) (to_id_t : Z → Z)
    (hyp_center : list corr → Point2) (PI : Q)
    (getBB3D : Point3 → list Point3)
    (getBB2D : Z → Z → list Point3 → list Q → cv_trans_t → Rect)
    (getIoU : Rect → Rect → Q)
    (pose_quaternion : cv_trans_t → (Q * Q * Q * Q) * Point3)
    (nlopt_optimize : nlopt_opt → list Q → list Q * Q)
    (compute_width_height : TransHyp → Q * Q)
    (fuel : nat) (labelmap : list Z) (vertmap extents : list Q)
    (batch height width num_classes preemptive_batch : Z) (fx fy px py : Q)
    (outputs : list roi_t) (s : rng) :
  (∀ c, 1 ≤ c < num_classes → pixel_count labelmap width height c ≤ 400) →
  estimateCenter sqrtf mt19937_default negative_binomial irand calcCenter sort
                 to_id_t hyp_center PI getBB3D getBB2D getIoU pose_quaternion
                 nlopt_optimize compute_width_height
                 fuel labelmap vertmap extents batch height width num_classes
                 preemptive_batch fx fy px py outputs s
  = Some (outputs, s).
Proof.
  intros Hsmall. unfold estimateCenter.
  pose proof (getLabels_object_ids labelmap width height num_classes
                (int_of_float minArea)) as Hids.
  destruct (getLabels labelmap width height num_classes (int_of_float minArea))
    as [labels object_ids].
  cbn [snd] in Hids. rewrite minArea_size_t in Hids.
  destruct object_ids as [|c ids]; [done|].
  exfalso. destruct (Hids c) as [Hc _].
  destruct Hc as [Hc Hlt]; [left|].
  specialize (Hsmall c Hc). lia.
Qed.

Lemma below_min_area_no_detection_witness :
  (∀ c, 1 ≤ c < 2 → pixel_count Sample.labelmap_64 64 64 c ≤ 400) ∧
  estimateCenter Sample.sqrtf Sample.mt19937_default Sample.negative_binomial
                 Sample.irand Sample.calcCenter Sample.sort Sample.to_id_t
                 Sample.hyp_center
                 Sample.PI Sample.getBB3D Sample.getBB2D Sample.getIoU
                 Sample.pose_quaternion Sample.nlopt_optimize
                 Sample.compute_width_height
                 100 Sample.labelmap_64 Sample.vertmap_64 Sample.extents_2
                 0 64 64 2 1000 100 100 32 32 [] 7
  = Some ([], 7).
Proof.
  assert (∀ c, 1 ≤ c < 2 → pixel_count Sample.labelmap_64 64 64 c ≤ 400) as Hsmall.
  { intros c Hc. assert (c = 1) as -> by lia. vm_compute. congruence. }
  split; [exact Hsmall|].
  exact (below_min_area_no_detection Sample.sqrtf Sample.mt19937_default
           Sample.negative_binomial Sample.irand Sample.calcCenter Sample.sort
           Sample.to_id_t Sample.hyp_center Sample.PI Sample.getBB3D Sample.getBB2D Sample.getIoU
           Sample.pose_quaternion Sample.nlopt_optimize Sample.compute_width_height
           100 Sample.labelmap_64 Sample.vertmap_64 Sample.extents_2
           0 64 64 2 1000 100 100 32 32 [] 7 Hsmall).
Defined.

(** ** The working queue *)

Lemma NoDup_omap_inj {A B} (f : A → option B) (l : list A) :
  (∀ x1 x2 y, f x1 = Some y → f x2 = Some y → x1 = x2) →
  NoDup l → NoDup (omap f l).
Proof.
  intros Hinj. induction 1 as [|x l Hx Hl IH]; [constructor|].
  cbn [omap list_omap]. destruct (f x) as [y|] eqn:Hfx; [|done].
  constructor; [|done].
  intros (x' & Hx' & Hfx')%list_elem_of_omap.
  assert (x' = x) as -> by eauto. done.
Qed.

Lemma elem_of_queue_of_bucket (maxIt k : Z) (b : list TransHyp) (p : hyp_ptr) :
  p ∈ queue_of_bucket maxIt k b ↔
  ∃ x, p.1 = k ∧ b !! p.2 = Some x ∧ (1 < zlength b ∨ refSteps x < maxIt).
Proof.
  unfold queue_of_bucket. rewrite list_elem_of_omap. split.
  - intros (h & _ & Hf). destruct (b !! h) as [x|] eqn:E; [|done].
    simpl in Hf. case_decide; [|done]. injection Hf as <-. by exists x.
  - intros (x & Hk & Hb & Hc). exists p.2. split.
    + apply elem_of_seq. apply lookup_lt_Some in Hb. lia.
    + rewrite Hb. simpl. rewrite decide_True by done. destruct p; simpl in *. by subst.
Qed.

Lemma NoDup_queue_of_bucket (maxIt k : Z) (b : list TransHyp) :
  NoDup (queue_of_bucket maxIt k b).
Proof.
  apply NoDup_omap_inj; [|apply NoDup_seq].
  intros h1 h2 p H1 H2.
  destruct (b !! h1); [|done]. destruct (b !! h2); [|done]. simpl in *.
  repeat case_decide; simplify_eq. done.
Qed.

(** The traversal of the registry visits every entry once, by
    ascending key. *)
Lemma hypMap_entries_perm (hm : hypMap_t) : hypMap_entries hm ≡ₚ map_to_list hm.
Proof. apply merge_sort_Permutation. Qed.

Lemma elem_of_hypMap_entries (hm : hypMap_t) (k : Z) (b : list TransHyp) :
  (k, b) ∈ hypMap_entries hm ↔ hm !! k = Some b.
Proof. rewrite hypMap_entries_perm. apply elem_of_map_to_list. Qed.

Lemma NoDup_hypMap_entries (hm : hypMap_t) : NoDup (hypMap_entries hm).
Proof. rewrite hypMap_entries_perm. apply NoDup_map_to_list. Qed.

Lemma hypMap_entries_keys (hm : hypMap_t) :
  (hypMap_entries hm).*1 ≡ₚ (map_to_list hm).*1.
Proof. by rewrite hypMap_entries_perm. Qed.

Lemma NoDup_fst_hypMap_entries (hm : hypMap_t) : NoDup (hypMap_entries hm).*1.
Proof. rewrite hypMap_entries_keys. apply NoDup_fst_map_to_list. Qed.

Lemma hypMap_entries_empty : hypMap_entries ∅ = [].
Proof. unfold hypMap_entries. by rewrite map_to_list_empty. Qed.

Lemma hypMap_entries_ascending (hm : hypMap_t) :
  StronglySorted Z.lt (hypMap_entries hm).*1.
Proof.
  assert (StronglySorted key_le (hypMap_entries hm)) as Hsorted.
  { apply StronglySorted_merge_sort.
    - intros a b c Hab Hbc. unfold key_le in *. lia.
    - intros a b. unfold key_le. lia. }
  pose proof (NoDup_fst_hypMap_entries hm) as Hnd.
  induction Hsorted as [|a l _ IH Hall]; [constructor|].
  csimpl in *. apply NoDup_cons in Hnd as [Ha Hnd].
  constructor; [by apply IH|].
  apply Forall_fmap, Forall_forall. intros b Hb.
  pose proof (proj1 (Forall_forall _ _) Hall b Hb) as Hle. unfold key_le in Hle.
  cbn. destruct (decide (a.1 = b.1)) as [Heq|Hne]; [|lia].
  exfalso. apply Ha. rewrite Heq. by apply list_elem_of_fmap_2.
Qed.

Lemma elem_of_getWorkingQueue (hm : hypMap_t) (maxIt : Z) (p : hyp_ptr) :
  p ∈ getWorkingQueue hm maxIt ↔
  ∃ b x, hm !! p.1 = Some b ∧ b !! p.2 = Some x ∧
         (1 < zlength b ∨ refSteps x < maxIt).
Proof.
  unfold getWorkingQueue. rewrite list_elem_of_bind. split.
  - intros ([k b] & Hp & Hkb). apply elem_of_hypMap_entries in Hkb.
    apply elem_of_queue_of_bucket in Hp as (x & <- & Hx & Hc). by exists b, x.
  - intros (b & x & Hb & Hx & Hc). exists (p.1, b). split.
    + apply elem_of_queue_of_bucket. by exists x.
    + by apply elem_of_hypMap_entries.
Qed.

Lemma NoDup_getWorkingQueue (hm : hypMap_t) (maxIt : Z) :
  NoDup (getWorkingQueue hm maxIt).
Proof.
  unfold getWorkingQueue. apply NoDup_bind; [| |apply NoDup_hypMap_entries].
  - intros [k1 b1] [k2 b2] p H1 H2 Hp1 Hp2.
    apply elem_of_hypMap_entries in H1, H2.
    apply elem_of_queue_of_bucket in Hp1 as (_ & <- & _).
    apply elem_of_queue_of_bucket in Hp2 as (_ & <- & _).
    by simplify_eq.
  - intros [k b] _. apply NoDup_queue_of_bucket.
Qed.

(** The working queue is empty exactly when every class that still has
    hypotheses has one, refined [maxIt] times or more. *)
Lemma getWorkingQueue_nil (hm : hypMap_t) (maxIt : Z) :
  getWorkingQueue hm maxIt = [] ↔
  ∀ k b, hm !! k = Some b → b ≠ [] → ∃ x, b = [x] ∧ maxIt ≤ refSteps x.
Proof.
  split.
  - intros Hnil k b Hb Hne.
    destruct b as [|x [|y b]]; [done| |].
    + exists x. split; [done|].
      destruct (decide (maxIt ≤ refSteps x)) as [|Hlt]; [done|]. exfalso.
      assert ((k, 0%nat) ∈ getWorkingQueue hm maxIt) as Hin.
      { apply elem_of_getWorkingQueue. exists [x], x. repeat split; [done|]. right. lia. }
      rewrite Hnil in Hin. by apply elem_of_nil in Hin.
    + exfalso.
      assert ((k, 0%nat) ∈ getWorkingQueue hm maxIt) as Hin.
      { apply elem_of_getWorkingQueue. exists (x :: y :: b), x. repeat split; [done|].
        left. unfold zlength. simpl. lia. }
      rewrite Hnil in Hin. by apply elem_of_nil in Hin.
  - intros Hall. destruct (getWorkingQueue hm maxIt) as [|p q] eqn:E; [done|]. exfalso.
    assert (p ∈ getWorkingQueue hm maxIt) as Hin by (rewrite E; left).
    apply elem_of_getWorkingQueue in Hin as (b & x & Hb & Hx & Hc).
    destruct (Hall p.1 b Hb) as (y & -> & Hy).
    { intros ->. by rewrite lookup_nil in Hx. }
    apply list_lookup_singleton_Some in Hx as [_ ->].
    unfold zlength in Hc. simpl in Hc. lia.
Qed.

(** ** Loops over the working queue *)

Lemma deref_store (f : TransHyp → TransHyp) (p q : hyp_ptr) (hm : hypMap_t) :
  deref (store f p hm) q = if decide (p = q) then f <$> deref hm q else deref hm q.
Proof.
  unfold deref, store. destruct p as [k h], q as [k' h']. cbn [fst snd].
  rewrite lookup_alter. destruct (decide (k = k')) as [->|Hk].
  - destruct (hm !! k') as [b|]; simpl.
    + rewrite list_lookup_alter. destruct (decide (h = h')) as [->|Hh].
      * by rewrite decide_True by done.
      * by rewrite decide_False by congruence.
    + by case_decide.
  - by rewrite decide_False by congruence.
Qed.

Lemma store_lookup_length (f : TransHyp → TransHyp) (p : hyp_ptr) (hm : hypMap_t) (k : Z) :
  length <$> (store f p hm !! k) = length <$> (hm !! k).
Proof.
  unfold store. rewrite lookup_alter. case_decide; [|done]. subst.
  destruct (hm !! p.1); simpl; [|done]. by rewrite length_alter.
Qed.

Section ForQueue.
Context {S : Type} (f : TransHyp → S → TransHyp * S).

Lemma deref_with_ptr (p q : hyp_ptr) (st : hypMap_t * S) :
  deref (with_ptr f p st).1 q =
  if decide (p = q) then (λ x, (f x st.2).1) <$> deref st.1 q else deref st.1 q.
Proof.
  unfold with_ptr. destruct (deref st.1 p) as [hyp|] eqn:Hp.
  - destruct (f hyp st.2) as [hyp' s'] eqn:Hf. cbn [fst]. rewrite deref_store.
    destruct (decide (p = q)) as [->|]; [|done]. rewrite Hp. simpl. by rewrite Hf.
  - destruct (decide (p = q)) as [->|]; [|done]. by rewrite Hp.
Qed.

Lemma with_ptr_lookup_length (p : hyp_ptr) (st : hypMap_t * S) (k : Z) :
  length <$> ((with_ptr f p st).1 !! k) = length <$> (st.1 !! k).
Proof.
  unfold with_ptr. destruct (deref st.1 p); [|done].
  destruct (f _ _). cbn [fst]. apply store_lookup_length.
Qed.

Lemma for_queue_lookup_length (queue : list hyp_ptr) : ∀ (st : hypMap_t * S) (k : Z),
  length <$> ((for_queue f queue st).1 !! k) = length <$> (st.1 !! k).
Proof.
  induction queue as [|p queue IH]; intros st k; [done|].
  unfold for_queue in *. cbn [foldl]. rewrite IH. apply with_ptr_lookup_length.
Qed.

(** A loop over a queue without repetitions applies its body once to
    every hypothesis of the queue and leaves the others alone. *)
Lemma for_queue_deref (queue : list hyp_ptr) :
  NoDup queue → ∀ (st : hypMap_t * S) (q : hyp_ptr),
  match deref st.1 q with
  | None => deref (for_queue f queue st).1 q = None
  | Some x =>
    if decide (q ∈ queue)
    then ∃ s0, deref (for_queue f queue st).1 q = Some (f x s0).1
    else deref (for_queue f queue st).1 q = Some x
  end.
Proof.
  induction 1 as [|p queue Hp Hnd IH]; intros st q.
  - unfold for_queue. cbn [foldl]. destruct (deref st.1 q); [|done].
    by rewrite decide_False by apply not_elem_of_nil.
  - unfold for_queue in *. cbn [foldl].
    specialize (IH (with_ptr f p st) q). rewrite deref_with_ptr in IH.
    destruct (decide (p = q)) as [->|Hne].
    + destruct (deref st.1 q) as [x|]; simpl in IH; [|done].
      rewrite decide_False in IH by done.
      rewrite decide_True by left. by exists st.2.
    + destruct (deref st.1 q) as [x|]; [|done].
      destruct (decide (q ∈ queue)) as [Hin|Hnin].
      * rewrite decide_True by (by right). done.
      * rewrite decide_False; [done|]. intros [?|?]%elem_of_cons; congruence.
Qed.

Lemma for_queue_bucket (queue : list hyp_ptr) (st : hypMap_t * S) (k : Z) :
  NoDup queue →
  match st.1 !! k with
  | None => (for_queue f queue st).1 !! k = None
  | Some b =>
    ∃ b', (for_queue f queue st).1 !! k = Some b' ∧ length b' = length b ∧
          ∀ h x, b !! h = Some x →
                 if decide ((k, h) ∈ queue)
                 then ∃ s0, b' !! h = Some (f x s0).1
                 else b' !! h = Some x
  end.
Proof.
  intros Hnd. pose proof (for_queue_lookup_length queue st k) as Hlen.
  destruct (st.1 !! k) as [b|] eqn:Hb.
  - destruct ((for_queue f queue st).1 !! k) as [b'|] eqn:Hb'; [|done].
    simpl in Hlen. injection Hlen as Hlen. exists b'. split; [done|]. split; [done|].
    intros h x Hx. pose proof (for_queue_deref queue Hnd st (k, h)) as Hd.
    unfold deref in Hd. cbn [fst snd] in Hd. rewrite Hb, Hb' in Hd. simpl in Hd.
    by rewrite Hx in Hd.
  - by destruct ((for_queue f queue st).1 !! k).
Qed.

End ForQueue.

(** ** The culling step *)

Lemma cull_phase_lookup (sort : list TransHyp → list TransHyp) (objList : list Z) :
  NoDup objList → ∀ (hm : hypMap_t) (k : Z),
  cull_phase sort objList hm !! k =
  if decide (k ∈ objList) then cull_bucket sort <$> hm !! k else hm !! k.
Proof.
  induction 1 as [|o objList Ho Hnd IH]; intros hm k.
  - unfold cull_phase. cbn [foldl]. by rewrite decide_False by apply not_elem_of_nil.
  - unfold cull_phase in *. cbn [foldl]. rewrite IH, lookup_alter.
    destruct (decide (o = k)) as [->|Hne].
    + rewrite decide_False by done. by rewrite decide_True by left.
    + destruct (decide (k ∈ objList)) as [Hin|Hnin].
      * by rewrite decide_True by (by right).
      * rewrite decide_False; [done|]. intros [?|?]%elem_of_cons; congruence.
Qed.

Lemma Sample_insert_hyp_perm (x : TransHyp) (l : list TransHyp) :
  Sample.insert_hyp x l ≡ₚ x :: l.
Proof.
  induction l as [|y l IH]; [done|]. cbn [Sample.insert_hyp].
  case_decide; [|done]. rewrite IH. apply Permutation_swap.
Qed.

Lemma Sample_insert_hyp_sorted (x : TransHyp) (l : list TransHyp) :
  StronglySorted (λ a b, ¬ TransHyp_lt b a) l →
  StronglySorted (λ a b, ¬ TransHyp_lt b a) (Sample.insert_hyp x l).
Proof.
  unfold TransHyp_lt. induction 1 as [|y l Hl IH Hy]; cbn [Sample.insert_hyp].
  - repeat constructor.
  - case_decide.
    + constructor; [done|]. rewrite Sample_insert_hyp_perm.
      constructor; [lia|done].
    + constructor; [by constructor|]. constructor; [lia|].
      eapply Forall_impl; [exact Hy|]. intros z Hz. cbn beta in *. lia.
Qed.

Lemma Sample_sort_spec : std_sort_spec Sample.sort.
Proof.
  intros l. unfold Sample.sort. induction l as [|x l [IHp IHs]].
  - split; [done|constructor].
  - cbn [foldr]. split.
    + by rewrite Sample_insert_hyp_perm, IHp.
    + by apply Sample_insert_hyp_sorted.
Qed.

(** What [cull_bucket] does to a bucket of more than one hypothesis. *)
Lemma cull_bucket_spec (sort : list TransHyp → list TransHyp) (b : list TransHyp) :
  std_sort_spec sort → 1 < zlength b →
  ∃ discarded,
    cull_bucket sort b ++ discarded ≡ₚ b ∧
    length (cull_bucket sort b) = (length b `div` 2)%nat ∧
    length discarded = (length b - length b `div` 2)%nat ∧
    ∀ x y, x ∈ cull_bucket sort b → y ∈ discarded → inliers y ≤ inliers x.
Proof.
  intros Hsort Hlen. destruct (Hsort b) as [Hperm Hsorted].
  unfold cull_bucket. rewrite decide_True by done. cbn zeta.
  pose proof (Permutation_length Hperm) as Hl. rewrite Hl.
  exists (drop (length b `div` 2)%nat (sort b)).
  pose proof (Nat.Div0.div_le_upper_bound (length b) 2 (length b) ltac:(lia)) as Hdiv.
  split; [by rewrite take_drop|]. split; [rewrite length_take; lia|].
  split; [rewrite length_drop; lia|].
  intros x y Hx Hy. rewrite <- (take_drop (length b `div` 2)%nat (sort b)) in Hsorted.
  pose proof (StronglySorted_app_1_elem_of _ _ _ x y Hsorted Hx Hy) as Hxy.
  unfold TransHyp_lt in Hxy. cbn beta in Hxy. lia.
Qed.

(** C2, as amended.  In a culling phase, a class that holds [n > 1]
    hypotheses keeps the first [floor(n / 2)] of them in the order of
    [std::sort] and loses the other [n - floor(n / 2)], that is,
    [ceil(n / 2)]: no discarded hypothesis has more inliers than a kept
    one.  [std::sort] alone decides among hypotheses of equal inlier count. *)
Theorem cull_phase_keeps_floor_half (sort : list TransHyp → list TransHyp)
    (objList : list Z) (hm : hypMap_t) (k : Z) (b : list TransHyp) :
  std_sort_spec sort →
  NoDup objList → k ∈ objList →
  hm !! k = Some b → 1 < zlength b →
  ∃ kept discarded,
    cull_phase sort objList hm !! k = Some kept ∧
    kept ++ discarded ≡ₚ b ∧
    length kept = (length b `div` 2)%nat ∧
    length discarded = (length b - length b `div` 2)%nat ∧
    (1 ≤ length kept < length b)%nat ∧
    ∀ x y, x ∈ kept → y ∈ discarded → inliers y ≤ inliers x.
Proof.
  intros Hsort Hnd Hk Hb Hlen.
  destruct (cull_bucket_spec sort b Hsort Hlen) as (discarded & Hperm & Hkept & Hdisc & Hrank).
  exists (cull_bucket sort b), discarded.
  rewrite cull_phase_lookup by done. rewrite decide_True by done. rewrite Hb.
  split; [done|]. split; [done|]. split; [done|]. split; [done|]. split; [|done].
  rewrite Hkept. unfold zlength in Hlen.
  pose proof (Nat.div_lt (length b) 2 ltac:(lia) ltac:(lia)).
  pose proof (Nat.div_le_lower_bound (length b) 2 1 ltac:(lia) ltac:(lia)). lia.
Qed.

Lemma cull_phase_keeps_floor_half_witness :
  std_sort_spec Sample.sort ∧ NoDup [1] ∧ 1 ∈ [1] ∧
  Sample.registry_of_three !! 1 = Some [Sample.hyp_with_inliers 3; Sample.hyp_with_inliers 5;
                                        Sample.hyp_with_inliers 1] ∧
  1 < zlength [Sample.hyp_with_inliers 3; Sample.hyp_with_inliers 5;
               Sample.hyp_with_inliers 1] ∧
  ∃ kept discarded,
    cull_phase Sample.sort [1] Sample.registry_of_three !! 1 = Some kept ∧
    kept ++ discarded ≡ₚ [Sample.hyp_with_inliers 3; Sample.hyp_with_inliers 5;
                          Sample.hyp_with_inliers 1] ∧
    length kept = (3 `div` 2)%nat ∧
    length discarded = (3 - 3 `div` 2)%nat ∧
    (1 ≤ length kept < 3)%nat ∧
    ∀ x y, x ∈ kept → y ∈ discarded → inliers y ≤ inliers x.
Proof.
  assert (NoDup [1]) as Hnd by (apply NoDup_singleton).
  assert (1 ∈ [1]) as Hin by (apply list_elem_of_singleton; reflexivity).
  assert (1 < zlength [Sample.hyp_with_inliers 3; Sample.hyp_with_inliers 5;
                       Sample.hyp_with_inliers 1]) as Hlen by (vm_compute; reflexivity).
  split; [exact Sample_sort_spec|]. split; [exact Hnd|]. split; [exact Hin|].
  split; [reflexivity|]. split; [exact Hlen|].
  exact (cull_phase_keeps_floor_half Sample.sort [1] Sample.registry_of_three 1 _
           Sample_sort_spec Hnd Hin eq_refl Hlen).
Defined.

(** The counterexample to C2: a class with three hypotheses, of 3, 5 and
    1 inliers, keeps one of them, the one with 5 inliers, and not two. *)
Lemma cull_phase_three_keeps_one :
  cull_phase Sample.sort [1] Sample.registry_of_three !! 1
  = Some [Sample.hyp_with_inliers 5].
Proof. vm_compute. reflexivity. Qed.

(** ** The refinement step *)

Section RefineFacts.
Context {rng : Type}.
Variables (irand : Z → Z → rng → Z * rng) (calcCenter : Point2 → list corr → Point2).

Lemma filterInliers2D_keeps (maxInliers : Z) (hyp : TransHyp) (s : rng) :
  let hyp' := (filterInliers2D irand maxInliers hyp s).1 in
  objID hyp' = objID hyp ∧ center hyp' = center hyp ∧ inliers hyp' = inliers hyp ∧
  refSteps hyp' = refSteps hyp.
Proof.
  unfold filterInliers2D. case_decide; [done|].
  by destruct (filterInliers2D_loop irand _ _ _ s).
Qed.

Lemma updateHyp2D_keeps (maxPixels : Z) (hyp : TransHyp) (s : rng) :
  let hyp' := (updateHyp2D irand calcCenter maxPixels hyp s).1 in
  objID hyp' = objID hyp ∧ inliers hyp' = inliers hyp ∧ refSteps hyp' = refSteps hyp.
Proof.
  unfold updateHyp2D. case_decide; [done|].
  pose proof (filterInliers2D_keeps maxPixels hyp s) as (? & ? & ? & ?).
  by destruct (filterInliers2D irand maxPixels hyp s).
Qed.

Lemma refine_body_keeps (hyp : TransHyp) (s : rng) :
  let hyp' := (refine_body irand calcCenter hyp s).1 in
  objID hyp' = objID hyp ∧ inliers hyp' = inliers hyp ∧
  refSteps hyp' = refSteps hyp + 1.
Proof.
  unfold refine_body.
  pose proof (updateHyp2D_keeps maxPixels_const hyp s) as (? & ? & ?).
  destruct (updateHyp2D irand calcCenter maxPixels_const hyp s). cbn in *.
  repeat split; congruence.
Qed.

Lemma refine_body_few_inliers (hyp : TransHyp) (s : rng) :
  zlength (inlierPts2D hyp) < 4 →
  (refine_body irand calcCenter hyp s).1 = set_refSteps (refSteps hyp + 1) hyp.
Proof.
  intros Hfew. unfold refine_body, updateHyp2D. by rewrite decide_True by done.
Qed.

End RefineFacts.

(** C5, as amended.  In a refinement phase, a hypothesis of the working
    queue with fewer than 4 inlier correspondences keeps its centre
    estimate, its inlier list and its inlier count, and every other member
    but one: its counter of refinement steps goes up by one, as it does
    for every hypothesis of the queue. *)
Theorem refine_phase_few_inliers {rng : Type} (irand : Z → Z → rng → Z * rng)
    (calcCenter : Point2 → list corr → Point2)
    (hm : hypMap_t) (s : rng) (p : hyp_ptr) (hyp : TransHyp) :
  p ∈ getWorkingQueue hm refIt →
  deref hm p = Some hyp →
  zlength (inlierPts2D hyp) < 4 →
  ∃ hyp',
    deref (refine_phase irand calcCenter (getWorkingQueue hm refIt) (hm, s)).1 p = Some hyp' ∧
    hyp' = set_refSteps (refSteps hyp + 1) hyp ∧
    center hyp' = center hyp ∧
    inlierPts2D hyp' = inlierPts2D hyp ∧
    inliers hyp' = inliers hyp ∧
    refSteps hyp' = refSteps hyp + 1.
Proof.
  intros Hin Hp Hfew. unfold refine_phase.
  pose proof (for_queue_deref (refine_body irand calcCenter) _
                (NoDup_getWorkingQueue hm refIt) (hm, s) p) as Hd.
  cbn [fst] in Hd. rewrite Hp in Hd. rewrite decide_True in Hd by done.
  destruct Hd as [s0 Hd]. rewrite refine_body_few_inliers in Hd by done.
  eexists. split; [exact Hd|]. done.
Qed.

Lemma refine_phase_few_inliers_witness :
  (1, 0%nat) ∈ getWorkingQueue Sample.registry_of_one refIt ∧
  deref Sample.registry_of_one (1, 0%nat) = Some (TransHyp_new 1 (mkPoint2 5 5)) ∧
  zlength (inlierPts2D (TransHyp_new 1 (mkPoint2 5 5))) < 4 ∧
  ∃ hyp',
    deref (refine_phase Sample.irand Sample.calcCenter
             (getWorkingQueue Sample.registry_of_one refIt)
             (Sample.registry_of_one, 1)).1 (1, 0%nat) = Some hyp' ∧
    hyp' = set_refSteps (refSteps (TransHyp_new 1 (mkPoint2 5 5)) + 1)
                        (TransHyp_new 1 (mkPoint2 5 5)) ∧
    center hyp' = center (TransHyp_new 1 (mkPoint2 5 5)) ∧
    inlierPts2D hyp' = inlierPts2D (TransHyp_new 1 (mkPoint2 5 5)) ∧
    inliers hyp' = inliers (TransHyp_new 1 (mkPoint2 5 5)) ∧
    refSteps hyp' = refSteps (TransHyp_new 1 (mkPoint2 5 5)) + 1.
Proof.
  assert ((1, 0%nat) ∈ getWorkingQueue Sample.registry_of_one refIt) as Hin.
  { vm_compute. left. }
  assert (zlength (inlierPts2D (TransHyp_new 1 (mkPoint2 5 5))) < 4) as Hfew
    by (vm_compute; reflexivity).
  split; [exact Hin|]. split; [reflexivity|]. split; [exact Hfew|].
  exact (refine_phase_few_inliers Sample.irand Sample.calcCenter
           Sample.registry_of_one 1 (1, 0%nat) _ Hin eq_refl Hfew).
Defined.

(** The counterexample to C5: the lone new hypothesis of class 1 has no
    inlier and a counter of 0; it is in the working queue, and after the
    refinement phase its counter is 1. *)
Lemma refine_phase_counts_unrefined :
  getWorkingQueue Sample.registry_of_one refIt = [(1, 0%nat)] ∧
  (inlierPts2D <$> deref Sample.registry_of_one (1, 0%nat)) = Some [] ∧
  (refSteps <$> deref Sample.registry_of_one (1, 0%nat)) = Some 0 ∧
  (refSteps <$> deref (refine_phase Sample.irand Sample.calcCenter
                         (getWorkingQueue Sample.registry_of_one refIt)
                         (Sample.registry_of_one, 1)).1 (1, 0%nat)) = Some 1.
Proof. vm_compute. repeat split; reflexivity. Qed.

(** ** The main loop *)

Lemma sum_list_with_Forall2_le {A} (f : A → nat) (l k : list A) :
  Forall2 (λ x y, (f y ≤ f x)%nat) l k →
  (sum_list_with f k ≤ sum_list_with f l)%nat.
Proof. induction 1; simpl; lia. Qed.

Lemma sum_list_with_take {A} (f : A → nat) (n : nat) (l : list A) :
  (sum_list_with f (take n l) ≤ sum_list_with f l)%nat.
Proof.
  rewrite <- (take_drop n l) at 2. rewrite sum_list_with_app. lia.
Qed.

Lemma bucket_measure_zero (b : list TransHyp) :
  bucket_measure b = 0%nat ↔ (b ≠ [] → ∃ x, b = [x] ∧ refIt ≤ refSteps x).
Proof.
  unfold bucket_measure, steps_left. destruct b as [|x [|y b]]; simpl.
  - split; [done|lia].
  - split.
    + intros H _. exists x. split; [done|]. lia.
    + intros H. destruct H as (x' & [= <-] & Hx); [done|]. lia.
  - split; [lia|]. intros H. destruct H as (x' & [=] & _). done.
Qed.

Lemma registry_bound_zero (hm : hypMap_t) :
  registry_bound 0 hm ↔ getWorkingQueue hm refIt = [].
Proof.
  rewrite getWorkingQueue_nil. unfold registry_bound. split.
  - intros H k b Hb. apply bucket_measure_zero. specialize (H k b Hb). lia.
  - intros H k b Hb. specialize (H k b Hb). apply bucket_measure_zero in H. lia.
Qed.

Lemma registry_bound_exists (hm : hypMap_t) : ∃ n, registry_bound n hm.
Proof.
  induction hm as [|k b hm Hk _ [n IH]] using map_first_key_ind.
  - exists 0%nat. intros k b Hb. by rewrite lookup_empty in Hb.
  - exists (n `max` bucket_measure b)%nat. intros k' b' Hb'.
    apply lookup_insert_Some in Hb' as [[_ <-]|[_ Hb']]; [lia|].
    specialize (IH k' b' Hb'). lia.
Qed.

(** A list names the classes of a registry, each once. *)
Lemma keys_perm_iff (objList : list Z) (hm : hypMap_t) :
  objList ≡ₚ (map_to_list hm).*1 ↔
  NoDup objList ∧ ∀ k, k ∈ objList ↔ is_Some (hm !! k).
Proof.
  assert (∀ k, k ∈ (map_to_list hm).*1 ↔ is_Some (hm !! k)) as Hkeys.
  { intros k. rewrite list_elem_of_fmap. split.
    - intros ([k' b] & -> & Hin). apply elem_of_map_to_list in Hin. by exists b.
    - intros [b Hb]. exists (k, b). split; [done|]. by apply elem_of_map_to_list. }
  split.
  - intros Hperm. split.
    + rewrite Hperm. apply NoDup_fst_map_to_list.
    + intros k. by rewrite Hperm.
  - intros [Hnd Hin]. apply NoDup_Permutation; [done|apply NoDup_fst_map_to_list|].
    intros k. by rewrite Hin, Hkeys.
Qed.

Section LoopFacts.
Context {mt19937 rng : Type}.
Variables (sqrtf : Q → Q) (mt19937_default : mt19937)
          (negative_binomial : Z → Q → mt19937 → Z * mt19937)
          (irand : Z → Z → rng → Z * rng)
          (calcCenter : Point2 → list corr → Point2)
          (sort : list TransHyp → list TransHyp)
          (vertmap : list Q) (labels : list (list Z))
          (width num_classes preemptiveBatch : Z).

Hypothesis sort_perm : ∀ l, sort l ≡ₚ l.

Local Abbreviation pass :=
  (ransac_pass sqrtf mt19937_default negative_binomial irand calcCenter sort
               vertmap labels width num_classes preemptiveBatch).
Local Abbreviation loop :=
  (ransac_loop sqrtf mt19937_default negative_binomial irand calcCenter sort
               vertmap labels width num_classes preemptiveBatch).

(** One pass, seen from the bucket of one class: inlier counting leaves
    class ids and step counters as they are, culling applies
    [cull_bucket], and refinement adds one step to every hypothesis of the
    new working queue. *)
Lemma ransac_pass_bucket (objList : list Z) (st : hypMap_t * rng) (k : Z) :
  NoDup objList →
  match st.1 !! k with
  | None => (pass objList (getWorkingQueue st.1 refIt) st).1 !! k = None
  | Some b =>
    k ∈ objList →
    ∃ b1 b3,
      (pass objList (getWorkingQueue st.1 refIt) st).1 !! k = Some b3 ∧
      Forall2 (λ x x1, objID x1 = objID x ∧ refSteps x1 = refSteps x) b b1 ∧
      length b3 = length (cull_bucket sort b1) ∧
      ∀ h x, cull_bucket sort b1 !! h = Some x →
        ∃ x3, b3 !! h = Some x3 ∧ objID x3 = objID x ∧
              if decide (1 < zlength (cull_bucket sort b1) ∨ refSteps x < refIt)
              then refSteps x3 = refSteps x + 1 else x3 = x
  end.
Proof.
  intros Hnd. unfold ransac_pass, count_phase, refine_phase.
  set (fcount := λ (hyp : TransHyp) (_ : unit),
         (countInliers2D sqrtf mt19937_default negative_binomial vertmap labels
                         inlierThreshold3D width num_classes preemptiveBatch hyp, tt)).
  set (queue := getWorkingQueue st.1 refIt).
  pose proof (for_queue_bucket fcount queue (st.1, tt) k
                (NoDup_getWorkingQueue st.1 refIt)) as H1.
  cbn [fst] in H1.
  set (hm1 := (for_queue fcount queue (st.1, tt)).1) in *.
  pose proof (cull_phase_lookup sort objList Hnd hm1 k) as H2.
  set (hm2 := cull_phase sort objList hm1) in *.
  set (queue2 := getWorkingQueue hm2 refIt).
  pose proof (for_queue_bucket (refine_body irand calcCenter) queue2 (hm2, st.2) k
                (NoDup_getWorkingQueue hm2 refIt)) as H3.
  cbn [fst snd] in H3.
  destruct (st.1 !! k) as [b|] eqn:Hb.
  - intros Hk. destruct H1 as (b1 & Hb1 & Hlen1 & Hpt1).
    rewrite decide_True in H2 by done. rewrite Hb1 in H2. simpl in H2.
    rewrite H2 in H3. destruct H3 as (b3 & Hb3 & Hlen3 & Hpt3).
    exists b1, b3. split; [done|]. split; [|split; [done|]].
    + apply Forall2_same_length_lookup_2; [done|].
      intros h x x1 Hx Hx1. specialize (Hpt1 h x Hx).
      destruct (decide ((k, h) ∈ queue)).
      * destruct Hpt1 as [[] Hpt1]. rewrite Hx1 in Hpt1. injection Hpt1 as ->.
        subst fcount. cbn [fst].
        pose proof (countInliers2D_keeps sqrtf mt19937_default negative_binomial
                      vertmap labels inlierThreshold3D width num_classes
                      preemptiveBatch x) as (? & _ & ?). done.
      * rewrite Hx1 in Hpt1. by injection Hpt1 as ->.
    + intros h x Hx. specialize (Hpt3 h x Hx).
      pose proof (elem_of_getWorkingQueue hm2 refIt (k, h)) as Hq. cbn [fst snd] in Hq.
      fold queue2 in Hq.
      destruct (decide ((k, h) ∈ queue2)) as [Hin|Hnin].
      * destruct Hpt3 as [s0 Hpt3]. eexists. split; [exact Hpt3|].
        pose proof (refine_body_keeps irand calcCenter x s0) as (? & _ & ?).
        split; [done|].
        apply Hq in Hin as (b2 & x' & Hb2 & Hx' & Hc).
        rewrite H2 in Hb2. injection Hb2 as <-. rewrite Hx in Hx'. injection Hx' as <-.
        by rewrite decide_True by done.
      * exists x. split; [done|]. split; [done|].
        rewrite decide_False; [done|]. intros Hc. apply Hnin, Hq.
        by exists (cull_bucket sort b1), x.
  - destruct (decide (k ∈ objList)); rewrite H1 in H2; simpl in H2;
      rewrite H2 in H3; exact H3.
Qed.

(** The measure of a bucket never grows in a pass, and it shrinks as long
    as it is not zero. *)
Lemma ransac_pass_measure (objList : list Z) (st : hypMap_t * rng) (k : Z)
    (b : list TransHyp) :
  NoDup objList → k ∈ objList → st.1 !! k = Some b →
  ∃ b3, (pass objList (getWorkingQueue st.1 refIt) st).1 !! k = Some b3 ∧
        (length b3 ≤ length b)%nat ∧
        (1 < length b → length b3 < length b)%nat ∧
        (∀ x, b = [x] → refSteps x < refIt →
              ∃ x3, b3 = [x3] ∧ refSteps x3 = refSteps x + 1) ∧
        Forall (λ x3, ∃ x, x ∈ b ∧ objID x3 = objID x) b3 ∧
        (bucket_measure b3 ≤ bucket_measure b)%nat ∧
        (0 < bucket_measure b → bucket_measure b3 < bucket_measure b)%nat.
Proof.
  intros Hnd Hk Hb. pose proof (ransac_pass_bucket objList st k Hnd) as H.
  rewrite Hb in H. destruct (H Hk) as (b1 & b3 & Hb3 & Hcount & Hlen3 & Hpt3).
  clear H. exists b3. split; [done|].
  pose proof (Forall2_length _ _ _ Hcount) as Hlen1.
  assert (sum_list_with steps_left b1 = sum_list_with steps_left b) as Hsum1.
  { clear -Hcount. induction Hcount as [|x x1 b b1 [_ Hx] _ IH]; [done|].
    simpl. unfold steps_left at 1 3. rewrite Hx, IH. done. }
  assert (Forall (λ x2, ∃ x, x ∈ b ∧ objID x2 = objID x) b1) as Hobj1.
  { clear -Hcount. induction Hcount as [|x x1 b b1 [Hx _] _ IH]; [constructor|].
    constructor.
    - exists x. split; [left|done].
    - eapply Forall_impl; [exact IH|]. intros y (x' & ? & ?). exists x'. split; [by right|done]. }
  set (b2 := cull_bucket sort b1) in *.
  assert (Forall2 (λ x x3, objID x3 = objID x ∧ (steps_left x3 ≤ steps_left x)%nat) b2 b3)
    as Hrefine.
  { apply Forall2_same_length_lookup_2; [done|]. intros h x x3 Hx Hx3.
    destruct (Hpt3 h x Hx) as (x3' & Hx3' & Hid & Hstep).
    rewrite Hx3 in Hx3'. injection Hx3' as <-. split; [done|].
    unfold steps_left. case_decide; [lia|]. by subst. }
  assert (sum_list_with steps_left b3 ≤ sum_list_with steps_left b2)%nat as Hsum3.
  { apply sum_list_with_Forall2_le. eapply Forall2_impl; [exact Hrefine|].
    intros x x3 [_ Hle]. exact Hle. }
  assert (b2 ⊆ b1) as Hsub.
  { unfold b2, cull_bucket. destruct (decide (1 < zlength b1)); [|reflexivity]. cbn zeta.
    etransitivity; [apply subseteq_take|].
    unfold subseteq, list_subseteq. intros x Hx. by rewrite (sort_perm b1) in Hx. }
  assert (Forall (λ x3, ∃ x, x ∈ b ∧ objID x3 = objID x) b3) as Hobj3.
  { apply Forall_forall. intros x3 Hx3.
    apply list_elem_of_lookup in Hx3 as [h Hx3].
    destruct (Forall2_lookup_r _ _ _ _ _ Hrefine Hx3) as (x2 & Hx2 & Hid & _).
    apply list_elem_of_lookup_2, Hsub in Hx2.
    rewrite Forall_forall in Hobj1. destruct (Hobj1 x2 Hx2) as (x & ? & ?).
    exists x. split; [done|congruence]. }
  destruct (decide (1 < zlength b1)) as [Hmany|Hfew].
  - assert (length b2 = (length b1 `div` 2)%nat ∧
            (sum_list_with steps_left b2 ≤ sum_list_with steps_left b1)%nat) as [Hlen2 Hsum2].
    { unfold b2, cull_bucket. rewrite decide_True by done. cbn zeta.
      pose proof (Permutation_length (sort_perm b1)) as Hl. rewrite Hl.
      pose proof (Nat.Div0.div_le_upper_bound (length b1) 2 (length b1) ltac:(lia)).
      split; [rewrite length_take; lia|].
      etransitivity; [apply sum_list_with_take|]. by rewrite (sort_perm b1). }
    unfold zlength in Hmany.
    pose proof (Nat.div_lt (length b1) 2 ltac:(lia) ltac:(lia)).
    pose proof (Nat.div_le_lower_bound (length b1) 2 1 ltac:(lia) ltac:(lia)).
    split; [lia|]. split; [lia|]. split.
    { intros x -> _. simpl in Hlen1. lia. }
    split; [done|]. unfold bucket_measure. lia.
  - assert (b2 = b1) as Hb2 by (unfold b2, cull_bucket; by rewrite decide_False).
    clearbody b2. subst b2. unfold zlength in Hfew.
    split; [lia|]. split; [lia|]. split; [|split; [done|]].
    + intros x -> Hx. inversion Hcount as [|? x1 ? ? [_ Hx1] Hnil]; subst.
      inversion Hnil; subst.
      destruct (Hpt3 0%nat x1 eq_refl) as (x3 & Hx3 & _ & Hstep).
      rewrite decide_True in Hstep by (right; lia).
      destruct b3 as [|y [|??]]; simplify_eq/=. exists x3. split; [done|lia].
    + destruct b1 as [|x1 [|??]]; [| |simpl in Hfew; lia].
      * destruct b3; [|done]. destruct b; [|done]. unfold bucket_measure. simpl. lia.
      * destruct b3 as [|x3 [|??]]; [done| |done].
        destruct b as [|x [|??]]; [done| |done].
        inversion Hcount as [|? ? ? ? [_ Hx1] _]; subst.
        destruct (Hpt3 0%nat x1 eq_refl) as (x3' & [= <-] & _ & Hstep).
        unfold bucket_measure, steps_left. simpl.
        case_decide as Hc.
        -- rewrite Hstep, Hx1. lia.
        -- subst x3. rewrite Hx1. unfold zlength in Hc. simpl in Hc. lia.
Qed.

Lemma ransac_pass_keys (objList : list Z) (st : hypMap_t * rng) :
  NoDup objList → (∀ k, k ∈ objList ↔ is_Some (st.1 !! k)) →
  ∀ k, k ∈ objList ↔
       is_Some ((pass objList (getWorkingQueue st.1 refIt) st).1 !! k).
Proof.
  intros Hnd Hkeys k. rewrite Hkeys.
  pose proof (ransac_pass_bucket objList st k Hnd) as H.
  destruct (st.1 !! k) as [b|] eqn:Hb.
  - destruct H as (b1 & b3 & -> & _); [apply Hkeys; by rewrite Hb|]. done.
  - rewrite H. done.
Qed.

Lemma ransac_pass_bound (n : nat) (objList : list Z) (st : hypMap_t * rng) :
  NoDup objList → (∀ k, k ∈ objList ↔ is_Some (st.1 !! k)) →
  registry_bound (S n) st.1 →
  registry_bound n (pass objList (getWorkingQueue st.1 refIt) st).1.
Proof.
  intros Hnd Hkeys Hbound k b3 Hb3.
  assert (k ∈ objList) as Hk.
  { apply (ransac_pass_keys objList st Hnd Hkeys k). by rewrite Hb3. }
  pose proof Hk as [b Hb]%Hkeys.
  destruct (ransac_pass_measure objList st k b Hnd Hk Hb)
    as (b3' & Hb3' & _ & _ & _ & _ & Hle & Hlt).
  rewrite Hb3 in Hb3'. injection Hb3' as <-.
  specialize (Hbound k b Hb). lia.
Qed.

(** With as much fuel as the bound of the registry, the loop ends. *)
Lemma ransac_loop_enough (objList : list Z) (n : nat) : ∀ fuel (st : hypMap_t * rng),
  NoDup objList → (∀ k, k ∈ objList ↔ is_Some (st.1 !! k)) →
  registry_bound n st.1 → (n ≤ fuel)%nat →
  ∃ st', loop fuel objList st = Some st' ∧
         getWorkingQueue st'.1 refIt = [] ∧
         (∀ k, k ∈ objList ↔ is_Some (st'.1 !! k)).
Proof.
  induction n as [|n IH]; intros fuel st Hnd Hkeys Hbound Hfuel.
  - apply registry_bound_zero in Hbound. exists st.
    split; [|done]. destruct fuel; simpl; by rewrite Hbound.
  - destruct (getWorkingQueue st.1 refIt) as [|p q] eqn:Hq.
    + exists st. split; [|done]. destruct fuel; simpl; by rewrite Hq.
    + destruct fuel as [|fuel]; [lia|]. cbn [ransac_loop]. rewrite Hq. rewrite <- Hq.
      apply IH; [done| |by apply ransac_pass_bound|lia].
      exact (ransac_pass_keys objList st Hnd Hkeys).
Qed.

(** C7.  Let [objList] name the classes of the registry [hm].
    (1) In a pass of the main loop, the number of hypotheses of a class
    does not grow, and it shrinks when it is above 1; the counter of a
    lone hypothesis that is below the minimum of 8 goes up by one.
    (2) After the pass, [objList] still names the classes of the registry,
    so that (1) holds for the next pass as well.
    (3) The loop terminates: there is a number of iterations that
    suffices, and the registry that the loop returns is final: every class
    with hypotheses has one, refined 8 times or more.
    (4) The loop ends without a further pass exactly when the registry is
    final, which is when the working queue is empty. *)
Theorem ransac_loop_terminates (objList : list Z) (hm : hypMap_t) (s : rng) :
  objList ≡ₚ (map_to_list hm).*1 →
  (∀ k b, hm !! k = Some b →
     ∃ b', (pass objList (getWorkingQueue hm refIt) (hm, s)).1 !! k = Some b' ∧
           (length b' ≤ length b)%nat ∧
           (1 < length b → length b' < length b)%nat ∧
           (∀ x, b = [x] → refSteps x < refIt →
                 ∃ x', b' = [x'] ∧ refSteps x' = refSteps x + 1)) ∧
  objList ≡ₚ (map_to_list (pass objList (getWorkingQueue hm refIt) (hm, s)).1).*1 ∧
  (∃ n, ∀ fuel, (n ≤ fuel)%nat →
     ∃ st', loop fuel objList (hm, s) = Some st' ∧ registry_final st'.1) ∧
  (loop 0 objList (hm, s) = Some (hm, s) ↔ registry_final hm) ∧
  (registry_final hm ↔ getWorkingQueue hm refIt = []).
Proof.
  intros [Hnd Hkeys]%keys_perm_iff.
  assert (registry_final hm ↔ getWorkingQueue hm refIt = []) as Hfinal.
  { symmetry. apply getWorkingQueue_nil. }
  split; [|split; [|split; [|split; [|done]]]].
  - intros k b Hb.
    assert (k ∈ objList) as Hk by (apply Hkeys; by rewrite Hb).
    destruct (ransac_pass_measure objList (hm, s) k b Hnd Hk Hb)
      as (b' & Hb' & Hle & Hlt & Hone & _).
    by exists b'.
  - apply keys_perm_iff. split; [done|].
    exact (ransac_pass_keys objList (hm, s) Hnd Hkeys).
  - destruct (registry_bound_exists hm) as [n Hn]. exists n. intros fuel Hfuel.
    destruct (ransac_loop_enough objList n fuel (hm, s) Hnd Hkeys Hn Hfuel)
      as (st' & Hloop & Hq & _).
    exists st'. split; [done|]. unfold registry_final.
    by apply (getWorkingQueue_nil st'.1 refIt).
  - rewrite Hfinal. cbn [ransac_loop fst].
    destruct (getWorkingQueue hm refIt); [done|]. split; done.
Qed.

Lemma ransac_pass_classes (P : Z → Prop) (objList : list Z) (st : hypMap_t * rng) :
  NoDup objList → (∀ k, k ∈ objList ↔ is_Some (st.1 !! k)) →
  registry_classes P st.1 →
  registry_classes P (pass objList (getWorkingQueue st.1 refIt) st).1.
Proof.
  intros Hnd Hkeys Hst k b3 x3 Hb3 Hx3.
  assert (k ∈ objList) as Hk.
  { apply (ransac_pass_keys objList st Hnd Hkeys k). by rewrite Hb3. }
  pose proof Hk as [b Hb]%Hkeys.
  destruct (ransac_pass_measure objList st k b Hnd Hk Hb)
    as (b3' & Hb3' & _ & _ & _ & Hobj & _).
  rewrite Hb3 in Hb3'. injection Hb3' as <-.
  rewrite Forall_forall in Hobj. destruct (Hobj x3 Hx3) as (x & Hx & ->).
  by eapply Hst.
Qed.

Lemma ransac_loop_classes (P : Z → Prop) (objList : list Z) (fuel : nat) :
  ∀ (st st' : hypMap_t * rng),
  NoDup objList → (∀ k, k ∈ objList ↔ is_Some (st.1 !! k)) →
  registry_classes P st.1 →
  loop fuel objList st = Some st' → registry_classes P st'.1.
Proof.
  induction fuel as [|fuel IH]; intros st st' Hnd Hkeys Hst; cbn [ransac_loop].
  - destruct (getWorkingQueue st.1 refIt); [|done]. by intros [= <-].
  - destruct (getWorkingQueue st.1 refIt) as [|p q] eqn:Hq; [by intros [= <-]|].
    rewrite <- Hq. apply IH; [done| |by apply ransac_pass_classes].
    exact (ransac_pass_keys objList st Hnd Hkeys).
Qed.

End LoopFacts.

Lemma Sample_sort_perm (l : list TransHyp) : Sample.sort l ≡ₚ l.
Proof. apply Sample_sort_spec. Qed.

Lemma ransac_loop_terminates_witness :
  (∀ l, Sample.sort l ≡ₚ l) ∧
  [1] ≡ₚ (map_to_list Sample.registry_of_three).*1 ∧
  ∃ n, ∀ fuel, (n ≤ fuel)%nat →
    ∃ st', ransac_loop Sample.sqrtf Sample.mt19937_default Sample.negative_binomial
                       Sample.irand Sample.calcCenter Sample.sort Sample.vertmap_4x3
                       (getLabels Sample.labelmap_4x3 4 3 2 0).1 4 2 3
                       fuel [1] (Sample.registry_of_three, 1) = Some st' ∧
           registry_final st'.1.
Proof.
  assert ([1] ≡ₚ (map_to_list Sample.registry_of_three).*1) as Hkeys by reflexivity.
  split; [exact Sample_sort_perm|]. split; [exact Hkeys|].
  destruct (ransac_loop_terminates Sample.sqrtf Sample.mt19937_default
              Sample.negative_binomial Sample.irand Sample.calcCenter Sample.sort
              Sample.vertmap_4x3 (getLabels Sample.labelmap_4x3 4 3 2 0).1 4 2 3
              Sample_sort_perm [1] Sample.registry_of_three 1 Hkeys)
    as (_ & _ & Hterm & _).
  exact Hterm.
Defined.

(** ** Classes of the hypotheses and of the detections *)

Section SamplingFacts.
Context {rng : Type}.
Variables (irand : Z → Z → rng → Z * rng) (to_id_t : Z → Z)
          (hyp_center : list corr → Point2)
          (vertmap : list Q) (labels : list (list Z)) (object_ids : list Z)
          (width num_classes : Z).

Local Abbreviation attempt :=
  (sample_attempt irand to_id_t hyp_center vertmap labels object_ids width num_classes).
Local Abbreviation slot :=
  (sample_slot irand to_id_t hyp_center vertmap labels object_ids width num_classes).

Lemma sample_attempt_class (s s' : rng) (hyp : TransHyp) :
  attempt s = (Some hyp, s') → objID hyp = (draw_objID irand to_id_t object_ids s).1.
Proof.
  unfold sample_attempt. destruct (draw_objID irand to_id_t object_ids s) as [o s1].
  case_decide; [done|].
  destruct (irand 0 _ s1) as [i1 s2]. unfold samplePoint2D. cbn [negb].
  destruct (irand 0 _ s2) as [i2 s3]. cbn [negb]. by intros [= <- _].
Qed.

Lemma sample_slot_class (budget : positive) : ∀ (s s' : rng) (hyp : TransHyp),
  slot budget s = (Some hyp, s') →
  ∃ s0, objID hyp = (draw_objID irand to_id_t object_ids s0).1.
Proof.
  induction budget as [p IH|p IH|]; intros s s' hyp; cbn [sample_slot].
  - destruct (attempt s) as [[h1|] s1] eqn:H1.
    + intros [= <- _]. eexists. by eapply sample_attempt_class.
    + destruct (slot p s1) as [[h2|] s2] eqn:H2.
      * intros [= <- _]. by eapply IH.
      * apply IH.
  - destruct (slot p s) as [[h1|] s1] eqn:H1.
    + intros [= <- _]. by eapply IH.
    + apply IH.
  - intros H. eexists. by eapply sample_attempt_class.
Qed.

Lemma hypMap_push_back_classes (P : Z → Prop) (hyp : TransHyp) (hm : hypMap_t) :
  P (objID hyp) → registry_classes P hm → registry_classes P (hypMap_push_back hyp hm).
Proof.
  intros Hhyp Hhm k b x Hb Hx. unfold hypMap_push_back in Hb.
  apply lookup_insert_Some in Hb as [[_ <-]|[_ Hb]]; [|by eapply Hhm].
  apply elem_of_app in Hx as [Hx|Hx].
  - destruct (hm !! objID hyp) as [b0|] eqn:Hb0; simpl in Hx.
    + by eapply Hhm.
    + by apply elem_of_nil in Hx.
  - apply list_elem_of_singleton in Hx. by subst.
Qed.

Lemma sample_hyps_classes (P : Z → Prop) (slots : nat) : ∀ (st : hypMap_t * rng),
  (∀ s0, P (draw_objID irand to_id_t object_ids s0).1) →
  registry_classes P st.1 →
  registry_classes P
    (sample_hyps irand to_id_t hyp_center vertmap labels object_ids width num_classes
                 slots st).1.
Proof.
  induction slots as [|slots IH]; intros st HP Hst; [done|].
  cbn [sample_hyps]. destruct (slot maxIterations st.2) as [[hyp|] s1] eqn:Hslot.
  - apply IH; [done|]. cbn [fst]. apply hypMap_push_back_classes; [|done].
    apply sample_slot_class in Hslot as [s0 ->]. apply HP.
  - by apply IH.
Qed.

End SamplingFacts.

Section FinalizeFacts.
Variables (PI : Q)
          (getBB2D : Z → Z → list Point3 → list Q → cv_trans_t → Rect)
          (getIoU : Rect → Rect → Q)
          (pose_quaternion : cv_trans_t → (Q * Q * Q * Q) * Point3)
          (nlopt_optimize : nlopt_opt → list Q → list Q * Q)
          (compute_width_height : TransHyp → Q * Q)
          (batch height width : Z) (fx fy px py : Q)
          (bb3Ds : list (list Point3)) (camMat : list Q).

Local Abbreviation fin_hyp :=
  (finalize_hyp PI getBB2D getIoU pose_quaternion nlopt_optimize compute_width_height
                batch height width fx fy px py bb3Ds camMat).

(** The detections of one hypothesis: five are appended; they carry the
    batch index and the class id of the hypothesis, and the four jittered
    ones repeat the primary one in all entries but 2, 3 and 4. *)
Lemma finalize_hyp_shape (hyp : TransHyp) (outputs : list roi_t) :
  ∃ r0 r1 r2 r3 r4,
    fin_hyp hyp outputs = outputs ++ [r0; r1; r2; r3; r4] ∧
    rdf r0 0 = float_of_int batch ∧
    rdf r0 1 = float_of_int (objID hyp) ∧
    ∀ r, r ∈ [r1; r2; r3; r4] →
         ∀ p, p ≠ 2 → p ≠ 3 → p ≠ 4 → rdf r p = rdf r0 p.
Proof.
  unfold finalize_hyp.
  destruct (center_roi_batch_class compute_width_height batch height width hyp)
    as [Hbatch Hclass].
  set (roi := center_roi compute_width_height batch height width hyp) in *.
  destruct (pose_start height width fx fy px py bb3Ds camMat roi) as [vec data].
  destruct (poseWithOpt PI getBB2D getIoU nlopt_optimize vec data poseIterations)
    as [vec' energy].
  destruct (pose_quaternion (trans_of_vec vec')) as [[[[qw qx] qy] qz] [[tx ty] tz]].
  cbn zeta.
  match goal with
  | |- context [jitter_rois ?r outputs] =>
    destruct (jitter_rois_shape r outputs) as (r1 & r2 & r3 & r4 & Heq & Hsame);
    exists r, r1, r2, r3, r4
  end.
  split; [exact Heq|]. rewrite !rdf_insert_ne by lia. done.
Qed.

Lemma foldl_finalize_hyp (hs : list TransHyp) : ∀ (outputs : list roi_t),
  ∃ new,
    foldl (λ outputs hyp, fin_hyp hyp outputs) outputs hs = outputs ++ new ∧
    length new = (5 * length hs)%nat ∧
    Forall (λ roi, ∃ hyp, hyp ∈ hs ∧ rdf roi 0 = float_of_int batch ∧
                          rdf roi 1 = float_of_int (objID hyp)) new.
Proof.
  induction hs as [|hyp hs IH]; intros outputs.
  - exists []. split; [by rewrite app_nil_r|]. split; [done|constructor].
  - cbn [foldl].
    destruct (finalize_hyp_shape hyp outputs)
      as (r0 & r1 & r2 & r3 & r4 & -> & Hb & Hc & Hsame).
    destruct (IH (outputs ++ [r0; r1; r2; r3; r4])) as (new & -> & Hlen & Hall).
    exists ([r0; r1; r2; r3; r4] ++ new). split; [by rewrite <- (assoc_L (++))|].
    split; [rewrite length_app, Hlen; simpl; lia|].
    apply Forall_app. split.
    + apply Forall_forall. intros r Hr. exists hyp. split; [left|].
      apply elem_of_cons in Hr as [->|Hr]; [done|].
      rewrite !(Hsame r Hr) by lia. done.
    + eapply Forall_impl; [exact Hall|]. intros r (h & Hh & ?). exists h.
      split; [by right|done].
Qed.

Lemma finalize_classes (hm : hypMap_t) (outputs : list roi_t) :
  ∃ new,
    finalize PI getBB2D getIoU pose_quaternion nlopt_optimize compute_width_height
             batch height width fx fy px py bb3Ds camMat hm outputs = outputs ++ new ∧
    Forall (λ roi, ∃ k b hyp, hm !! k = Some b ∧ hyp ∈ b ∧
                              rdf roi 0 = float_of_int batch ∧
                              rdf roi 1 = float_of_int (objID hyp)) new.
Proof.
  unfold finalize.
  destruct (foldl_finalize_hyp ('(_, b) ← hypMap_entries hm; b) outputs)
    as (new & -> & _ & Hall).
  exists new. split; [done|]. eapply Forall_impl; [exact Hall|].
  intros roi (hyp & Hin & ? & ?).
  apply list_elem_of_bind in Hin as ([k b] & Hhyp & Hkb).
  apply elem_of_hypMap_entries in Hkb. by exists k, b, hyp.
Qed.

End FinalizeFacts.

(** ** The pose optimiser in the last loop *)





Section FinalizeBlocks.
Variables (PI : Q)
          (getBB2D : Z → Z → list Point3 → list Q → cv_trans_t → Rect)
          (getIoU : Rect → Rect → Q)
          (pose_quaternion : cv_trans_t → (Q * Q * Q * Q) * Point3)
          (nlopt_optimize : nlopt_opt → list Q → list Q * Q)
          (compute_width_height : TransHyp → Q * Q)
          (batch height width : Z) (fx fy px py : Q)
          (bb3Ds : list (list Point3)) (camMat : list Q).

Local Abbreviation fin_hyp :=
  (finalize_hyp PI getBB2D getIoU pose_quaternion nlopt_optimize compute_width_height
                batch height width fx fy px py bb3Ds camMat).



End FinalizeBlocks.



(** C3.  A pass of [estimateCenter] terminates, and every detection that
    it appends to [outputs] has a class id [c] with [1 <= c < num_classes],
    hence not 0, and with strictly more than 400 pixels of label [c] in
    the label map: only such classes enter the list of active classes, and
    only active classes get hypotheses. *)
Theorem detections_only_of_large_classes {mt19937 rng : Type}
    (sqrtf : Q → Q) (mt19937_default : mt19937)
    (negative_binomial : Z → Q → mt19937 → Z * mt19937)
    (irand : Z → Z → rng → Z * rng)
    (calcCenter : Point2 → list corr → Point2)
    (sort : list TransHyp → list TransHyp) (to_id_t : Z → Z)
    (hyp_center : list corr → Point2) (PI : Q)
    (getBB3D : Point3 → list Point3)
    (getBB2D : Z → Z → list Point3 → list Q → cv_trans_t → Rect)
    (getIoU : Rect → Rect → Q)
    (pose_quaternion : cv_trans_t → (Q * Q * Q * Q) * Point3)
    (nlopt_optimize : nlopt_opt → list Q → list Q * Q)
    (compute_width_height : TransHyp → Q * Q)
    (labelmap : list Z) (vertmap extents : list Q)
    (batch height width num_classes preemptive_batch : Z) (fx fy px py : Q)
    (outputs : list roi_t) (s : rng) :
  irand_in_range irand →
  id_t_holds to_id_t num_classes →
  (∀ l, sort l ≡ₚ l) →
  let run fuel :=
    estimateCenter sqrtf mt19937_default negative_binomial irand calcCenter sort
                   to_id_t hyp_center PI getBB3D getBB2D getIoU pose_quaternion
                   nlopt_optimize compute_width_height
                   fuel labelmap vertmap extents batch height width num_classes
                   preemptive_batch fx fy px py outputs s in
  (∃ n, ∀ fuel, (n ≤ fuel)%nat → is_Some (run fuel)) ∧
  (∀ fuel outputs' s', run fuel = Some (outputs', s') →
     ∃ new, outputs' = outputs ++ new ∧
       Forall (λ roi, ∃ c, rdf roi 1 = float_of_int c ∧ roi_class roi = c ∧
                           c ≠ 0 ∧ 1 ≤ c < num_classes ∧
                           400 < pixel_count labelmap width height c) new).
Proof.
  intros Hirand Hid Hsort run. subst run. unfold estimateCenter.
  pose proof (getLabels_object_ids labelmap width height num_classes
                (int_of_float minArea)) as Hids.
  pose proof (getLabels_ids_fit to_id_t labelmap width height num_classes
                (int_of_float minArea) Hid) as Hfit.
  destruct (getLabels labelmap width height num_classes (int_of_float minArea))
    as [labels object_ids].
  cbn [snd] in Hids, Hfit. rewrite minArea_size_t in Hids.
  destruct (decide (zlength object_ids = 0)) as [Hnone|Hsome].
  { split.
    - exists 0%nat. intros fuel _. by eexists.
    - intros fuel outputs' s' [= <- <-]. exists []. split; [by rewrite app_nil_r|constructor]. }
  destruct (sample_hyps irand to_id_t hyp_center vertmap labels object_ids width
              num_classes (Z.to_nat ransacIterations) (∅, s)) as [hm s1] eqn:Hsample.
  assert (registry_classes (λ c, c ∈ object_ids) hm) as Hcls.
  { pose proof (sample_hyps_classes irand to_id_t hyp_center vertmap labels object_ids
                  width num_classes (λ c, c ∈ object_ids) (Z.to_nat ransacIterations)
                  (∅, s)) as H.
    rewrite Hsample in H. apply H.
    - intros s0. by apply draw_objID_elem_of.
    - intros k b x Hb. cbn [fst] in Hb. by rewrite lookup_empty in Hb. }
  assert ((hypMap_entries hm).*1 ≡ₚ (map_to_list hm).*1) as [Hnd Hkeys]%keys_perm_iff
    by apply hypMap_entries_keys.
  split.
  - destruct (registry_bound_exists hm) as [n Hn]. exists n. intros fuel Hfuel.
    destruct (ransac_loop_enough sqrtf mt19937_default negative_binomial irand
                calcCenter sort vertmap labels width num_classes preemptive_batch
                Hsort _ n fuel (hm, s1) Hnd Hkeys Hn Hfuel) as ([hm' s2] & -> & _).
    by eexists.
  - intros fuel outputs' s'.
    destruct (ransac_loop sqrtf mt19937_default negative_binomial irand calcCenter
                sort vertmap labels width num_classes preemptive_batch fuel
                (hypMap_entries hm).*1 (hm, s1)) as [[hm' s2]|] eqn:Hloop; [|done].
    intros [= <- <-].
    pose proof (ransac_loop_classes sqrtf mt19937_default negative_binomial irand
                  calcCenter sort vertmap labels width num_classes preemptive_batch
                  Hsort (λ c, c ∈ object_ids) _ fuel (hm, s1) (hm', s2)
                  Hnd Hkeys Hcls Hloop) as Hcls'.
    match goal with
    | |- context [finalize ?a1 ?a2 ?a3 ?a4 ?a5 ?a6 ?a7 ?a8 ?a9 ?a10 ?a11 ?a12 ?a13 ?a14 ?a15 hm' outputs] =>
      destruct (finalize_classes a1 a2 a3 a4 a5 a6 a7 a8 a9 a10 a11 a12 a13 a14 a15 hm' outputs)
        as (new & -> & Hall)
    end.
    exists new. split; [done|]. eapply Forall_impl; [exact Hall|].
    intros roi (k & b & hyp & Hb & Hhyp & _ & Hc).
    specialize (Hcls' k b hyp Hb Hhyp). cbn beta in Hcls'. apply Hids in Hcls'.
    exists (objID hyp). split; [done|]. split.
    { unfold roi_class. rewrite Hc. apply int_of_float_of_int. }
    lia.
Qed.

Lemma detections_only_of_large_classes_witness :
  let run fuel :=
    estimateCenter Sample.sqrtf Sample.mt19937_default Sample.negative_binomial
                   Sample.irand Sample.calcCenter Sample.sort Sample.to_id_t
                 Sample.hyp_center
                   Sample.PI Sample.getBB3D Sample.getBB2D Sample.getIoU
                   Sample.pose_quaternion Sample.nlopt_optimize
                   Sample.compute_width_height
                   fuel Sample.labelmap_30 Sample.vertmap_30 Sample.extents_2
                   0 30 30 2 1000 100 100 15 15 [] 7 in
  irand_in_range Sample.irand ∧
  id_t_holds Sample.to_id_t 2 ∧
  (∀ l, Sample.sort l ≡ₚ l) ∧
  (∃ n, ∀ fuel, (n ≤ fuel)%nat → is_Some (run fuel)) ∧
  (∀ fuel outputs' s', run fuel = Some (outputs', s') →
     ∃ new, outputs' = [] ++ new ∧
       Forall (λ roi, ∃ c, rdf roi 1 = float_of_int c ∧ roi_class roi = c ∧
                           c ≠ 0 ∧ 1 ≤ c < 2 ∧
                           400 < pixel_count Sample.labelmap_30 30 30 c) new).
Proof.
  assert (id_t_holds Sample.to_id_t 2) as Hid by (apply Sample_id_t_holds; lia).
  split; [exact Sample_irand_in_range|]. split; [exact Hid|].
  split; [exact Sample_sort_perm|].
  exact (detections_only_of_large_classes
           Sample.sqrtf Sample.mt19937_default Sample.negative_binomial
           Sample.irand Sample.calcCenter Sample.sort Sample.to_id_t
           Sample.hyp_center
           Sample.PI Sample.getBB3D Sample.getBB2D Sample.getIoU
           Sample.pose_quaternion Sample.nlopt_optimize Sample.compute_width_height
           Sample.labelmap_30 Sample.vertmap_30 Sample.extents_2
           0 30 30 2 1000 100 100 15 15 [] 7
           Sample_irand_in_range Hid Sample_sort_perm).
Defined.

(** ** Runs of the model *)

Example getLabels_4x3 :
  getLabels Sample.labelmap_4x3 4 3 2 0
  = ([[2; 6; 10; 3; 7; 11]; [0; 4; 8; 1; 5; 9]], [1]).
Proof. reflexivity. Qed.

Example getMode2D_4x3 :
  getMode2D 1 (mkPoint2 1 2) Sample.vertmap_4x3 4 2 = mkPoint2 1 0.
Proof. reflexivity. Qed.

Example countInliers2D_4x3 :
  let hyp := countInliers2D Sample.sqrtf Sample.mt19937_default Sample.negative_binomial
               Sample.vertmap_4x3 (getLabels Sample.labelmap_4x3 4 3 2 0).1
               inlierThreshold3D 4 2 10 (TransHyp_new 1 (mkPoint2 1 1)) in
  (inliers hyp, effPixels hyp, maxPixels hyp, (λ c, c.2) <$> inlierPts2D hyp)
  = (2, 6, 10, [mkPoint2 0 1; mkPoint2 1 1]).
Proof. vm_compute. reflexivity. Qed.

(** Three hypotheses of one class: the first pass leaves one of them, and
    the loop ends after the eighth pass, not before. *)
Example ransac_loop_of_three :
  let loop fuel :=
    ransac_loop Sample.sqrtf Sample.mt19937_default Sample.negative_binomial
                Sample.irand Sample.calcCenter Sample.sort Sample.vertmap_4x3
                (getLabels Sample.labelmap_4x3 4 3 2 0).1 4 2 3
                fuel [1] (Sample.registry_of_three, 1) in
  loop 7%nat = None ∧
  (λ st : hypMap_t * Sample.rng,
     (λ kb : Z * list TransHyp, (kb.1, refSteps <$> kb.2)) <$> map_to_list st.1)
    <$> loop 8%nat
  = Some [(1, [8])].
Proof. vm_compute. split; reflexivity. Qed.

Example Compute_outputs_detections :
  Compute_outputs Sample.poses_gt 1 3 Sample.detections
  = ([0; 1; 10; 10; 30; 30; 0; 2; 40; 40; 60; 60]%Q,
     [1; 0; 0; 0; 0; 0; 1; 1; 0; 0; 0; 0; 0; 1]%Q,
     [0; 0; 0; 0; 0; 0; 0; 0; 0; 0; 0; 0;
      0; 0; 0; 0; 0; 0; 0; 0; 0.1; 0.2; 0.3; 0.4]%Q,
     [0; 0; 0; 0; 0; 0; 0; 0; 0; 0; 0; 0;
      0; 0; 0; 0; 0; 0; 0; 0; 1; 1; 1; 1]%Q).
Proof. reflexivity. Qed.

(** * Further properties *)

(** ** Votes *)

(** A multiple of the divisor is not rounded. *)
Lemma round_half_even_exact (m b : Z) : 0 < b → round_half_even (m * b) b = m.
Proof.
  intros Hb. unfold round_half_even.
  rewrite Z.div_mul, Z.mod_mul by lia.
  destruct (Z.compare_spec (2 * 0) b); [lia|done|lia].
Qed.

Lemma binary_exponent_int (z : Z) :
  z ≠ 0 → binary_exponent (inject_Z z) = Z.log2 (Z.abs z).
Proof.
  intros Hz. unfold binary_exponent. cbn [Qnum Qden inject_Z].
  change (Z.log2 1) with 0. rewrite Z.sub_0_r.
  pose proof (Z.log2_nonneg (Z.abs z)) as Hnn.
  pose proof (Z.log2_spec (Z.abs z) ltac:(lia)) as [Hlo _].
  rewrite decide_True by done. rewrite decide_True by lia. done.
Qed.

Lemma Qred_inject_Z (z : Z) : Qred (inject_Z z) = inject_Z z.
Proof.
  unfold Qred, inject_Z.
  pose proof (Z.ggcd_gcd z 1) as Hg.
  pose proof (Z.ggcd_correct_divisors z 1) as Hd.
  destruct (Z.ggcd z 1) as [g [aa bb]]. cbn [fst snd] in *.
  rewrite Z.gcd_1_r in Hg. subst g. destruct Hd as [Ha Hb].
  rewrite Z.mul_1_l in Ha, Hb. by subst.
Qed.

(** An integer of at most 24 bits is a [float]. *)
Lemma round_float_int (z : Z) : Z.abs z ≤ 2 ^ 24 → round_float (inject_Z z) = inject_Z z.
Proof.
  intros Hz. unfold round_float.
  destruct (decide (Qnum (inject_Z z) = 0)) as [Hz0|Hz0].
  { cbn [Qnum inject_Z] in Hz0. by subst. }
  cbn [Qnum inject_Z] in Hz0. rewrite binary_exponent_int by done.
  cbn [Qnum Qden inject_Z].
  pose proof (Z.log2_nonneg (Z.abs z)) as Hnn.
  pose proof (Z.log2_spec (Z.abs z) ltac:(lia)) as [Hlo Hhi].
  assert (Z.log2 (Z.abs z) ≤ 24) as H24.
  { rewrite <- (Z.log2_pow2 24) by lia. by apply Z.log2_le_mono. }
  rewrite Z.max_l by lia.
  destruct (decide (0 ≤ Z.log2 (Z.abs z) - 23)) as [Hk|Hk].
  - destruct (decide (Z.log2 (Z.abs z) = 23)) as [E|E].
    + rewrite E. change (23 - 23) with 0. change (2 ^ 0) with 1.
      rewrite Z.mul_1_r. change (1 * 1) with 1.
      rewrite <- (Z.mul_1_r z) at 1. by rewrite round_half_even_exact by lia.
    + assert (Z.log2 (Z.abs z) = 24) as E' by lia. rewrite E' in *.
      assert (z = 2 ^ 24 ∨ z = - 2 ^ 24) as [->| ->] by lia; reflexivity.
  - set (j := - (Z.log2 (Z.abs z) - 23)).
    assert (0 < 2 ^ j) as Hpow by (apply Z.pow_pos_nonneg; lia).
    replace (z * 2 ^ j) with ((z * 2 ^ j) * 1) by lia.
    rewrite round_half_even_exact by lia.
    rewrite <- (Qred_inject_Z z). apply Qred_complete.
    unfold Qeq, inject_Z. cbn [Qnum Qden]. rewrite Z2Pos.id by done. lia.
Qed.

Lemma inject_Z_mult_eq (a b : Z) : (inject_Z a * inject_Z b)%Q = inject_Z (a * b).
Proof. reflexivity. Qed.

Lemma inject_Z_plus_eq (a b : Z) : (inject_Z a + inject_Z b)%Q = inject_Z (a + b).
Proof. unfold Qplus, inject_Z. cbn [Qnum Qden]. by rewrite !Z.mul_1_r. Qed.

Lemma int_of_float_inject_Z (z : Z) : int_of_float (inject_Z z) = z.
Proof. unfold int_of_float, inject_Z. cbn [Qnum Qden]. apply Z.quot_1_r. Qed.

(** The index that [getMode2D] computes in [float] at a pixel of the
    image is the integer index
    [2 * objID + 2 * num_classes * (y * width + x)] as long as the vertex
    map has at most [2^24] entries, so that no operation rounds. *)
Lemma getMode2D_offset_exact (objID x y width height num_classes : Z) :
  2 * num_classes * (width * height) ≤ 2 ^ 24 →
  0 ≤ objID < num_classes → 0 ≤ y < height → 0 ≤ x < width →
  getMode2D_offset objID (mkPoint2 (float_of_int x) (float_of_int y)) width num_classes
  = 2 * objID + 2 * num_classes * (y * width + x).
Proof.
  intros Hsize Hid Hy Hx.
  assert (0 ≤ y * width + x < width * height) as Hpix by nia.
  assert (0 ≤ y * width ≤ y * width + x) as Hrow by nia.
  assert (1 ≤ num_classes ∧ 1 ≤ width ∧ 1 ≤ height) as (Hnc & Hw & Hh) by lia.
  assert (width * height ≤ 2 * num_classes * (width * height)) as Hwh by nia.
  assert (width ≤ width * height) as Hw' by nia.
  assert (height ≤ width * height) as Hh' by nia.
  assert (2 * num_classes ≤ 2 * num_classes * (width * height)) as Hnc' by nia.
  assert (0 ≤ 2 * num_classes * (y * width + x)
          ≤ 2 * num_classes * (width * height) - 2 * num_classes) as Hskip by nia.
  unfold getMode2D_offset, float_of_int. cbn [pt_x pt_y].
  rewrite (round_float_int x), (round_float_int y), (round_float_int width) by lia.
  rewrite inject_Z_mult_eq, (round_float_int (y * width)) by lia.
  rewrite inject_Z_plus_eq, (round_float_int (y * width + x)) by lia.
  rewrite (round_float_int (2 * num_classes)) by lia.
  rewrite inject_Z_mult_eq, (round_float_int (2 * num_classes * (y * width + x))) by lia.
  rewrite (round_float_int (2 * objID)) by lia.
  rewrite inject_Z_plus_eq, round_float_int by lia.
  apply int_of_float_inject_Z.
Qed.

(** Beyond that size the two indices differ: at the pixel (1023, 767) of
    an image of width 1024 with 22 classes, the [float] index of class 1
    is 34602968, the integer index 34602966. *)
Example getMode2D_offset_rounds :
  getMode2D_offset 1 (mkPoint2 (float_of_int 1023) (float_of_int 767)) 1024 22
  = 34602968 ∧
  2 * 1 + 2 * 22 * (767 * 1024 + 1023) = 34602966.
Proof. split; reflexivity. Qed.

Lemma zlookup_fmap_seqZ {A} (f : Z → A) (m len i : Z) :
  zlookup (f <$> seqZ m len) i = if decide (0 ≤ i < len) then Some (f (m + i)) else None.
Proof.
  unfold zlookup. destruct (decide (0 ≤ i)) as [Hi|Hi].
  - rewrite list_lookup_fmap. destruct (decide (0 ≤ i < len)) as [Hlt|Hlt].
    + rewrite (lookup_seqZ_lt m len (Z.to_nat i)) by lia. simpl. f_equal. f_equal. lia.
    + rewrite lookup_seqZ_ge by lia. done.
  - by rewrite decide_False by lia.
Qed.

(** X1.  For a vertex map of at most [2^24] entries: [getCenters]
    builds one image per class from 1 to [num_classes - 1], and the entry
    (y, x) of the image of class [i] is the vote that [getMode2D] reads
    for class [i] at the pixel (x, y); outside of the image, and for
    other classes, there is no entry.  [getCenters] computes the index
    in [int], [getMode2D] in [float]: beyond that size the two can
    differ. *)
Theorem getCenters_getMode2D (vertmap : list Q) (width height num_classes i y x : Z) :
  2 * num_classes * (width * height) ≤ 2 ^ 24 →
  img_at (getCenters vertmap width height num_classes) (i - 1) y x =
  if decide (1 ≤ i < num_classes ∧ 0 ≤ y < height ∧ 0 ≤ x < width)
  then Some (getMode2D i (mkPoint2 (float_of_int x) (float_of_int y))
                       vertmap width num_classes)
  else None.
Proof.
  intros Hsize. unfold img_at, getCenters. rewrite zlookup_fmap_seqZ.
  destruct (decide (0 ≤ i - 1 < num_classes - 1)) as [Hi|Hi]; last first.
  { simpl. by rewrite decide_False by lia. }
  cbn [mbind option_bind]. rewrite zlookup_fmap_seqZ.
  destruct (decide (0 ≤ y < height)) as [Hy|Hy]; last first.
  { simpl. by rewrite decide_False by lia. }
  cbn [mbind option_bind]. rewrite zlookup_fmap_seqZ.
  destruct (decide (0 ≤ x < width)) as [Hx|Hx]; last first.
  { by rewrite decide_False by lia. }
  rewrite decide_True by lia. unfold getMode2D.
  rewrite (getMode2D_offset_exact i x y width height num_classes) by lia.
  cbn zeta. replace (1 + (i - 1)) with i by lia. rewrite !Z.add_0_l. done.
Qed.

Lemma getCenters_getMode2D_witness :
  2 * 2 * (4 * 3) ≤ 2 ^ 24 ∧
  img_at (getCenters Sample.vertmap_4x3 4 3 2) (1 - 1) 1 2 =
  if decide (1 ≤ 1 < 2 ∧ 0 ≤ 1 < 3 ∧ 0 ≤ 2 < 4)
  then Some (getMode2D 1 (mkPoint2 (float_of_int 2) (float_of_int 1))
                       Sample.vertmap_4x3 4 2)
  else None.
Proof.
  assert (2 * 2 * (4 * 3) ≤ 2 ^ 24) as Hsize by (vm_compute; congruence).
  split; [exact Hsize|].
  exact (getCenters_getMode2D Sample.vertmap_4x3 4 3 2 1 1 2 Hsize).
Defined.

(** ** Distances and inlier counting *)

(** A vote of length zero never makes an inlier: the quotient of
    [point2line] is no number then, and the test against the threshold
    fails. *)
Lemma point2line_zero_vote (sqrtf : Q → Q) (thr : Q) (x n p : Point2) :
  (sqrtf (- pt_y n * - pt_y n + pt_x n * pt_x n) == 0)%Q →
  point2line sqrtf x n p = None ∧ inlier_b sqrtf thr x (n, p) = false.
Proof.
  intros Hlen. unfold inlier_b, point2line. cbn [fst snd].
  apply Qeq_bool_iff in Hlen. by rewrite Hlen.
Qed.

(** The pixel (15, 15) of the 30 x 30 sample votes (0, 0): it is no
    inlier of any centre. *)
Example zero_vote_no_inlier :
  let c := pixel_corr Sample.vertmap_30 30 2 1 (15 * 30 + 15) in
  c = (mkPoint2 0 0, mkPoint2 15 15) ∧
  inlier_b Sample.sqrtf inlierThreshold3D (mkPoint2 (-1000) (-777)) c = false.
Proof. split; reflexivity. Qed.



Section CountInliersMore.
Context {mt19937 : Type}.
Variables (sqrtf : Q → Q) (mt19937_default : mt19937)
          (negative_binomial : Z → Q → mt19937 → Z * mt19937)
          (vertmap : list Q) (labels : list (list Z)) (inlierThreshold : Q)
          (width num_classes : Z).

Local Abbreviation cloop :=
  (countInliers2D_loop sqrtf negative_binomial vertmap inlierThreshold width num_classes).

(** What one run of the loop adds to a hypothesis. *)
Lemma countInliers2D_loop_adds (fuel : nat) : ∀ pts maxPt successRate ptIdx g h,
  0 ≤ ptIdx → maxPt = zlength pts →
  let r := cloop fuel pts maxPt successRate ptIdx g h in
  ∃ extra,
    inlierPts2D r = inlierPts2D h ++ extra ∧
    inliers r = inliers h + zlength extra ∧
    effPixels h + zlength extra ≤ effPixels r ∧
    effPixels r - effPixels h ≤ Z.max 0 (maxPt - ptIdx) ∧
    maxPixels r = maxPixels h ∧
    Forall (λ c, ∃ idx, idx ∈ pts ∧
                 c = pixel_corr vertmap width num_classes (objID h) idx ∧
                 inlier_b sqrtf inlierThreshold (center h) c = true) extra.
Proof.
  induction fuel as [|fuel IH]; intros pts maxPt successRate ptIdx g h Hpt Hmax.
  { exists []. cbn. rewrite app_nil_r. unfold zlength. simpl.
    repeat split; try lia. constructor. }
  cbn [countInliers2D_loop]. destruct (decide (ptIdx < maxPt)) as [Hlt|Hge]; last first.
  { exists []. cbn. rewrite app_nil_r. unfold zlength. simpl.
    repeat split; try lia. constructor. }
  assert (rdi pts ptIdx ∈ pts) as Hidx by (apply rdi_elem_of; lia).
  cbn [objID center set_effPixels].
  fold (pixel_point width (rdi pts ptIdx)).
  fold (pixel_corr vertmap width num_classes (objID h) (rdi pts ptIdx)).
  set (c := pixel_corr vertmap width num_classes (objID h) (rdi pts ptIdx)) in *.
  assert (∀ ptIdx' g' h',
    ptIdx + 1 ≤ ptIdx' →
    objID h' = objID h → center h' = center h → maxPixels h' = maxPixels h →
    effPixels h' = effPixels h + 1 →
    (∃ new, inlierPts2D h' = inlierPts2D h ++ new ∧
            inliers h' = inliers h + zlength new ∧ zlength new ≤ 1 ∧
            Forall (λ c, ∃ idx, idx ∈ pts ∧
                     c = pixel_corr vertmap width num_classes (objID h) idx ∧
                     inlier_b sqrtf inlierThreshold (center h) c = true) new) →
    ∃ extra,
      inlierPts2D (cloop fuel pts maxPt successRate ptIdx' g' h') = inlierPts2D h ++ extra ∧
      inliers (cloop fuel pts maxPt successRate ptIdx' g' h') = inliers h + zlength extra ∧
      effPixels h + zlength extra ≤ effPixels (cloop fuel pts maxPt successRate ptIdx' g' h') ∧
      effPixels (cloop fuel pts maxPt successRate ptIdx' g' h') - effPixels h
        ≤ Z.max 0 (maxPt - ptIdx) ∧
      maxPixels (cloop fuel pts maxPt successRate ptIdx' g' h') = maxPixels h ∧
      Forall (λ c, ∃ idx, idx ∈ pts ∧
                   c = pixel_corr vertmap width num_classes (objID h) idx ∧
                   inlier_b sqrtf inlierThreshold (center h) c = true) extra) as Hrec.
  { intros ptIdx' g' h' Hnext Hid Hc Hmp Heff (new & Hnew & Hin & Hone & Hall).
    destruct (IH pts maxPt successRate ptIdx' g' h' ltac:(lia) Hmax)
      as (extra & -> & -> & He1 & He2 & -> & Hextra).
    exists (new ++ extra). rewrite Hnew, Hin, Hid, Hc in *.
    unfold zlength in *. rewrite length_app, (assoc_L (++)).
    split; [done|]. split; [lia|]. split; [lia|]. split; [lia|]. split; [done|].
    by apply Forall_app. }
  destruct (float_lt (point2line sqrtf (center h) c.1 c.2) inlierThreshold) eqn:Htest.
  - assert (inlier_b sqrtf inlierThreshold (center h) c = true) as Hb
      by (unfold inlier_b; by rewrite Htest).
    change (getMode2D (objID h) (pixel_point width (rdi pts ptIdx)) vertmap width num_classes)
      with c.1.
    change (pixel_point width (rdi pts ptIdx)) with c.2.
    rewrite Htest.
    destruct (Qlt_le_dec successRate 1);
      [destruct (negative_binomial 1 successRate g) as [d g']|];
      (apply Hrec; [lia|done|done|done|done|]);
      (exists [c]; split; [done|]; split; [done|]; split; [done|];
       constructor; [by exists (rdi pts ptIdx)|constructor]).
  - change (getMode2D (objID h) (pixel_point width (rdi pts ptIdx)) vertmap width num_classes)
      with c.1.
    change (pixel_point width (rdi pts ptIdx)) with c.2.
    rewrite Htest.
    destruct (Qlt_le_dec successRate 1);
      [destruct (negative_binomial 1 successRate g) as [d g']|];
      (apply Hrec; [lia|done|done|done|done|]);
      (exists []; split; [by rewrite app_nil_r|]; split; [unfold zlength; simpl; lia|];
       split; [done|constructor]).
Qed.

(** X3.  After [countInliers2D], whatever the hypothesis held before:
    the inlier count is the length of the inlier list; the pixels visited
    are at least as many as the inliers and at most as many as the class
    has; the pixel budget has grown by [pixelBatch]; every inlier
    correspondence is the vote and position of a pixel of the class that
    passes the distance test against the centre; class, centre and
    refinement-step counter are untouched. *)
Theorem countInliers2D_counts (pixelBatch : Z) (h : TransHyp) :
  let pts := default [] (zlookup labels (objID h)) in
  let r := countInliers2D sqrtf mt19937_default negative_binomial vertmap labels
                          inlierThreshold width num_classes pixelBatch h in
  inliers r = zlength (inlierPts2D r) ∧
  0 ≤ inliers r ≤ effPixels r ∧
  effPixels r ≤ zlength pts ∧
  maxPixels r = maxPixels h + pixelBatch ∧
  Forall (λ c, ∃ idx, idx ∈ pts ∧
               c = pixel_corr vertmap width num_classes (objID h) idx ∧
               inlier_b sqrtf inlierThreshold (center h) c = true) (inlierPts2D r) ∧
  objID r = objID h ∧ center r = center h ∧ refSteps r = refSteps h.
Proof.
  intros pts r.
  pose proof (countInliers2D_keeps sqrtf mt19937_default negative_binomial vertmap
                labels inlierThreshold width num_classes pixelBatch h)
    as (Hid & Hc & Hsteps).
  fold r in Hid, Hc, Hsteps. subst r. unfold countInliers2D in *.
  cbn [objID maxPixels set_inlierPts2D set_inliers set_effPixels set_maxPixels] in *.
  fold pts in Hid, Hc, Hsteps |- *.
  match goal with
  | |- context [countInliers2D_loop _ _ _ _ _ _ ?f pts ?m ?sr ?i ?g ?h0] =>
    destruct (countInliers2D_loop_adds f pts m sr i g h0 ltac:(lia) eq_refl)
      as (extra & Hl & Hin & He1 & He2 & Hmp & Hall)
  end.
  cbn in Hl, Hin, He1, He2, Hmp, Hall. rewrite Hl, Hin, Hmp.
  pose proof (zlength_nonneg extra). pose proof (zlength_nonneg pts).
  repeat split; try lia; done.
Qed.

Lemma successRate_full (budget n : Z) :
  0 < n → n ≤ budget → (1 <= float_of_int budget / float_of_int n)%Q.
Proof.
  intros Hn Hle. unfold float_of_int. apply Qle_shift_div_l.
  - unfold Qlt. simpl. lia.
  - rewrite Qmult_1_l. unfold Qle. simpl. lia.
Qed.

(** With a success rate of 1 or more, the loop steps through every pixel
    from [ptIdx] on. *)
Lemma countInliers2D_loop_full (fuel : nat) : ∀ pts maxPt successRate ptIdx g h,
  (1 <= successRate)%Q → 0 ≤ ptIdx → maxPt = zlength pts →
  maxPt - ptIdx ≤ Z.of_nat fuel →
  let r := cloop fuel pts maxPt successRate ptIdx g h in
  inlierPts2D r =
    inlierPts2D h ++
    filter (λ c, inlier_b sqrtf inlierThreshold (center h) c = true)
           (pixel_corr vertmap width num_classes (objID h) <$> drop (Z.to_nat ptIdx) pts) ∧
  effPixels r = effPixels h + Z.max 0 (maxPt - ptIdx).
Proof.
  induction fuel as [|fuel IH]; intros pts maxPt successRate ptIdx g h Hsr Hpt Hmax Hfuel.
  { cbn. rewrite drop_ge by (unfold zlength in Hmax; lia).
    rewrite fmap_nil, filter_nil, app_nil_r. split; [done|lia]. }
  cbn [countInliers2D_loop]. destruct (decide (ptIdx < maxPt)) as [Hlt|Hge]; last first.
  { cbn. rewrite drop_ge by (unfold zlength in Hmax; lia).
    rewrite fmap_nil, filter_nil, app_nil_r. split; [done|lia]. }
  destruct (zlookup_lt pts ptIdx ltac:(lia)) as [idx Hidx].
  assert (rdi pts ptIdx = idx) as Hrdi by (unfold rdi; by rewrite Hidx).
  apply zlookup_Some in Hidx as [_ Hidx].
  rewrite (drop_S _ _ _ Hidx), fmap_cons, filter_cons. rewrite Hrdi.
  cbn [objID center set_effPixels].
  fold (pixel_point width idx).
  fold (pixel_corr vertmap width num_classes (objID h) idx).
  set (c := pixel_corr vertmap width num_classes (objID h) idx) in *.
  change (getMode2D (objID h) (pixel_point width idx) vertmap width num_classes) with c.1.
  change (pixel_point width idx) with c.2.
  destruct (Qlt_le_dec successRate 1) as [Hbad|_].
  { exfalso. revert Hsr. by apply Qlt_not_le. }
  replace (S (Z.to_nat ptIdx)) with (Z.to_nat (ptIdx + 1)) by lia.
  destruct (float_lt (point2line sqrtf (center h) c.1 c.2) inlierThreshold) eqn:Htest.
  - assert (inlier_b sqrtf inlierThreshold (center h) c = true) as Hb
      by (unfold inlier_b; by rewrite Htest).
    rewrite decide_True by done.
    match goal with
    | |- context [cloop fuel pts maxPt successRate (ptIdx + 1) g ?h0] =>
      destruct (IH pts maxPt successRate (ptIdx + 1) g h0 Hsr ltac:(lia) Hmax ltac:(lia))
        as [-> ->]
    end.
    cbn. rewrite <- (assoc_L (++)). split; [done|lia].
  - assert (inlier_b sqrtf inlierThreshold (center h) c ≠ true) as Hb
      by (unfold inlier_b; by rewrite Htest).
    rewrite decide_False by done.
    match goal with
    | |- context [cloop fuel pts maxPt successRate (ptIdx + 1) g ?h0] =>
      destruct (IH pts maxPt successRate (ptIdx + 1) g h0 Hsr ltac:(lia) Hmax ltac:(lia))
        as [-> ->]
    end.
    cbn. split; [done|lia].
Qed.

(** X4.  Once the pixel budget of a hypothesis, after the addition of
    [pixelBatch], covers its class, [countInliers2D] draws no random
    number and steps through all pixels of the class: it visits as many
    pixels as the class has, and the inlier list is, in the order of the
    pixel list, the correspondences of exactly those pixels that pass the
    distance test. *)
Theorem countInliers2D_full_scan (pixelBatch : Z) (h : TransHyp) :
  let pts := default [] (zlookup labels (objID h)) in
  zlength pts ≤ maxPixels h + pixelBatch →
  let r := countInliers2D sqrtf mt19937_default negative_binomial vertmap labels
                          inlierThreshold width num_classes pixelBatch h in
  inlierPts2D r =
    filter (λ c, inlier_b sqrtf inlierThreshold (center h) c = true)
           (pixel_corr vertmap width num_classes (objID h) <$> pts) ∧
  effPixels r = zlength pts ∧
  inliers r = zlength (inlierPts2D r).
Proof.
  intros pts Hbudget r.
  destruct (countInliers2D_counts pixelBatch h) as (Hcount & _).
  fold r in Hcount. split; [|split; [|done]].
  - subst r. unfold countInliers2D.
    cbn [objID maxPixels set_inlierPts2D set_inliers set_effPixels set_maxPixels].
    fold pts. destruct (decide (zlength pts = 0)) as [Hz|Hnz].
    + rewrite Hz. destruct pts; [done|]. unfold zlength in Hz. simpl in Hz. lia.
    + pose proof (zlength_nonneg pts).
      match goal with
      | |- context [countInliers2D_loop _ _ _ _ _ _ ?f pts ?m ?sr ?i ?g ?h0] =>
        destruct (countInliers2D_loop_full f pts m sr i g h0) as [-> _];
          [apply successRate_full; lia|lia|done|lia|]
      end.
      done.
  - subst r. unfold countInliers2D.
    cbn [objID maxPixels set_inlierPts2D set_inliers set_effPixels set_maxPixels].
    fold pts. destruct (decide (zlength pts = 0)) as [Hz|Hnz].
    + rewrite Hz. done.
    + pose proof (zlength_nonneg pts).
      match goal with
      | |- context [countInliers2D_loop _ _ _ _ _ _ ?f pts ?m ?sr ?i ?g ?h0] =>
        destruct (countInliers2D_loop_full f pts m sr i g h0) as [_ ->];
          [apply successRate_full; lia|lia|done|lia|]
      end.
      cbn. lia.
Qed.

End CountInliersMore.

Lemma countInliers2D_full_scan_witness :
  let labels := (getLabels Sample.labelmap_4x3 4 3 2 0).1 in
  let h := TransHyp_new 1 (mkPoint2 1 1) in
  let pts := default [] (zlookup labels (objID h)) in
  let r := countInliers2D Sample.sqrtf Sample.mt19937_default Sample.negative_binomial
                          Sample.vertmap_4x3 labels inlierThreshold3D 4 2 10 h in
  zlength pts ≤ maxPixels h + 10 ∧
  inlierPts2D r =
    filter (λ c, inlier_b Sample.sqrtf inlierThreshold3D (center h) c = true)
           (pixel_corr Sample.vertmap_4x3 4 2 (objID h) <$> pts) ∧
  effPixels r = zlength pts ∧
  inliers r = zlength (inlierPts2D r).
Proof.
  assert (zlength (default [] (zlookup (getLabels Sample.labelmap_4x3 4 3 2 0).1
                                       (objID (TransHyp_new 1 (mkPoint2 1 1)))))
          ≤ maxPixels (TransHyp_new 1 (mkPoint2 1 1)) + 10) as Hbudget
    by (vm_compute; congruence).
  split; [exact Hbudget|].
  exact (countInliers2D_full_scan Sample.sqrtf Sample.mt19937_default
           Sample.negative_binomial Sample.vertmap_4x3
           (getLabels Sample.labelmap_4x3 4 3 2 0).1 inlierThreshold3D 4 2 10
           (TransHyp_new 1 (mkPoint2 1 1)) Hbudget).
Defined.

(** ** Thinning the inliers and refining the centre *)

Section RefineMore.
Context {rng : Type}.
Variables (irand : Z → Z → rng → Z * rng) (calcCenter : Point2 → list corr → Point2).

Lemma filterInliers2D_loop_draws (n : nat) : ∀ (src acc : list corr) (s : rng),
  irand_in_range irand → (n = 0%nat ∨ src ≠ []) →
  ∃ new, (filterInliers2D_loop irand n src acc s).1 = acc ++ new ∧
         length new = n ∧ new ⊆ src.
Proof.
  induction n as [|n IH]; intros src acc s Hirand Hsrc.
  - exists []. cbn. rewrite app_nil_r. split; [done|]. split; [done|].
    intros x Hx. by apply elem_of_nil in Hx.
  - destruct Hsrc as [|Hsrc]; [done|]. cbn [filterInliers2D_loop].
    pose proof (Hirand 0 (zlength src) s) as Hr.
    destruct (irand 0 (zlength src) s) as [idx s1]. cbn [fst] in Hr.
    assert (0 < zlength src) as Hpos.
    { destruct src; [done|]. unfold zlength. simpl. lia. }
    destruct (zlookup_lt src idx (Hr Hpos)) as [c Hc]. rewrite Hc.
    destruct (IH src (acc ++ [c]) s1 Hirand (or_intror Hsrc)) as (new & -> & Hlen & Hsub).
    exists (c :: new). rewrite <- (assoc_L (++)). split; [done|].
    split; [simpl; lia|].
    intros x [->|Hx]%elem_of_cons; [|by apply Hsub].
    apply zlookup_Some in Hc as [_ Hc]. by eapply list_elem_of_lookup_2.
Qed.

(** X5.  [filterInliers2D] leaves a hypothesis with fewer than
    [maxInliers] correspondences alone and draws no random number.
    Otherwise, also when there are exactly [maxInliers], it replaces the
    list by [maxInliers] draws from it: the new list has [maxInliers]
    entries, all of them from the old list.  No other member of the
    hypothesis changes; in particular the inlier count stays what
    [countInliers2D] found. *)
Theorem filterInliers2D_thins (maxInliers : Z) (hyp : TransHyp) (s : rng) :
  irand_in_range irand → 0 ≤ maxInliers →
  let r := (filterInliers2D irand maxInliers hyp s).1 in
  (zlength (inlierPts2D hyp) < maxInliers →
     filterInliers2D irand maxInliers hyp s = (hyp, s)) ∧
  (maxInliers ≤ zlength (inlierPts2D hyp) →
     zlength (inlierPts2D r) = maxInliers ∧ inlierPts2D r ⊆ inlierPts2D hyp) ∧
  r = set_inlierPts2D (inlierPts2D r) hyp.
Proof.
  intros Hirand Hmax r. subst r. unfold filterInliers2D.
  destruct (decide (zlength (inlierPts2D hyp) < maxInliers)) as [Hlt|Hge].
  - split; [done|]. split; [lia|]. by destruct hyp.
  - split; [lia|].
    destruct (filterInliers2D_loop_draws (Z.to_nat maxInliers) (inlierPts2D hyp) [] s Hirand)
      as (new & Hnew & Hlen & Hsub).
    { destruct (inlierPts2D hyp); [|by right]. left. unfold zlength in Hge. simpl in Hge. lia. }
    destruct (filterInliers2D_loop irand (Z.to_nat maxInliers) (inlierPts2D hyp) [] s)
      as [l s1].
    cbn [fst] in *. subst l. cbn [inlierPts2D set_inlierPts2D app].
    split; [|done]. intros _. split; [unfold zlength; lia|done].
Qed.

(** X6.  [updateHyp2D] on a hypothesis with at least 4 correspondences:
    the new centre is [calcCenter] of the old centre and of the inlier
    list it leaves behind.  Below [maxPixels] correspondences that list is
    the old one and no random number is drawn; from [maxPixels] on it is a
    list of [maxPixels] draws from the old one.  Class, inlier count,
    pixel budget, visited pixels and refinement-step counter never
    change. *)
Theorem updateHyp2D_refines (maxPx : Z) (hyp : TransHyp) (s : rng) :
  irand_in_range irand → 0 ≤ maxPx →
  4 ≤ zlength (inlierPts2D hyp) →
  let r := (updateHyp2D irand calcCenter maxPx hyp s).1 in
  center r = calcCenter (center hyp) (inlierPts2D r) ∧
  (zlength (inlierPts2D hyp) < maxPx →
     inlierPts2D r = inlierPts2D hyp ∧
     (updateHyp2D irand calcCenter maxPx hyp s).2 = s) ∧
  (maxPx ≤ zlength (inlierPts2D hyp) →
     zlength (inlierPts2D r) = maxPx ∧ inlierPts2D r ⊆ inlierPts2D hyp) ∧
  objID r = objID hyp ∧ inliers r = inliers hyp ∧
  maxPixels r = maxPixels hyp ∧ effPixels r = effPixels hyp ∧
  refSteps r = refSteps hyp.
Proof.
  intros Hirand Hmax Hfour r. subst r. unfold updateHyp2D.
  rewrite decide_False by lia. unfold filterInliers2D.
  destruct (decide (zlength (inlierPts2D hyp) < maxPx)) as [Hlt|Hge].
  - cbn. split; [done|]. split; [done|]. split; [lia|]. done.
  - destruct (filterInliers2D_loop_draws (Z.to_nat maxPx) (inlierPts2D hyp) [] s Hirand)
      as (new & Hnew & Hlen & Hsub).
    { destruct (inlierPts2D hyp); [|by right]. unfold zlength in Hfour. simpl in Hfour. lia. }
    destruct (filterInliers2D_loop irand (Z.to_nat maxPx) (inlierPts2D hyp) [] s)
      as [l s1].
    cbn [fst] in *. subst l. cbn.
    split; [done|]. split; [lia|]. split; [|done].
    intros _. split; [unfold zlength; lia|done].
Qed.

End RefineMore.

Lemma filterInliers2D_thins_witness :
  let hyp := set_inlierPts2D [(mkPoint2 1 0, mkPoint2 0 0); (mkPoint2 1 0, mkPoint2 0 1);
                              (mkPoint2 1 0, mkPoint2 0 2)] (TransHyp_new 1 (mkPoint2 5 5)) in
  let r := (filterInliers2D Sample.irand 2 hyp 11).1 in
  irand_in_range Sample.irand ∧ 0 ≤ 2 ∧
  (zlength (inlierPts2D hyp) < 2 → filterInliers2D Sample.irand 2 hyp 11 = (hyp, 11)) ∧
  (2 ≤ zlength (inlierPts2D hyp) →
     zlength (inlierPts2D r) = 2 ∧ inlierPts2D r ⊆ inlierPts2D hyp) ∧
  r = set_inlierPts2D (inlierPts2D r) hyp.
Proof.
  assert (0 ≤ 2) as H2 by lia.
  split; [exact Sample_irand_in_range|]. split; [exact H2|].
  exact (filterInliers2D_thins Sample.irand 2 _ 11 Sample_irand_in_range H2).
Defined.

Lemma updateHyp2D_refines_witness :
  let hyp := set_inlierPts2D [(mkPoint2 1 0, mkPoint2 0 0); (mkPoint2 1 0, mkPoint2 0 1);
                              (mkPoint2 1 0, mkPoint2 0 2); (mkPoint2 1 0, mkPoint2 0 3)]
                             (TransHyp_new 1 (mkPoint2 5 5)) in
  let r := (updateHyp2D Sample.irand Sample.calcCenter 3 hyp 11).1 in
  irand_in_range Sample.irand ∧ 0 ≤ 3 ∧ 4 ≤ zlength (inlierPts2D hyp) ∧
  center r = Sample.calcCenter (center hyp) (inlierPts2D r) ∧
  (zlength (inlierPts2D hyp) < 3 →
     inlierPts2D r = inlierPts2D hyp ∧
     (updateHyp2D Sample.irand Sample.calcCenter 3 hyp 11).2 = 11) ∧
  (3 ≤ zlength (inlierPts2D hyp) →
     zlength (inlierPts2D r) = 3 ∧ inlierPts2D r ⊆ inlierPts2D hyp) ∧
  objID r = objID hyp ∧ inliers r = inliers hyp ∧
  maxPixels r = maxPixels hyp ∧ effPixels r = effPixels hyp ∧
  refSteps r = refSteps hyp.
Proof.
  assert (0 ≤ 3) as H3 by lia.
  assert (4 ≤ zlength (inlierPts2D
            (set_inlierPts2D [(mkPoint2 1 0, mkPoint2 0 0); (mkPoint2 1 0, mkPoint2 0 1);
                              (mkPoint2 1 0, mkPoint2 0 2); (mkPoint2 1 0, mkPoint2 0 3)]
                             (TransHyp_new 1 (mkPoint2 5 5))))) as H4
    by (vm_compute; congruence).
  split; [exact Sample_irand_in_range|]. split; [exact H3|]. split; [exact H4|].
  exact (updateHyp2D_refines Sample.irand Sample.calcCenter 3 _ 11
           Sample_irand_in_range H3 H4).
Defined.

(** ** The label partition *)

Lemma elem_of_pixel_scan (width height idx : Z) :
  idx ∈ pixel_scan width height ↔
  ∃ x y, 0 ≤ x < width ∧ 0 ≤ y < height ∧ idx = y * width + x.
Proof.
  unfold pixel_scan. rewrite list_elem_of_bind. split.
  - intros (x & Hidx & Hx). apply list_elem_of_fmap in Hidx as (y & -> & Hy).
    apply elem_of_seqZ in Hx, Hy. exists x, y. lia.
  - intros (x & y & Hx & Hy & ->). exists x. split.
    + apply list_elem_of_fmap. exists y. split; [done|]. apply elem_of_seqZ. lia.
    + apply elem_of_seqZ. lia.
Qed.

Lemma NoDup_pixel_scan (width height : Z) : NoDup (pixel_scan width height).
Proof.
  unfold pixel_scan. apply NoDup_bind; [| |apply NoDup_seqZ].
  - intros x1 x2 idx Hx1 Hx2 H1 H2.
    apply list_elem_of_fmap in H1 as (y1 & -> & _).
    apply list_elem_of_fmap in H2 as (y2 & Heq & _).
    apply elem_of_seqZ in Hx1, Hx2.
    rewrite (Z.mod_unique_pos (y1 * width + x1) width y1 x1) by lia.
    rewrite (Z.mod_unique_pos (y1 * width + x1) width y2 x2) by lia. done.
  - intros x Hx. apply elem_of_seqZ in Hx.
    apply NoDup_fmap_2_strong; [|apply NoDup_seqZ].
    intros y1 y2 _ _ Heq. nia.
Qed.

Lemma foldl_push_back_bucket_eq (lm : list Z) (pts : list Z) : ∀ labels c,
  0 ≤ c < zlength labels →
  default [] (zlookup
     (foldl (λ labels idx, push_back_at labels (rdi lm idx) idx) labels pts) c) =
  default [] (zlookup labels c) ++ filter (λ idx, rdi lm idx = c) pts.
Proof.
  induction pts as [|idx pts IH]; intros labels c Hc.
  - simpl. by rewrite app_nil_r.
  - cbn [foldl]. rewrite IH by (by rewrite zlength_push_back_at).
    rewrite zlookup_push_back_at, filter_cons.
    destruct (zlookup_lt labels c Hc) as [b Hb]. rewrite Hb.
    destruct (decide (rdi lm idx = c)) as [Heq|Hne]; simpl; [|done].
    by rewrite <- (assoc_L (++)).
Qed.

(** X7.  [getLabels] makes one bucket per class id below [num_classes],
    and the bucket of class [c] holds, in scan order and without
    repetition, exactly the flat indices [y * width + x] of the pixels of
    the image whose label is [c]. *)
Theorem getLabels_partition (lm : list Z) (width height nc minA : Z) :
  let labels := (getLabels lm width height nc minA).1 in
  length labels = Z.to_nat nc ∧
  ∀ c, 0 ≤ c < nc →
    ∃ b, zlookup labels c = Some b ∧
         b = filter (λ idx, rdi lm idx = c) (pixel_scan width height) ∧
         NoDup b ∧
         ∀ idx, idx ∈ b ↔
                ∃ x y, 0 ≤ x < width ∧ 0 ≤ y < height ∧ idx = y * width + x ∧
                       rdi lm idx = c.
Proof.
  intros labels.
  assert (∀ pts (l : list (list Z)),
    length (foldl (λ labels idx, push_back_at labels (rdi lm idx) idx) l pts) = length l)
    as Hfold.
  { induction pts as [|idx pts IH]; intros l; [done|]. cbn [foldl]. rewrite IH.
    pose proof (zlength_push_back_at l (rdi lm idx) idx) as H. unfold zlength in H. lia. }
  assert (length labels = Z.to_nat nc) as Hlen.
  { subst labels. unfold getLabels. cbn [fst]. rewrite Hfold. apply length_replicate. }
  split; [exact Hlen|]. intros c Hc.
  destruct (zlookup_lt labels c) as [b Hb]; [unfold zlength; lia|].
  assert (b = filter (λ idx, rdi lm idx = c) (pixel_scan width height)) as Hfilter.
  { pose proof (foldl_push_back_bucket_eq lm (pixel_scan width height)
                  (replicate (Z.to_nat nc) []) c) as H.
    unfold labels, getLabels in Hb. cbn [fst] in Hb. rewrite Hb in H.
    simpl in H. rewrite H by (unfold zlength; rewrite length_replicate; lia).
    unfold zlookup. rewrite decide_True by lia.
    rewrite lookup_replicate_2 by lia. done. }
  exists b. split; [done|]. split; [done|]. split.
  - rewrite Hfilter. apply NoDup_filter, NoDup_pixel_scan.
  - intros idx. rewrite Hfilter, list_elem_of_filter, elem_of_pixel_scan. split.
    + intros [Hl (x & y & Hx & Hy & Hidx)]. by exists x, y.
    + intros (x & y & Hx & Hy & Hidx & Hl). split; [done|]. by exists x, y.
Qed.

Lemma StronglySorted_filter {A} (R : relation A) (P : A → Prop)
    `{∀ x, Decision (P x)} (l : list A) :
  StronglySorted R l → StronglySorted R (filter P l).
Proof.
  induction 1 as [|x l Hl IH Hx]; [constructor|].
  rewrite filter_cons. case_decide; [|done].
  constructor; [done|]. apply Forall_forall. intros y Hy.
  apply list_elem_of_filter in Hy as [_ Hy]. rewrite Forall_forall in Hx. by apply Hx.
Qed.

Lemma StronglySorted_seqZ (len : nat) : ∀ m, StronglySorted Z.lt (seqZ m (Z.of_nat len)).
Proof.
  induction len as [|len IH]; intros m; [constructor|].
  rewrite seqZ_cons by lia. replace (Z.pred (Z.of_nat (S len))) with (Z.of_nat len) by lia.
  constructor; [apply IH|]. apply Forall_forall. intros y Hy.
  apply elem_of_seqZ in Hy. lia.
Qed.

Lemma length_bind_const {A B} (f : A → list B) (n : nat) (l : list A) :
  (∀ x, length (f x) = n) → length (l ≫= f) = (length l * n)%nat.
Proof.
  intros Hf. induction l as [|x l IH]; [done|].
  csimpl. rewrite length_app, IH, Hf. lia.
Qed.

Lemma zlength_pixel_scan (width height : Z) :
  zlength (pixel_scan width height) = Z.max 0 width * Z.max 0 height.
Proof.
  unfold zlength, pixel_scan.
  rewrite (length_bind_const _ (Z.to_nat height))
    by (intros x; by rewrite length_fmap, length_seqZ).
  rewrite length_seqZ. lia.
Qed.

Lemma pixel_count_le (lm : list Z) (width height c : Z) :
  0 ≤ pixel_count lm width height c ≤ Z.max 0 width * Z.max 0 height.
Proof.
  unfold pixel_count. rewrite <- zlength_pixel_scan. unfold zlength.
  pose proof (length_filter (λ idx, rdi lm idx = c) (pixel_scan width height)). lia.
Qed.

(** X8.  The list of active classes of [getLabels] is strictly ascending;
    it holds exactly the class ids from 1 to [num_classes - 1] whose
    bucket has more pixels than [minArea] converted to [size_t], which is
    [minArea] itself when it is not negative; for a negative [minArea],
    which the conversion turns into a number above every image size, no
    class is active; class 0 is never in the list; and the list is empty
    when there is no class besides the background. *)
Theorem getLabels_active_classes (lm : list Z) (width height nc minA : Z) :
  let object_ids := (getLabels lm width height nc minA).2 in
  StronglySorted Z.lt object_ids ∧
  (∀ c, c ∈ object_ids ↔
        1 ≤ c < nc ∧ size_t_of_int minA < pixel_count lm width height c) ∧
  (0 ≤ minA < 2 ^ 64 →
   ∀ c, c ∈ object_ids ↔ 1 ≤ c < nc ∧ minA < pixel_count lm width height c) ∧
  (- 2 ^ 63 ≤ minA < 0 → width * height < 2 ^ 63 → object_ids = []) ∧
  (0 ∉ object_ids) ∧
  (nc ≤ 1 → object_ids = []).
Proof.
  intros object_ids.
  assert (∀ c, c ∈ object_ids ↔
               1 ≤ c < nc ∧ size_t_of_int minA < pixel_count lm width height c) as Hiff.
  { intros c. apply getLabels_object_ids. }
  assert (StronglySorted Z.lt object_ids) as Hsorted.
  { subst object_ids. unfold getLabels. cbn [snd]. apply StronglySorted_filter.
    destruct (decide (0 ≤ nc - 1)) as [Hn|Hn].
    + rewrite <- (Z2Nat.id (nc - 1)) by done. apply StronglySorted_seqZ.
    + rewrite seqZ_nil by lia. constructor. }
  clearbody object_ids. split; [done|]. split; [done|].
  split; [|split; [|split]].
  - intros HminA c. rewrite Hiff. by rewrite size_t_of_int_small.
  - intros HminA Hsize. destruct object_ids as [|c ids]; [done|]. exfalso.
    destruct (Hiff c) as [Hc _]. destruct Hc as [_ Hlt]; [left|].
    pose proof (pixel_count_le lm width height c) as Hle.
    assert (size_t_of_int minA = 2 ^ 64 + minA) as Hconv.
    { unfold size_t_of_int. symmetry. apply (Z.mod_unique_pos _ _ (-1)); lia. }
    assert (Z.max 0 width * Z.max 0 height < 2 ^ 63) as Hmax by nia.
    lia.
  - intros H0%Hiff. lia.
  - intros Hnc. destruct object_ids as [|c ids]; [done|].
    destruct (Hiff c) as [Hc _]. destruct Hc; [left|lia].
Qed.

(** ** The working queue, again *)

(** X9.  The working queue holds no pointer twice; a pointer is in it
    exactly when it points to a hypothesis of the registry whose class has
    more than one hypothesis left or whose counter of refinement steps is
    below [maxIt], so that no pointer of the queue dangles; and the queue
    is empty exactly when every class that has hypotheses has one, refined
    [maxIt] times or more. *)
Theorem getWorkingQueue_pointers (hm : hypMap_t) (maxIt : Z) :
  NoDup (getWorkingQueue hm maxIt) ∧
  (∀ p, p ∈ getWorkingQueue hm maxIt ↔
        ∃ x, deref hm p = Some x ∧
             (1 < zlength (default [] (hm !! p.1)) ∨ refSteps x < maxIt)) ∧
  (getWorkingQueue hm maxIt = [] ↔
   ∀ k b, hm !! k = Some b → b ≠ [] → ∃ x, b = [x] ∧ maxIt ≤ refSteps x).
Proof.
  split; [apply NoDup_getWorkingQueue|]. split; [|apply getWorkingQueue_nil].
  intros p. rewrite elem_of_getWorkingQueue. unfold deref. split.
  - intros (b & x & Hb & Hx & Hc). exists x. rewrite Hb. simpl. done.
  - intros (x & Hx & Hc). destruct (hm !! p.1) as [b|] eqn:Hb; [|done].
    simpl in Hx, Hc. by exists b, x.
Qed.

(** ** The sampler, again *)

Lemma registry_size_push_back (hyp : TransHyp) (hm : hypMap_t) :
  registry_size (hypMap_push_back hyp hm) = S (registry_size hm).
Proof.
  unfold registry_size, hypMap_push_back.
  destruct (hm !! objID hyp) as [b|] eqn:Hb; simpl.
  - rewrite <- (insert_delete_eq hm).
    rewrite map_to_list_insert by apply lookup_delete_eq.
    rewrite <- (map_to_list_delete hm _ _ Hb). simpl. rewrite length_app. simpl. lia.
  - rewrite map_to_list_insert by done. done.
Qed.

Section SamplingMore.
Context {rng : Type}.
Variables (irand : Z → Z → rng → Z * rng) (to_id_t : Z → Z)
          (hyp_center : list corr → Point2)
          (vertmap : list Q) (labels : list (list Z)) (object_ids : list Z)
          (width num_classes : Z).

Hypothesis irand_ok : irand_in_range irand.
Hypothesis ids_ok : ∀ c, c ∈ object_ids → c ≠ 0 ∧ to_id_t c = c.
Hypothesis ids_some : object_ids ≠ [].

Local Abbreviation attempt :=
  (sample_attempt irand to_id_t hyp_center vertmap labels object_ids width num_classes).
Local Abbreviation slot :=
  (sample_slot irand to_id_t hyp_center vertmap labels object_ids width num_classes).

Lemma sample_attempt_succeeds (s : rng) :
  ∃ c ctr s', attempt s = (Some (TransHyp_new c ctr), s') ∧ c ∈ object_ids.
Proof.
  assert (zlength object_ids ≠ 0) as Hne.
  { destruct object_ids; [done|]. unfold zlength. simpl. lia. }
  pose proof (draw_objID_elem_of irand to_id_t object_ids s irand_ok
                (λ c Hc, proj2 (ids_ok c Hc)) Hne) as Hin.
  unfold sample_attempt. destruct (draw_objID irand to_id_t object_ids s) as [o s1].
  cbn [fst] in Hin. rewrite decide_False by (by apply ids_ok).
  destruct (irand 0 _ s1) as [i1 s2]. unfold samplePoint2D. cbn [negb].
  destruct (irand 0 _ s2) as [i2 s3]. cbn [negb]. by eexists _, _, _.
Qed.

(** A slot ends with its first attempt. *)
Lemma sample_slot_first_attempt (budget : positive) : ∀ s, slot budget s = attempt s.
Proof.
  induction budget as [p IH|p IH|]; intros s; cbn [sample_slot]; [| |done].
  - destruct (sample_attempt_succeeds s) as (c & ctr & s' & -> & _). done.
  - rewrite IH. destruct (sample_attempt_succeeds s) as (c & ctr & s' & -> & _). done.
Qed.

Lemma sample_hyps_fills_from (slots : nat) : ∀ (st : hypMap_t * rng),
  (∀ k b, st.1 !! k = Some b →
     b ≠ [] ∧ k ∈ object_ids ∧ ∀ x, x ∈ b → ∃ ctr, x = TransHyp_new k ctr) →
  let r := sample_hyps irand to_id_t hyp_center vertmap labels object_ids width
                       num_classes slots st in
  registry_size r.1 = (registry_size st.1 + slots)%nat ∧
  ∀ k b, r.1 !! k = Some b →
     b ≠ [] ∧ k ∈ object_ids ∧ ∀ x, x ∈ b → ∃ ctr, x = TransHyp_new k ctr.
Proof.
  induction slots as [|slots IH]; intros st Hst.
  - cbn. split; [lia|done].
  - cbn [sample_hyps]. rewrite sample_slot_first_attempt.
    destruct (sample_attempt_succeeds st.2) as (c & ctr & s' & -> & Hc).
    destruct (IH (hypMap_push_back (TransHyp_new c ctr) st.1, s')) as [Hsize Hinv].
    + cbn [fst]. intros k b Hb. unfold hypMap_push_back in Hb. cbn [objID TransHyp_new] in Hb.
      apply lookup_insert_Some in Hb as [[<- <-]|[_ Hb]]; [|by apply Hst].
      split; [by destruct (default [] (st.1 !! c))|]. split; [done|].
      intros x [Hx|Hx]%elem_of_app.
      * destruct (st.1 !! c) as [b0|] eqn:Hb0; simpl in Hx.
        -- by apply (Hst c b0 Hb0).
        -- by apply elem_of_nil in Hx.
      * apply list_elem_of_singleton in Hx. by exists ctr.
    + cbn [fst] in Hsize. rewrite registry_size_push_back in Hsize.
      split; [cbn zeta in *; lia|exact Hinv].
Qed.

(** X10.  When there is an active class, every sampling attempt builds a
    hypothesis, so every slot ends with its first attempt.  Started on an
    empty registry, the sampler leaves exactly [slots] hypotheses in it
    (256 in [estimateCenter]); every bucket is non-empty and filed under
    an active class, and each of its hypotheses is a new one of that
    class: no inliers, no pixel budget, no refinement step. *)
Theorem sample_hyps_fills (slots : nat) (s : rng) :
  let r := sample_hyps irand to_id_t hyp_center vertmap labels object_ids width
                       num_classes slots (∅, s) in
  (∀ budget s0, slot budget s0 = attempt s0 ∧ is_Some (attempt s0).1) ∧
  registry_size r.1 = slots ∧
  registry_keyed r.1 ∧
  ∀ k b, r.1 !! k = Some b →
     k ∈ object_ids ∧ ∀ x, x ∈ b → ∃ ctr, x = TransHyp_new k ctr.
Proof.
  intros r. split.
  { intros budget s0. split; [apply sample_slot_first_attempt|].
    destruct (sample_attempt_succeeds s0) as (c & ctr & s' & -> & _). by eexists. }
  destruct (sample_hyps_fills_from slots (∅, s)) as [Hsize Hinv].
  { intros k b Hb. cbn [fst] in Hb. by rewrite lookup_empty in Hb. }
  fold r in Hsize, Hinv. split.
  { rewrite Hsize. cbn [fst]. unfold registry_size. by rewrite map_to_list_empty. }
  split.
  - intros k b Hb. destruct (Hinv k b Hb) as (Hne & _ & Hnew). split; [done|].
    intros x Hx. destruct (Hnew x Hx) as [ctr ->]. done.
  - intros k b Hb. destruct (Hinv k b Hb) as (_ & Hk & Hnew). done.
Qed.

End SamplingMore.

Lemma Sample_ids_ok : ∀ c, c ∈ [1] → c ≠ 0 ∧ Sample.to_id_t c = c.
Proof. intros c ->%list_elem_of_singleton. split; [lia|reflexivity]. Qed.

Lemma sample_hyps_fills_witness :
  let labels := (getLabels Sample.labelmap_4x3 4 3 2 0).1 in
  let r := sample_hyps Sample.irand Sample.to_id_t Sample.hyp_center Sample.vertmap_4x3
                       labels [1] 4 2 5 (∅, 3) in
  irand_in_range Sample.irand ∧
  (∀ c, c ∈ [1] → c ≠ 0 ∧ Sample.to_id_t c = c) ∧
  [1] ≠ [] ∧
  (∀ budget s0,
     sample_slot Sample.irand Sample.to_id_t Sample.hyp_center Sample.vertmap_4x3
                 labels [1] 4 2 budget s0
     = sample_attempt Sample.irand Sample.to_id_t Sample.hyp_center Sample.vertmap_4x3
                      labels [1] 4 2 s0 ∧
     is_Some (sample_attempt Sample.irand Sample.to_id_t Sample.hyp_center
                             Sample.vertmap_4x3 labels [1] 4 2 s0).1) ∧
  registry_size r.1 = 5%nat ∧
  registry_keyed r.1 ∧
  ∀ k b, r.1 !! k = Some b →
     k ∈ [1] ∧ ∀ x, x ∈ b → ∃ ctr, x = TransHyp_new k ctr.
Proof.
  assert ([1] ≠ @nil Z) as Hne by discriminate.
  split; [exact Sample_irand_in_range|]. split; [exact Sample_ids_ok|].
  split; [exact Hne|].
  exact (sample_hyps_fills Sample.irand Sample.to_id_t Sample.hyp_center
           Sample.vertmap_4x3 (getLabels Sample.labelmap_4x3 4 3 2 0).1 [1] 4 2
           Sample_irand_in_range Sample_ids_ok Hne 5 3).
Defined.

Example sample_hyps_two :
  (λ kb : Z * list TransHyp, (kb.1, center <$> kb.2)) <$>
    map_to_list (sample_hyps Sample.irand Sample.to_id_t Sample.hyp_center
                             Sample.vertmap_4x3 (getLabels Sample.labelmap_4x3 4 3 2 0).1
                             [1] 4 2 2 (∅, 3)).1
  = [(1, [mkPoint2 1 (1 # 2); mkPoint2 (1 # 2) 1])].
Proof. vm_compute. reflexivity. Qed.

(** ** The main loop, again *)

Section LoopMore.
Context {mt19937 rng : Type}.
Variables (sqrtf : Q → Q) (mt19937_default : mt19937)
          (negative_binomial : Z → Q → mt19937 → Z * mt19937)
          (irand : Z → Z → rng → Z * rng)
          (calcCenter : Point2 → list corr → Point2)
          (sort : list TransHyp → list TransHyp)
          (vertmap : list Q) (labels : list (list Z))
          (width num_classes preemptiveBatch : Z).

Hypothesis sort_perm : ∀ l, sort l ≡ₚ l.

Local Abbreviation pass :=
  (ransac_pass sqrtf mt19937_default negative_binomial irand calcCenter sort
               vertmap labels width num_classes preemptiveBatch).
Local Abbreviation loop :=
  (ransac_loop sqrtf mt19937_default negative_binomial irand calcCenter sort
               vertmap labels width num_classes preemptiveBatch).

Lemma cull_bucket_nonempty (b : list TransHyp) : b ≠ [] → cull_bucket sort b ≠ [].
Proof.
  intros Hb. unfold cull_bucket. case_decide as Hlen; [|done]. cbn zeta.
  pose proof (Permutation_length (sort_perm b)) as Hl.
  unfold zlength in Hlen.
  pose proof (Nat.div_le_lower_bound (length b) 2 1 ltac:(lia) ltac:(lia)).
  pose proof (Nat.Div0.div_le_upper_bound (length b) 2 (length b) ltac:(lia)).
  intros Hnil. apply (f_equal length) in Hnil. rewrite length_take, Hl in Hnil.
  cbn [length] in Hnil. lia.
Qed.

Lemma ransac_pass_keyed (objList : list Z) (st : hypMap_t * rng) :
  NoDup objList → (∀ k, k ∈ objList ↔ is_Some (st.1 !! k)) →
  registry_keyed st.1 →
  registry_keyed (pass objList (getWorkingQueue st.1 refIt) st).1.
Proof.
  intros Hnd Hkeys Hst k b3 Hb3.
  assert (k ∈ objList) as Hk.
  { apply (ransac_pass_keys sqrtf mt19937_default negative_binomial irand calcCenter
             sort vertmap labels width num_classes preemptiveBatch objList st Hnd Hkeys k).
    by rewrite Hb3. }
  pose proof Hk as [b Hb]%Hkeys. destruct (Hst k b Hb) as [Hne Hid].
  pose proof (ransac_pass_bucket sqrtf mt19937_default negative_binomial irand
                calcCenter sort vertmap labels width num_classes preemptiveBatch
                objList st k Hnd) as H.
  rewrite Hb in H. destruct (H Hk) as (b1 & b3' & Hb3' & Hcount & Hlen & _).
  rewrite Hb3 in Hb3'. injection Hb3' as <-.
  split.
  - assert (b1 ≠ []) as Hb1.
    { intros ->. apply Forall2_length in Hcount. by destruct b. }
    apply cull_bucket_nonempty in Hb1. intros ->. simpl in Hlen.
    by destruct (cull_bucket sort b1).
  - destruct (ransac_pass_measure sqrtf mt19937_default negative_binomial irand
                calcCenter sort vertmap labels width num_classes preemptiveBatch
                sort_perm objList st k b Hnd Hk Hb)
      as (b3' & Hb3' & _ & _ & _ & Hobj & _).
    rewrite Hb3 in Hb3'. injection Hb3' as <-.
    intros x3 Hx3. rewrite Forall_forall in Hobj.
    destruct (Hobj x3 Hx3) as (x & Hx & ->). by apply Hid.
Qed.

(** What holds of the registry when the loop returns. *)
Lemma ransac_loop_returns (objList : list Z) (fuel : nat) :
  ∀ (st st' : hypMap_t * rng),
  NoDup objList → (∀ k, k ∈ objList ↔ is_Some (st.1 !! k)) →
  registry_keyed st.1 →
  loop fuel objList st = Some st' →
  getWorkingQueue st'.1 refIt = [] ∧
  (∀ k, k ∈ objList ↔ is_Some (st'.1 !! k)) ∧
  registry_keyed st'.1.
Proof.
  induction fuel as [|fuel IH]; intros st st' Hnd Hkeys Hst; cbn [ransac_loop].
  - destruct (getWorkingQueue st.1 refIt) eqn:Hq; [|done]. by intros [= <-].
  - destruct (getWorkingQueue st.1 refIt) as [|p q] eqn:Hq; [by intros [= <-]|].
    rewrite <- Hq. apply IH; [done| |by apply ransac_pass_keyed].
    exact (ransac_pass_keys sqrtf mt19937_default negative_binomial irand calcCenter
             sort vertmap labels width num_classes preemptiveBatch objList st Hnd Hkeys).
Qed.

(** X11.  The main loop loses no class: started on a registry whose
    buckets are non-empty and filed under the class of their hypotheses,
    with [objList] naming its classes, it ends for every sufficient number
    of iterations, and in the registry it returns every class of the
    initial registry has exactly one hypothesis, of that class and
    refined at least 8 times; no other class appears. *)
Theorem ransac_loop_one_per_class (objList : list Z) (hm : hypMap_t) (s : rng) :
  objList ≡ₚ (map_to_list hm).*1 →
  registry_keyed hm →
  ∃ n, ∀ fuel, (n ≤ fuel)%nat →
    ∃ hm' s', loop fuel objList (hm, s) = Some (hm', s') ∧
      (∀ k, hm !! k = None → hm' !! k = None) ∧
      (∀ k, is_Some (hm !! k) →
            ∃ x, hm' !! k = Some [x] ∧ objID x = k ∧ refIt ≤ refSteps x).
Proof.
  intros [Hnd Hkeys]%keys_perm_iff Hkeyed.
  destruct (registry_bound_exists hm) as [n Hn]. exists n. intros fuel Hfuel.
  destruct (ransac_loop_enough sqrtf mt19937_default negative_binomial irand
              calcCenter sort vertmap labels width num_classes preemptiveBatch
              sort_perm objList n fuel (hm, s) Hnd Hkeys Hn Hfuel)
    as ([hm' s'] & Hloop & _).
  exists hm', s'. split; [done|].
  destruct (ransac_loop_returns objList fuel (hm, s) (hm', s') Hnd Hkeys Hkeyed Hloop)
    as (Hq & Hkeys' & Hkeyed').
  cbn [fst] in *. split.
  - intros k Hk. destruct (hm' !! k) eqn:Hk'; [|done]. exfalso.
    assert (is_Some (hm !! k)) as [? ?]; [|congruence].
    apply Hkeys, Hkeys'. by rewrite Hk'.
  - intros k Hk. apply Hkeys, Hkeys' in Hk as [b Hb].
    destruct (Hkeyed' k b Hb) as [Hne Hid].
    destruct (proj1 (getWorkingQueue_nil hm' refIt) Hq k b Hb Hne) as (x & -> & Hx).
    exists x. split; [done|]. split; [|done]. apply Hid. left.
Qed.

End LoopMore.

Lemma Sample_registry_of_three_keyed : registry_keyed Sample.registry_of_three.
Proof.
  intros k b Hb. unfold Sample.registry_of_three in Hb.
  apply lookup_singleton_Some in Hb as [<- <-]. split; [done|].
  intros x Hx. repeat (apply elem_of_cons in Hx as [->|Hx]; [done|]).
  by apply elem_of_nil in Hx.
Qed.

Lemma ransac_loop_one_per_class_witness :
  (∀ l, Sample.sort l ≡ₚ l) ∧
  [1] ≡ₚ (map_to_list Sample.registry_of_three).*1 ∧
  registry_keyed Sample.registry_of_three ∧
  ∃ n, ∀ fuel, (n ≤ fuel)%nat →
    ∃ hm' s',
      ransac_loop Sample.sqrtf Sample.mt19937_default Sample.negative_binomial
                  Sample.irand Sample.calcCenter Sample.sort Sample.vertmap_4x3
                  (getLabels Sample.labelmap_4x3 4 3 2 0).1 4 2 3
                  fuel [1] (Sample.registry_of_three, 1) = Some (hm', s') ∧
      (∀ k, Sample.registry_of_three !! k = None → hm' !! k = None) ∧
      (∀ k, is_Some (Sample.registry_of_three !! k) →
            ∃ x, hm' !! k = Some [x] ∧ objID x = k ∧ refIt ≤ refSteps x).
Proof.
  assert ([1] ≡ₚ (map_to_list Sample.registry_of_three).*1) as Hkeys by reflexivity.
  split; [exact Sample_sort_perm|]. split; [exact Hkeys|].
  split; [exact Sample_registry_of_three_keyed|].
  exact (ransac_loop_one_per_class Sample.sqrtf Sample.mt19937_default
           Sample.negative_binomial Sample.irand Sample.calcCenter Sample.sort
           Sample.vertmap_4x3 (getLabels Sample.labelmap_4x3 4 3 2 0).1 4 2 3
           Sample_sort_perm [1] Sample.registry_of_three 1 Hkeys
           Sample_registry_of_three_keyed).
Defined.

(** ** The detections of a pass *)

Lemma singleton_buckets_classes (l : list (Z * list TransHyp)) :
  Forall (λ kb, ∃ x, kb.2 = [x] ∧ objID x = kb.1) l →
  objID <$> ('(_, b) ← l; b) = l.*1.
Proof.
  induction 1 as [|[k b] l (x & Hb & Hx) _ IH]; [done|].
  cbn in Hb, Hx. subst b. csimpl. rewrite IH. by rewrite Hx.
Qed.

Section FinalizeMore.
Variables (PI : Q)
          (getBB2D : Z → Z → list Point3 → list Q → cv_trans_t → Rect)
          (getIoU : Rect → Rect → Q)
          (pose_quaternion : cv_trans_t → (Q * Q * Q * Q) * Point3)
          (nlopt_optimize : nlopt_opt → list Q → list Q * Q)
          (compute_width_height : TransHyp → Q * Q)
          (batch height width : Z) (fx fy px py : Q)
          (bb3Ds : list (list Point3)) (camMat : list Q).

Lemma foldl_finalize_blocks (hs : list TransHyp) : ∀ (outputs : list roi_t),
  ∃ blocks,
    foldl (λ outputs hyp,
             finalize_hyp PI getBB2D getIoU pose_quaternion nlopt_optimize
                          compute_width_height batch height width fx fy px py
                          bb3Ds camMat hyp outputs) outputs hs
    = outputs ++ concat blocks ∧
    Forall2 (λ hyp blk, detection_block batch (objID hyp) blk) hs blocks.
Proof.
  induction hs as [|hyp hs IH]; intros outputs.
  - exists []. split; [by rewrite app_nil_r|constructor].
  - cbn [foldl].
    destruct (finalize_hyp_shape PI getBB2D getIoU pose_quaternion nlopt_optimize
                compute_width_height batch height width fx fy px py bb3Ds camMat
                hyp outputs) as (r0 & r1 & r2 & r3 & r4 & -> & Hb & Hc & Hsame).
    destruct (IH (outputs ++ [r0; r1; r2; r3; r4])) as (blocks & -> & Hall).
    exists ([r0; r1; r2; r3; r4] :: blocks). split.
    + cbn [concat]. by rewrite <- (assoc_L (++)).
    + constructor; [|done]. by exists r0, r1, r2, r3, r4.
Qed.

End FinalizeMore.

Section PipelineMore.
Context {mt19937 rng : Type}.
Variables (sqrtf : Q → Q) (mt19937_default : mt19937)
          (negative_binomial : Z → Q → mt19937 → Z * mt19937)
          (irand : Z → Z → rng → Z * rng)
          (calcCenter : Point2 → list corr → Point2)
          (sort : list TransHyp → list TransHyp) (to_id_t : Z → Z)
          (hyp_center : list corr → Point2) (PI : Q)
          (getBB3D : Point3 → list Point3)
          (getBB2D : Z → Z → list Point3 → list Q → cv_trans_t → Rect)
          (getIoU : Rect → Rect → Q)
          (pose_quaternion : cv_trans_t → (Q * Q * Q * Q) * Point3)
          (nlopt_optimize : nlopt_opt → list Q → list Q * Q)
          (compute_width_height : TransHyp → Q * Q)
          (extents : list Q)
          (height width num_classes preemptive_batch : Z).

Hypothesis irand_ok : irand_in_range irand.
Hypothesis id_t_ok : id_t_holds to_id_t num_classes.
Hypothesis sort_perm : ∀ l, sort l ≡ₚ l.

Local Abbreviation run :=
  (estimateCenter sqrtf mt19937_default negative_binomial irand calcCenter sort
                  to_id_t hyp_center PI getBB3D getBB2D getIoU pose_quaternion
                  nlopt_optimize compute_width_height).
Local Abbreviation run_images :=
  (Compute_images sqrtf mt19937_default negative_binomial irand calcCenter sort
                  to_id_t hyp_center PI getBB3D getBB2D getIoU pose_quaternion
                  nlopt_optimize compute_width_height).
Local Abbreviation active labelmap :=
  (getLabels labelmap width height num_classes (int_of_float minArea)).2.

Lemma ransac_loop_fuel_mono (vertmap : list Q) (labels : list (list Z))
    (objList : list Z) (fuel : nat) :
  ∀ fuel' (st r : hypMap_t * rng), (fuel ≤ fuel')%nat →
  ransac_loop sqrtf mt19937_default negative_binomial irand calcCenter sort
              vertmap labels width num_classes preemptive_batch fuel objList st
  = Some r →
  ransac_loop sqrtf mt19937_default negative_binomial irand calcCenter sort
              vertmap labels width num_classes preemptive_batch fuel' objList st
  = Some r.
Proof.
  induction fuel as [|fuel IH]; intros fuel' st r Hle; cbn [ransac_loop].
  - destruct (getWorkingQueue st.1 refIt) eqn:Hq; [|done].
    intros [= <-]. destruct fuel'; cbn [ransac_loop]; by rewrite Hq.
  - destruct (getWorkingQueue st.1 refIt) as [|p q] eqn:Hq.
    + intros [= <-]. destruct fuel'; cbn [ransac_loop]; by rewrite Hq.
    + destruct fuel' as [|fuel']; [lia|]. cbn [ransac_loop]. rewrite Hq.
      apply IH. lia.
Qed.

Lemma finalize_blocks (batch : Z) (fx fy px py : Q) (bb3Ds : list (list Point3))
    (camMat : list Q) (hm : hypMap_t) (outputs : list roi_t) :
  (∀ k b, hm !! k = Some b → ∃ x, b = [x] ∧ objID x = k) →
  ∃ blocks,
    finalize PI getBB2D getIoU pose_quaternion nlopt_optimize compute_width_height
             batch height width fx fy px py bb3Ds camMat hm outputs
    = outputs ++ concat blocks ∧
    Forall2 (detection_block batch) (hypMap_entries hm).*1 blocks.
Proof.
  intros Hhm. unfold finalize.
  destruct (foldl_finalize_blocks PI getBB2D getIoU pose_quaternion nlopt_optimize
              compute_width_height batch height width fx fy px py bb3Ds camMat
              ('(_, b) ← hypMap_entries hm; b) outputs) as (blocks & -> & Hblocks).
  exists blocks. split; [done|].
  rewrite <- (singleton_buckets_classes (hypMap_entries hm)).
  - by apply Forall2_fmap_l.
  - apply Forall_forall. intros [k b] Hkb. apply elem_of_hypMap_entries in Hkb.
    exact (Hhm k b Hkb).
Qed.

(** What a pass of [estimateCenter] returns when given enough iterations:
    the detections of a registry that has one hypothesis, of that class,
    for each of its classes, which are active ones. *)
Lemma estimateCenter_run (labelmap : list Z) (vertmap : list Q)
    (batch : Z) (fx fy px py : Q) (outputs : list roi_t) (s : rng) :
  ∃ n hm s',
    (∀ fuel, (n ≤ fuel)%nat →
       run fuel labelmap vertmap extents batch height width num_classes
           preemptive_batch fx fy px py outputs s
       = Some (finalize PI getBB2D getIoU pose_quaternion nlopt_optimize
                        compute_width_height batch height width fx fy px py
                        (getBb3Ds getBB3D extents num_classes)
                        [fx; 0; px; 0; fy; py; 0; 0; 1]%Q hm outputs, s')) ∧
    (∀ k b, hm !! k = Some b → k ∈ active labelmap ∧ ∃ x, b = [x] ∧ objID x = k) ∧
    (active labelmap ≠ [] → hm ≠ ∅).
Proof.
  unfold estimateCenter.
  pose proof (getLabels_object_ids labelmap width height num_classes
                (int_of_float minArea)) as Hids.
  pose proof (getLabels_ids_fit to_id_t labelmap width height num_classes
                (int_of_float minArea) id_t_ok) as Hfit.
  destruct (getLabels labelmap width height num_classes (int_of_float minArea))
    as [labels object_ids].
  cbn [snd] in *.
  destruct (decide (zlength object_ids = 0)) as [Hnone|Hsome].
  { exists 0%nat, ∅, s. split; [|split].
    - intros fuel _. unfold finalize. by rewrite hypMap_entries_empty.
    - intros k b Hb. by rewrite lookup_empty in Hb.
    - intros Hne. destruct object_ids; [done|].
      unfold zlength in Hnone. simpl in Hnone. lia. }
  assert (object_ids ≠ []) as Hne by (intros ->; done).
  assert (∀ c, c ∈ object_ids → c ≠ 0 ∧ to_id_t c = c) as Hok.
  { intros c Hc. split; [|by apply Hfit]. apply Hids in Hc. lia. }
  pose proof (sample_hyps_fills_from irand to_id_t hyp_center vertmap labels object_ids
                width num_classes irand_ok Hok Hne (Z.to_nat ransacIterations) (∅, s))
    as Hsample.
  destruct (sample_hyps irand to_id_t hyp_center vertmap labels object_ids width
              num_classes (Z.to_nat ransacIterations) (∅, s)) as [hm s1].
  destruct Hsample as [Hsize Hinv].
  { intros k b Hb. cbn [fst] in Hb. by rewrite lookup_empty in Hb. }
  cbn [fst] in Hsize, Hinv.
  assert (registry_keyed hm) as Hkeyed.
  { intros k b Hb. destruct (Hinv k b Hb) as (Hb0 & _ & Hnew). split; [done|].
    intros x Hx. by destruct (Hnew x Hx) as [ctr ->]. }
  assert ((hypMap_entries hm).*1 ≡ₚ (map_to_list hm).*1) as [Hnd Hkeys]%keys_perm_iff
    by apply hypMap_entries_keys.
  destruct (registry_bound_exists hm) as [n Hn].
  destruct (ransac_loop_enough sqrtf mt19937_default negative_binomial irand
              calcCenter sort vertmap labels width num_classes preemptive_batch
              sort_perm _ n n (hm, s1) Hnd Hkeys Hn (le_n n)) as ([hm' s2] & Hloop & _).
  destruct (ransac_loop_returns sqrtf mt19937_default negative_binomial irand
              calcCenter sort vertmap labels width num_classes preemptive_batch
              sort_perm _ n (hm, s1) (hm', s2) Hnd Hkeys Hkeyed Hloop)
    as (Hq & Hkeys' & Hkeyed').
  cbn [fst] in *.
  exists n, hm', s2. split; [|split].
  - intros fuel Hfuel.
    by rewrite (ransac_loop_fuel_mono vertmap labels _ n fuel (hm, s1) (hm', s2)
                  Hfuel Hloop).
  - intros k b Hb. split.
    + assert (is_Some (hm !! k)) as [b0 Hb0].
      { apply Hkeys, Hkeys'. by rewrite Hb. }
      by destruct (Hinv k b0 Hb0) as (_ & Hin & _).
    + destruct (Hkeyed' k b Hb) as [Hb0 Hobj].
      destruct (proj1 (getWorkingQueue_nil hm' refIt) Hq k b Hb Hb0) as (x & -> & _).
      exists x. split; [done|]. apply Hobj. left.
  - intros _ Hempty.
    assert (map_to_list hm ≠ []) as Hhm.
    { intros E. unfold registry_size in Hsize. rewrite E in Hsize.
      simpl in Hsize. unfold ransacIterations in Hsize. lia. }
    destruct (map_to_list hm) as [|[k b] l] eqn:E; [done|].
    assert (hm !! k = Some b) as Hkb by (apply elem_of_map_to_list; rewrite E; left).
    destruct (proj1 (Hkeys' k)) as [b' Hb']; [apply Hkeys; by rewrite Hkb|].
    rewrite Hempty in Hb'. by rewrite lookup_empty in Hb'.
Qed.

(** X12.  A pass of [estimateCenter] terminates, with a result that is
    the same for every sufficient number of iterations of the main loop,
    and appends to [outputs] one block of five detections for each class
    of a list [classes]: the classes are pairwise different and active,
    that is, in the list that [getLabels] built; there is at least one
    when that list is not empty; and the five detections of a block carry
    the batch index of the image and the class id of the block and agree
    in every entry except the box entries 2, 3 and 4, so that they share
    the pose. *)
Theorem estimateCenter_detection_blocks (labelmap : list Z) (vertmap : list Q)
    (batch : Z) (fx fy px py : Q) (outputs : list roi_t) (s : rng) :
  ∃ n classes blocks s',
    (∀ fuel, (n ≤ fuel)%nat →
       run fuel labelmap vertmap extents batch height width num_classes
           preemptive_batch fx fy px py outputs s
       = Some (outputs ++ concat blocks, s')) ∧
    NoDup classes ∧
    classes ⊆ active labelmap ∧
    (active labelmap ≠ [] → classes ≠ []) ∧
    Forall2 (detection_block batch) classes blocks.
Proof.
  destruct (estimateCenter_run labelmap vertmap batch fx fy px py outputs s)
    as (n & hm & s' & Hrun & Hhm & Hne).
  destruct (finalize_blocks batch fx fy px py (getBb3Ds getBB3D extents num_classes)
              [fx; 0; px; 0; fy; py; 0; 0; 1]%Q hm outputs)
    as (blocks & Hfin & Hblocks).
  { intros k b Hb. by destruct (Hhm k b Hb). }
  exists n, (hypMap_entries hm).*1, blocks, s'.
  split; [|split; [|split; [|split]]].
  - intros fuel Hfuel. by rewrite (Hrun fuel Hfuel), Hfin.
  - apply NoDup_fst_hypMap_entries.
  - intros k Hk. apply list_elem_of_fmap in Hk as ([k' b] & -> & Hkb).
    apply elem_of_hypMap_entries in Hkb. by destruct (Hhm k' b Hkb).
  - intros Hact Hnil. apply Hne; [done|].
    apply map_to_list_empty_iff. apply Permutation_nil.
    rewrite <- hypMap_entries_perm. by destruct (hypMap_entries hm).
  - done.
Qed.

Lemma detection_blocks_rows (batch : Z) (classes : list Z) (blocks : list (list roi_t)) :
  Forall2 (detection_block batch) classes blocks →
  length (concat blocks) = (5 * length blocks)%nat ∧
  Forall (λ roi, ∃ c, c ∈ classes ∧ rdf roi 0 = float_of_int batch ∧
                      rdf roi 1 = float_of_int c) (concat blocks).
Proof.
  induction 1 as [|c blk classes blocks Hblk _ [IHlen IHall]]; [by split|].
  destruct Hblk as (r0 & r1 & r2 & r3 & r4 & -> & Hb & Hc & Hsame).
  split; [cbn [concat app length]; lia|].
  assert (∀ r, r ∈ [r1; r2; r3; r4] →
            ∃ c', c' ∈ c :: classes ∧ rdf r 0 = float_of_int batch ∧
                  rdf r 1 = float_of_int c') as Hcopy.
  { intros r Hr. exists c. split; [left|].
    by rewrite !(Hsame r Hr) by lia. }
  cbn [concat app]. repeat constructor.
  - exists c. split; [left|done].
  - apply Hcopy. set_solver.
  - apply Hcopy. set_solver.
  - apply Hcopy. set_solver.
  - apply Hcopy. set_solver.
  - eapply Forall_impl; [exact IHall|]. intros roi (c' & Hc' & Hroi).
    exists c'. split; [by right|done].
Qed.

Lemma estimateCenter_rows (labelmap : list Z) (vertmap : list Q)
    (batch : Z) (fx fy px py : Q) (outputs : list roi_t) (s : rng) :
  ∃ n outs' s',
    (∀ fuel, (n ≤ fuel)%nat →
       run fuel labelmap vertmap extents batch height width num_classes
           preemptive_batch fx fy px py outputs s
       = Some (outputs ++ outs', s')) ∧
    (∃ m, length outs' = (5 * m)%nat) ∧
    Forall (λ roi, ∃ c, c ∈ active labelmap ∧ rdf roi 0 = float_of_int batch ∧
                        rdf roi 1 = float_of_int c) outs'.
Proof.
  destruct (estimateCenter_run labelmap vertmap batch fx fy px py outputs s)
    as (n & hm & s' & Hrun & Hhm & _).
  destruct (finalize_blocks batch fx fy px py (getBb3Ds getBB3D extents num_classes)
              [fx; 0; px; 0; fy; py; 0; 0; 1]%Q hm outputs)
    as (blocks & Hfin & Hblocks).
  { intros k b Hb. by destruct (Hhm k b Hb). }
  destruct (detection_blocks_rows _ _ _ Hblocks) as [Hlen Hall].
  exists n, (concat blocks), s'. split; [|split].
  - intros fuel Hfuel. by rewrite (Hrun fuel Hfuel), Hfin.
  - by exists (length blocks).
  - eapply Forall_impl; [exact Hall|]. intros roi (c & Hc & Hroi).
    exists c. split; [|done].
    apply list_elem_of_fmap in Hc as ([k' b] & -> & Hkb).
    apply elem_of_hypMap_entries in Hkb. by destruct (Hhm k' b Hkb).
Qed.

Lemma Compute_images_run (bottom_label : list Z) (bottom_vertex meta_data : list Q)
    (num_meta_data : Z) (ns : list Z) : ∀ (outputs : list roi_t) (s : rng),
  ∃ n outs' s',
    (∀ fuel, (n ≤ fuel)%nat →
       run_images fuel ns bottom_label bottom_vertex extents meta_data height width
                  num_classes num_meta_data preemptive_batch outputs s
       = Some (outputs ++ outs', s')) ∧
    (∃ m, length outs' = (5 * m)%nat) ∧
    Forall (λ roi, ∃ b c,
              b ∈ ns ∧
              c ∈ active (drop (Z.to_nat (b * height * width)) bottom_label) ∧
              rdf roi 0 = float_of_int b ∧ rdf roi 1 = float_of_int c) outs'.
Proof.
  induction ns as [|b ns IH]; intros outputs s.
  - exists 0%nat, [], s. split; [|split].
    + intros fuel _. cbn [Compute_images]. by rewrite app_nil_r.
    + by exists 0%nat.
    + constructor.
  - destruct (estimateCenter_rows
                (drop (Z.to_nat (b * height * width)) bottom_label)
                (drop (Z.to_nat (b * height * width * 2 * num_classes)) bottom_vertex)
                b (rdf meta_data (b * num_meta_data + 0))
                (rdf meta_data (b * num_meta_data + 4))
                (rdf meta_data (b * num_meta_data + 2))
                (rdf meta_data (b * num_meta_data + 5)) outputs s)
      as (n1 & outs1 & s1 & Hrun1 & [m1 Hlen1] & Hall1).
    destruct (IH (outputs ++ outs1) s1) as (n2 & outs2 & s2 & Hrun2 & [m2 Hlen2] & Hall2).
    exists (n1 `max` n2)%nat, (outs1 ++ outs2), s2. split; [|split].
    + intros fuel Hfuel. cbn [Compute_images]. cbv zeta.
      rewrite (Hrun1 fuel) by lia. rewrite (Hrun2 fuel) by lia.
      by rewrite <- (assoc_L (++)).
    + exists (m1 + m2)%nat. rewrite length_app. lia.
    + apply Forall_app. split.
      * eapply Forall_impl; [exact Hall1|]. intros roi (c & Hc & Hroi).
        exists b, c. split; [left|done].
      * eapply Forall_impl; [exact Hall2|]. intros roi (b' & c & Hb' & Hroi).
        exists b', c. split; [by right|done].
Qed.

Lemma rows_layout (f : roi_t → Z → Q) (w : Z) (outs : list roi_t) :
  0 ≤ w →
  zlength (roi ← outs; f roi <$> seqZ 0 w) = zlength outs * w ∧
  ∀ (k : nat) roi j, outs !! k = Some roi → 0 ≤ j < w →
    rdf (roi ← outs; f roi <$> seqZ 0 w) (Z.of_nat k * w + j) = f roi j.
Proof.
  intros Hw. induction outs as [|r outs [IHlen IH]].
  - split; [unfold zlength; simpl; lia|]. intros k roi j Hk. by rewrite lookup_nil in Hk.
  - csimpl. split.
    + unfold zlength in *. rewrite length_app, length_fmap, length_seqZ. simpl length. lia.
    + intros k roi j Hk Hj. unfold rdf, zlookup.
      rewrite decide_True by lia. destruct k as [|k].
      * injection Hk as ->. rewrite lookup_app_l
          by (rewrite length_fmap, length_seqZ; lia).
        replace (Z.of_nat 0 * w + j) with j by lia.
        pose proof (zlookup_fmap_seqZ (f roi) 0 w j) as Hl.
        unfold zlookup in Hl. rewrite decide_True in Hl by lia.
        rewrite Hl. rewrite decide_True by lia. by rewrite Z.add_0_l.
      * cbn [lookup list_lookup] in Hk.
        rewrite lookup_app_r by (rewrite length_fmap, length_seqZ; lia).
        rewrite length_fmap, length_seqZ.
        replace (Z.to_nat (Z.of_nat (S k) * w + j) - Z.to_nat w)%nat
          with (Z.to_nat (Z.of_nat k * w + j)) by lia.
        specialize (IH k roi j Hk Hj). unfold rdf, zlookup in IH.
        by rewrite decide_True in IH by lia.
Qed.

Lemma compute_target_weight_from_zlength (gt : list Q) (num_gt nc : Z)
    (outs : list roi_t) : ∀ i T W,
  let r := compute_target_weight_from gt num_gt nc i outs (T, W) in
  zlength r.1 = zlength T ∧ zlength r.2 = zlength W.
Proof.
  induction outs as [|roi outs IH]; intros i T W; [done|].
  cbn [compute_target_weight_from].
  pose proof (target_weight_row_rdf gt num_gt nc i roi T W 0) as (HT & HW & _).
  destruct (target_weight_row gt num_gt nc i roi (T, W)) as [T1 W1].
  cbn [fst snd] in HT, HW. cbv zeta in IH |- *.
  destruct (IH (i + 1) T1 W1) as [-> ->]. done.
Qed.

(** X13.  [Compute] returns for every sufficient number of iterations,
    with one result.  Its four tensors have as many rows as there are
    detections, a multiple of five, and the widths 6, 7,
    [4 * num_classes] and [4 * num_classes]; every row of the box
    tensor starts with the index [b] of an image of the batch and the id
    [c] of a class that is active in the label map of that image. *)
Theorem Compute_rows (bottom_label : list Z) (bottom_vertex meta_data gt : list Q)
    (batch_size num_meta_data num_gt : Z) (s : rng) :
  ∃ n rows top_box top_pose top_target top_weight s',
    (∀ fuel, (n ≤ fuel)%nat →
       Compute sqrtf mt19937_default negative_binomial irand calcCenter sort
               to_id_t hyp_center PI getBB3D getBB2D getIoU pose_quaternion
               nlopt_optimize compute_width_height
               fuel bottom_label bottom_vertex extents meta_data gt
               batch_size height width num_classes num_meta_data num_gt
               preemptive_batch s
       = Some (top_box, top_pose, top_target, top_weight, s')) ∧
    0 ≤ rows ∧ rows `mod` 5 = 0 ∧
    zlength top_box = rows * 6 ∧
    zlength top_pose = rows * 7 ∧
    zlength top_target = rows * (4 * num_classes) ∧
    zlength top_weight = rows * (4 * num_classes) ∧
    ∀ i, 0 ≤ i < rows →
      ∃ b c, 0 ≤ b < batch_size ∧
             c ∈ active (drop (Z.to_nat (b * height * width)) bottom_label) ∧
             rdf top_box (i * 6) = float_of_int b ∧
             rdf top_box (i * 6 + 1) = float_of_int c.
Proof.
  destruct (Compute_images_run bottom_label bottom_vertex meta_data num_meta_data
              (seqZ 0 batch_size) [] s) as (n & outs & s' & Hrun & [m Hm] & Hall).
  cbn [app] in Hrun.
  destruct (rows_layout (λ roi i, rdf roi i) 6 outs ltac:(lia)) as [Hbox_len Hbox].
  destruct (rows_layout (λ roi i, rdf roi (6 + i)) 7 outs ltac:(lia)) as [Hpose_len _].
  pose proof (compute_target_weight_from_zlength gt num_gt num_classes outs 0
                (replicate (Z.to_nat (zlength outs * 4 * num_classes)) 0%Q)
                (replicate (Z.to_nat (zlength outs * 4 * num_classes)) 0%Q)) as Htw.
  cbv zeta in Htw.
  destruct (Compute_outputs gt num_gt num_classes outs)
    as [[[top_box top_pose] top_target] top_weight] eqn:Hout.
  unfold Compute_outputs, compute_target_weight in Hout.
  destruct (compute_target_weight_from gt num_gt num_classes 0 outs _) as [T W] eqn:HTW.
  injection Hout as <- <- <- <-. cbn [fst snd] in Htw. destruct Htw as [HT HW].
  assert (Z.of_nat (Z.to_nat (zlength outs * 4 * num_classes))
          = zlength outs * (4 * num_classes)) as Hsize.
  { rewrite Z2Nat.id; [ring|]. destruct outs as [|roi outs']; [done|].
    apply Forall_cons in Hall as [(b & c & _ & Hc & _) _].
    apply getLabels_object_ids in Hc.
    apply Z.mul_nonneg_nonneg; [unfold zlength|]; lia. }
  exists n, (zlength outs),
    (roi ← outs; (λ i, rdf roi i) <$> seqZ 0 6),
    (roi ← outs; (λ i, rdf roi (6 + i)) <$> seqZ 0 7), T, W, s'.
  split; [|split; [|split; [|split; [|split; [|split; [|split]]]]]].
  - intros fuel Hfuel. unfold Compute. rewrite (Hrun fuel Hfuel).
    unfold Compute_outputs, compute_target_weight. by rewrite HTW.
  - unfold zlength. lia.
  - unfold zlength. rewrite Hm. rewrite Nat2Z.inj_mul, Z.mul_comm. apply Z_mod_mult.
  - done.
  - done.
  - rewrite HT. unfold zlength at 1. by rewrite length_replicate.
  - rewrite HW. unfold zlength at 1. by rewrite length_replicate.
  - intros i Hi.
    destruct (lookup_lt_is_Some_2 outs (Z.to_nat i)) as [roi Hroi];
      [unfold zlength in Hi; lia|].
    destruct (proj1 (Forall_forall _ _) Hall roi) as (b & c & Hb & Hc & Hrb & Hrc).
    { by eapply list_elem_of_lookup_2. }
    exists b, c. apply elem_of_seqZ in Hb. split; [lia|]. split; [done|].
    pose proof (Hbox (Z.to_nat i) roi 0 Hroi ltac:(lia)) as H0.
    pose proof (Hbox (Z.to_nat i) roi 1 Hroi ltac:(lia)) as H1.
    rewrite Z2Nat.id in H0, H1 by lia. rewrite Z.add_0_r in H0.
    rewrite <- Hrb, <- Hrc. split; [exact H0|exact H1].
Qed.

End PipelineMore.

Lemma estimateCenter_detection_blocks_witness :
  let object_ids := (getLabels Sample.labelmap_30 30 30 2 (int_of_float minArea)).2 in
  irand_in_range Sample.irand ∧
  id_t_holds Sample.to_id_t 2 ∧
  (∀ l, Sample.sort l ≡ₚ l) ∧
  ∃ n classes blocks s',
    (∀ fuel, (n ≤ fuel)%nat →
       estimateCenter Sample.sqrtf Sample.mt19937_default Sample.negative_binomial
                      Sample.irand Sample.calcCenter Sample.sort Sample.to_id_t
                      Sample.hyp_center
                      Sample.PI Sample.getBB3D Sample.getBB2D Sample.getIoU
                      Sample.pose_quaternion Sample.nlopt_optimize
                      Sample.compute_width_height
                      fuel Sample.labelmap_30 Sample.vertmap_30 Sample.extents_2
                      0 30 30 2 1000 100 100 15 15 [] 7
       = Some ([] ++ concat blocks, s')) ∧
    NoDup classes ∧
    classes ⊆ object_ids ∧
    (object_ids ≠ [] → classes ≠ []) ∧
    Forall2 (detection_block 0) classes blocks.
Proof.
  assert (id_t_holds Sample.to_id_t 2) as Hid by (apply Sample_id_t_holds; lia).
  split; [exact Sample_irand_in_range|]. split; [exact Hid|].
  split; [exact Sample_sort_perm|].
  exact (estimateCenter_detection_blocks
           Sample.sqrtf Sample.mt19937_default Sample.negative_binomial
           Sample.irand Sample.calcCenter Sample.sort Sample.to_id_t
           Sample.hyp_center
           Sample.PI Sample.getBB3D Sample.getBB2D Sample.getIoU
           Sample.pose_quaternion Sample.nlopt_optimize Sample.compute_width_height
           Sample.extents_2 30 30 2 1000
           Sample_irand_in_range Hid Sample_sort_perm
           Sample.labelmap_30 Sample.vertmap_30 0 100 100 15 15 [] 7).
Defined.

Lemma Compute_rows_witness :
  irand_in_range Sample.irand ∧
  id_t_holds Sample.to_id_t 2 ∧
  (∀ l, Sample.sort l ≡ₚ l) ∧
  ∃ n rows top_box top_pose top_target top_weight s',
    (∀ fuel, (n ≤ fuel)%nat →
       Compute Sample.sqrtf Sample.mt19937_default Sample.negative_binomial
               Sample.irand Sample.calcCenter Sample.sort Sample.to_id_t
               Sample.hyp_center
               Sample.PI Sample.getBB3D Sample.getBB2D Sample.getIoU
               Sample.pose_quaternion Sample.nlopt_optimize
               Sample.compute_width_height
               fuel Sample.labelmap_30 Sample.vertmap_30 Sample.extents_2
               [100; 0; 15; 0; 100; 15]%Q Sample.poses_gt
               1 30 30 2 6 1 1000 7
       = Some (top_box, top_pose, top_target, top_weight, s')) ∧
    0 ≤ rows ∧ rows `mod` 5 = 0 ∧
    zlength top_box = rows * 6 ∧
    zlength top_pose = rows * 7 ∧
    zlength top_target = rows * (4 * 2) ∧
    zlength top_weight = rows * (4 * 2) ∧
    ∀ i, 0 ≤ i < rows →
      ∃ b c, 0 ≤ b < 1 ∧
             c ∈ (getLabels (drop (Z.to_nat (b * 30 * 30)) Sample.labelmap_30)
                            30 30 2 (int_of_float minArea)).2 ∧
             rdf top_box (i * 6) = float_of_int b ∧
             rdf top_box (i * 6 + 1) = float_of_int c.
Proof.
  assert (id_t_holds Sample.to_id_t 2) as Hid by (apply Sample_id_t_holds; lia).
  split; [exact Sample_irand_in_range|]. split; [exact Hid|].
  split; [exact Sample_sort_perm|].
  exact (Compute_rows
           Sample.sqrtf Sample.mt19937_default Sample.negative_binomial
           Sample.irand Sample.calcCenter Sample.sort Sample.to_id_t
           Sample.hyp_center
           Sample.PI Sample.getBB3D Sample.getBB2D Sample.getIoU
           Sample.pose_quaternion Sample.nlopt_optimize Sample.compute_width_height
           Sample.extents_2 30 30 2 1000
           Sample_irand_in_range Hid Sample_sort_perm
           Sample.labelmap_30 Sample.vertmap_30 [100; 0; 15; 0; 100; 15]%Q
           Sample.poses_gt 1 6 1 7).
Defined.

(** ** The rows of the output tensors *)

(** X14.  The box and pose tensors that [Compute] fills are the
    detections laid out row by row: row [k] of the box tensor holds the
    entries 0 to 5 of detection [k], row [k] of the pose tensor its
    entries 6 to 12, so that the two rows together give the detection
    back. *)
Theorem Compute_outputs_rows (gt : list Q) (num_gt nc : Z) (outputs : list roi_t)
    (k : nat) (roi : roi_t) :
  outputs !! k = Some roi →
  let top_box := (Compute_outputs gt num_gt nc outputs).1.1.1 in
  let top_pose := (Compute_outputs gt num_gt nc outputs).1.1.2 in
  zlength top_box = zlength outputs * 6 ∧
  zlength top_pose = zlength outputs * 7 ∧
  (∀ j, 0 ≤ j < 6 → rdf top_box (Z.of_nat k * 6 + j) = rdf roi j) ∧
  (∀ j, 0 ≤ j < 7 → rdf top_pose (Z.of_nat k * 7 + j) = rdf roi (6 + j)).
Proof.
  intros Hk top_box top_pose. subst top_box top_pose.
  unfold Compute_outputs, compute_target_weight.
  destruct (compute_target_weight_from gt num_gt nc 0 outputs _) as [T W].
  cbn [fst snd].
  destruct (rows_layout (λ roi i, rdf roi i) 6 outputs ltac:(lia)) as [Hbox_len Hbox].
  destruct (rows_layout (λ roi i, rdf roi (6 + i)) 7 outputs ltac:(lia))
    as [Hpose_len Hpose].
  split; [exact Hbox_len|]. split; [exact Hpose_len|]. split.
  - intros j Hj. exact (Hbox k roi j Hk Hj).
  - intros j Hj. exact (Hpose k roi j Hk Hj).
Qed.

Lemma Compute_outputs_rows_witness :
  let top_box := (Compute_outputs Sample.poses_gt 1 3 Sample.detections).1.1.1 in
  let top_pose := (Compute_outputs Sample.poses_gt 1 3 Sample.detections).1.1.2 in
  Sample.detections !! 1%nat = Some [0; 2; 40; 40; 60; 60; 1; 0; 0; 0; 0; 0; 1]%Q ∧
  zlength top_box = zlength Sample.detections * 6 ∧
  zlength top_pose = zlength Sample.detections * 7 ∧
  (∀ j, 0 ≤ j < 6 →
     rdf top_box (Z.of_nat 1 * 6 + j)
     = rdf [0; 2; 40; 40; 60; 60; 1; 0; 0; 0; 0; 0; 1]%Q j) ∧
  (∀ j, 0 ≤ j < 7 →
     rdf top_pose (Z.of_nat 1 * 7 + j)
     = rdf [0; 2; 40; 40; 60; 60; 1; 0; 0; 0; 0; 0; 1]%Q (6 + j)).
Proof.
  split; [reflexivity|].
  exact (Compute_outputs_rows Sample.poses_gt 1 3 Sample.detections 1
           [0; 2; 40; 40; 60; 60; 1; 0; 0; 0; 0; 0; 1]%Q eq_refl).
Defined.
